(** * RPageSourceChain: a chain of RNTuple page sources read as one

    A shallow embedding of [tree/ntuple/v7/src/RPageStorageChain.cxx] and the
    properties of its index translation, page dispatch, page release,
    meta-data comparison and construction.

    Unsigned 64-bit quantities ([NTupleSize_t], [DescriptorId_t],
    [std::size_t]) are values of [N]; every addition and subtraction the code
    performs on them is written with its wrap-around ([add64], [sub64]).
    Positions in vectors and loop counters are [nat].  Methods are
    computations over a [Machine] that holds the object under execution
    ([this]), the log of calls made on collaborators, and the allocator. *)

From Stdlib Require Import NArith Lia String.
From stdpp Require Import base tactics option list gmap strings.

(** ** Machine integers *)

Definition two64 : N := (2 ^ 64)%N.

Definition add64 (a b : N) : N := ((a + b) mod two64)%N.

Definition sub64 (a b : N) : N :=
  ((a mod two64 + (two64 - b mod two64)) mod two64)%N.

(** Modelled from the spec: [kInvalidDescriptorId], the id no descriptor
    has, [std::uint64_t(-1)]. *)
Definition kInvalidDescriptorId : N := (two64 - 1)%N.

(** ** Failures *)

(** [.at()] on a vector throws [std::out_of_range]; [R__ASSERT] ends in
    [::Fatal].  The string names the expression that failed, respectively
    holds the message of the assertion.  A read delegated to a source may
    fail inside the source; such a failure passes through the chain as it
    is, and [SourceFailure] records where it was raised. *)

Inductive Failure : Type :=
| StdOutOfRange (what : string)
| FatalAssert (msg : string)
| SourceFailure (e : Failure).

Inductive Result (A : Type) : Type :=
| Ok (a : A)
| Err (e : Failure).
Arguments Ok {A} a.
Arguments Err {A} e.

#[global] Instance Failure_eq_dec : EqDecision Failure.
Proof. solve_decision. Defined.

(** ** Pages, column handles and descriptors

    The page and descriptor classes are declared outside this translation
    unit; the records below hold what the chain reads and writes of them. *)

(** Modelled from the spec: the handle of a column, of which the chain uses
    the column id. *)
Record ColumnHandle_t : Type := {
  fId : N;
  fColumn : N;
}.

(** Modelled from the spec: a cluster-relative index, the global cluster id
    and the entry offset within that cluster. *)
Record RClusterIndex : Type := {
  GetClusterId : N;
  GetIndex : N;
}.

(** Modelled from the spec: the cluster attribution of a page, the cluster
    id and the first element index of that cluster for the column. *)
Record RClusterInfo : Type := {
  GetId : N;
  GetSelfOffset : N;
}.

(** Modelled from the spec: a page, a run of values of one column with the
    identity of its backing buffer (0 is the null pointer), the first element
    of its window and its cluster attribution. *)
Record RPage : Type := {
  GetBuffer : N;
  GetNElements : N;
  GetGlobalRangeFirst : N;
  GetClusterInfo : RClusterInfo;
}.

(** Modelled from the spec: [RPage::IsNull], the null/empty page is the
    one without buffer. *)
Definition IsNull (page : RPage) : bool := bool_decide (GetBuffer page = 0%N).

(** Modelled from the spec: [RPage::SetWindow(rangeFirst, clusterInfo)],
    the re-windowing of a page: its first element and its cluster
    attribution are replaced. *)
Definition SetWindow (page : RPage) (rangeFirst : N) (clusterInfo : RClusterInfo) : RPage :=
  {| GetBuffer := GetBuffer page;
     GetNElements := GetNElements page;
     GetGlobalRangeFirst := rangeFirst;
     GetClusterInfo := clusterInfo |}.

(** Modelled from the spec: field and column descriptors, compared with
    [operator==] on all their members. *)
Record RFieldDescriptor : Type := {
  fFieldName : string;
  fTypeName : string;
}.

(** Modelled from the spec: see [RFieldDescriptor]. *)
Record RColumnDescriptor : Type := {
  fColumnType : N;
  fFieldId : N;
}.

(** Modelled from the spec: the range of a column within a cluster,
    [firstElementIndex] and [elementCount]. *)
Record RColumnRange : Type := {
  fFirstElementIndex : N;
  fNElements : N;
}.

(** Modelled from the spec: a cluster descriptor yields, per column id, a
    range. *)
Record RClusterDescriptor : Type := {
  fColumnRanges : list RColumnRange;
}.

(** Modelled from the spec: a descriptor gives field, column and cluster
    descriptors by id and their counts; the ids are the positions
    [0 .. count-1]. *)
Record RNTupleDescriptor : Type := {
  fFieldDescriptors : list RFieldDescriptor;
  fColumnDescriptors : list RColumnDescriptor;
  fClusterDescriptors : list RClusterDescriptor;
}.

#[global] Instance RFieldDescriptor_eq_dec : EqDecision RFieldDescriptor.
Proof. solve_decision. Defined.

#[global] Instance RColumnDescriptor_eq_dec : EqDecision RColumnDescriptor.
Proof. solve_decision. Defined.

#[global] Instance RClusterInfo_eq_dec : EqDecision RClusterInfo.
Proof. solve_decision. Defined.

#[global] Instance RPage_eq_dec : EqDecision RPage.
Proof. solve_decision. Defined.

(** Modelled from the spec: the descriptor of a source or chain that is not
    attached yet. *)
Definition emptyDescriptor : RNTupleDescriptor :=
  {| fFieldDescriptors := []; fColumnDescriptors := []; fClusterDescriptors := [] |}.

(** Modelled from the spec: field count, column count and cluster count of
    a descriptor.  The first two only bound loops; the third enters 64-bit
    arithmetic. *)
Definition GetNFields (d : RNTupleDescriptor) : nat := length (fFieldDescriptors d).
Definition GetNColumns (d : RNTupleDescriptor) : nat := length (fColumnDescriptors d).
Definition GetNClusters (d : RNTupleDescriptor) : N := N.of_nat (length (fClusterDescriptors d)).

(** Modelled from the spec: read options are opaque to the chain, which only
    hands them on. *)
Record RNTupleReadOptions : Type := {
  fOptionsToken : N;
}.

(** ** Calls on collaborators *)

(** What the chain does to the outside, in the order it does it: warnings
    of the logger, comparisons of descriptors ([EvCompareCounts i] for the
    counts of source [i] against those of source 0, [EvCompareField i j] and
    [EvCompareColumn i j] for one [operator==]), and calls of Clone, Attach,
    PopulatePage and ReleasePage on a source. *)

Inductive Event : Type :=
| EvWarning (msg : string)
| EvCompareCounts (i : nat)
| EvCompareField (i j : nat)
| EvCompareColumn (i j : nat)
| EvSourceClone (addr newAddr : nat)
| EvSourceAttach (addr : nat)
| EvPopulateByEntry (i : nat) (columnHandle : ColumnHandle_t) (localIndex : N)
| EvPopulateByCluster (i : nat) (columnHandle : ColumnHandle_t) (clusterIndex : RClusterIndex)
| EvSourceReleasePage (i : nat) (page : RPage).

(** ** Sources and the chain object *)

(** Modelled from the spec: a source is a read-only provider with an entry
    count, a descriptor and page-level read operations.  [src_addr] is the
    identity of the object; what a read ends in may depend on everything
    that happened before (the log), and "a delegated read either returns a
    page or fails". *)

Record RPageSource : Type := {
  src_addr : nat;
  src_NTupleName : string;
  src_Options : RNTupleReadOptions;
  GetNEntries : N;
  GetDescriptor : RNTupleDescriptor;
  SourcePopulateByEntry : list Event → ColumnHandle_t → N → Result RPage;
  SourcePopulateByCluster : list Event → ColumnHandle_t → RClusterIndex → Result RPage;
}.

(** Modelled from the spec: the members of the chain, declared in its
    header: the base class's name, options and descriptor, the sources it
    owns, the degraded-mode flag, the three tables and the tracker from
    buffer identity to source index. *)
Record RPageSourceChain : Type := {
  fNTupleName : string;
  fOptions : RNTupleReadOptions;
  fDescriptor : RNTupleDescriptor;
  fSources : list RPageSource;
  fUnsafe : bool;
  fNEntryPerSource : list N;
  fNClusterPerSource : list N;
  fNElementsPerColumnPerSource : list (list N);
  fPageMapper : gmap N nat;
}.

(** The object under execution, the calls made so far, and the next free
    object address. *)
Record Machine : Type := {
  this : RPageSourceChain;
  log : list Event;
  next_addr : nat;
}.

(** ** The execution monad: state plus failure *)

Definition Exec (A : Type) : Type := Machine → Machine * Result A.

Definition ret {A} (a : A) : Exec A := λ m, (m, Ok a).

Definition bind {A B} (c : Exec A) (k : A → Exec B) : Exec B :=
  λ m, match c m with
       | (m', Ok a) => k a m'
       | (m', Err e) => (m', Err e)
       end.

Definition throw {A} (e : Failure) : Exec A := λ m, (m, Err e).

#[global] Instance Exec_ret : MRet Exec := @ret.
#[global] Instance Exec_bind : MBind Exec := λ A B k c, bind c k.

Definition get_this : Exec RPageSourceChain := λ m, (m, Ok (this m)).

Definition modify_this (f : RPageSourceChain → RPageSourceChain) : Exec unit :=
  λ m, ({| this := f (this m); log := log m; next_addr := next_addr m |}, Ok tt).

Definition get_log : Exec (list Event) := λ m, (m, Ok (log m)).

Definition emit (e : Event) : Exec unit :=
  λ m, ({| this := this m; log := log m ++ [e]; next_addr := next_addr m |}, Ok tt).

(** [v.at(i)] *)
Definition vec_at {A} (what : string) (v : list A) (i : nat) : Exec A :=
  match v !! i with
  | Some x => mret x
  | None => throw (StdOutOfRange what)
  end.

(** [v.at(i) = x] *)
Definition vec_set {A} (what : string) (v : list A) (i : nat) (x : A) : Exec (list A) :=
  if decide (i < length v) then mret (<[i := x]> v) else throw (StdOutOfRange what).

(** [v.at(i)] for an index held in a 64-bit unsigned: the bounds check
    comes first. *)
Definition vec_atN {A} (what : string) (v : list A) (i : N) : Exec A :=
  if decide (i < N.of_nat (length v))%N then vec_at what v (N.to_nat i)
  else throw (StdOutOfRange what).

(** What a call on a source ends in: the value it returns, or its failure,
    which leaves the calling function at once. *)
Definition from_source {A} (answer : Result A) : Exec A :=
  match answer with
  | Ok a => mret a
  | Err e => throw (SourceFailure e)
  end.

(** Modelled from the spec: [R__ASSERT(cond && msg)], which fails loudly
    when [cond] is false. *)
Definition R__ASSERT (cond : bool) (msg : string) : Exec unit :=
  if cond then mret tt else throw (FatalAssert msg).

(** [for (i = lo; n iterations; ++i) body], where [body] answers whether it
    executed [break]. *)
Fixpoint for_ (n : nat) (i : nat) (body : nat → Exec bool) : Exec unit :=
  match n with
  | 0 => mret tt
  | S n' => brk ← body i; if brk : bool then mret tt else for_ n' (S i) body
  end.

(** Field setters of the chain object. *)
Definition set_fUnsafe (b : bool) (c : RPageSourceChain) : RPageSourceChain :=
  {| fNTupleName := fNTupleName c; fOptions := fOptions c; fDescriptor := fDescriptor c;
     fSources := fSources c; fUnsafe := b;
     fNEntryPerSource := fNEntryPerSource c; fNClusterPerSource := fNClusterPerSource c;
     fNElementsPerColumnPerSource := fNElementsPerColumnPerSource c;
     fPageMapper := fPageMapper c |}.

Definition set_fSources (l : list RPageSource) (c : RPageSourceChain) : RPageSourceChain :=
  {| fNTupleName := fNTupleName c; fOptions := fOptions c; fDescriptor := fDescriptor c;
     fSources := l; fUnsafe := fUnsafe c;
     fNEntryPerSource := fNEntryPerSource c; fNClusterPerSource := fNClusterPerSource c;
     fNElementsPerColumnPerSource := fNElementsPerColumnPerSource c;
     fPageMapper := fPageMapper c |}.

Definition set_fNEntryPerSource (v : list N) (c : RPageSourceChain) : RPageSourceChain :=
  {| fNTupleName := fNTupleName c; fOptions := fOptions c; fDescriptor := fDescriptor c;
     fSources := fSources c; fUnsafe := fUnsafe c;
     fNEntryPerSource := v; fNClusterPerSource := fNClusterPerSource c;
     fNElementsPerColumnPerSource := fNElementsPerColumnPerSource c;
     fPageMapper := fPageMapper c |}.

Definition set_fNClusterPerSource (v : list N) (c : RPageSourceChain) : RPageSourceChain :=
  {| fNTupleName := fNTupleName c; fOptions := fOptions c; fDescriptor := fDescriptor c;
     fSources := fSources c; fUnsafe := fUnsafe c;
     fNEntryPerSource := fNEntryPerSource c; fNClusterPerSource := v;
     fNElementsPerColumnPerSource := fNElementsPerColumnPerSource c;
     fPageMapper := fPageMapper c |}.

Definition set_fNElementsPerColumnPerSource (v : list (list N)) (c : RPageSourceChain)
  : RPageSourceChain :=
  {| fNTupleName := fNTupleName c; fOptions := fOptions c; fDescriptor := fDescriptor c;
     fSources := fSources c; fUnsafe := fUnsafe c;
     fNEntryPerSource := fNEntryPerSource c; fNClusterPerSource := fNClusterPerSource c;
     fNElementsPerColumnPerSource := v;
     fPageMapper := fPageMapper c |}.

Definition set_fPageMapper (v : gmap N nat) (c : RPageSourceChain) : RPageSourceChain :=
  {| fNTupleName := fNTupleName c; fOptions := fOptions c; fDescriptor := fDescriptor c;
     fSources := fSources c; fUnsafe := fUnsafe c;
     fNEntryPerSource := fNEntryPerSource c; fNClusterPerSource := fNClusterPerSource c;
     fNElementsPerColumnPerSource := fNElementsPerColumnPerSource c;
     fPageMapper := v |}.

Definition set_fDescriptor (d : RNTupleDescriptor) (c : RPageSourceChain) : RPageSourceChain :=
  {| fNTupleName := fNTupleName c; fOptions := fOptions c; fDescriptor := d;
     fSources := fSources c; fUnsafe := fUnsafe c;
     fNEntryPerSource := fNEntryPerSource c; fNClusterPerSource := fNClusterPerSource c;
     fNElementsPerColumnPerSource := fNElementsPerColumnPerSource c;
     fPageMapper := fPageMapper c |}.

(** ** Descriptor accessors *)

(** Modelled from the spec: descriptor by id; an id that is not there is
    the [std::out_of_range] of the container's [at]. *)

Definition GetFieldDescriptor (d : RNTupleDescriptor) (j : nat) : Exec RFieldDescriptor :=
  vec_at "GetFieldDescriptor" (fFieldDescriptors d) j.

Definition GetColumnDescriptor (d : RNTupleDescriptor) (j : nat) : Exec RColumnDescriptor :=
  vec_at "GetColumnDescriptor" (fColumnDescriptors d) j.

Definition GetClusterDescriptor (d : RNTupleDescriptor) (clusterId : N) : Exec RClusterDescriptor :=
  vec_atN "GetClusterDescriptor" (fClusterDescriptors d) clusterId.

Definition GetColumnRange (cd : RClusterDescriptor) (columnId : N) : Exec RColumnRange :=
  vec_atN "GetColumnRange" (fColumnRanges cd) columnId.

(** ** CompareFileMetaData (lines 68-104) *)

(** The texts of the three warnings, without the newline at their end. *)
Definition warnCounts : string :=
  "The meta-data (number of fields and columns) of the files do not match. Using this reader may result in undefined behaviour!".
Definition warnFields : string :=
  "The meta-data of the fields of the files do not match. Using this reader may result in undefined behaviour!".
Definition warnColumns : string :=
  "The meta-data of the columns of the files do not match. Using this reader may result in undefined behaviour!".

Definition source_at (i : nat) : Exec RPageSource :=
  c ← get_this; vec_at "fSources.at" (fSources c) i.

Definition compareFields (i : nat) : Exec unit :=
  s0 ← source_at 0;
  for_ (GetNFields (GetDescriptor s0)) 0 (λ j,
    s0 ← source_at 0;
    si ← source_at i;
    f0 ← GetFieldDescriptor (GetDescriptor s0) j;
    fi ← GetFieldDescriptor (GetDescriptor si) j;
    emit (EvCompareField i j);;
    if bool_decide (f0 = fi) then mret false
    else emit (EvWarning warnFields);; modify_this (set_fUnsafe true);; mret true).

Definition compareColumns (i : nat) : Exec unit :=
  s0 ← source_at 0;
  for_ (GetNColumns (GetDescriptor s0)) 0 (λ j,
    s0 ← source_at 0;
    si ← source_at i;
    c0 ← GetColumnDescriptor (GetDescriptor s0) j;
    ci ← GetColumnDescriptor (GetDescriptor si) j;
    emit (EvCompareColumn i j);;
    if bool_decide (c0 = ci) then mret false
    else emit (EvWarning warnColumns);; modify_this (set_fUnsafe true);; mret true).

Definition compareSource (i : nat) : Exec bool :=
  s0 ← source_at 0;
  si ← source_at i;
  emit (EvCompareCounts i);;
  if bool_decide (GetNFields (GetDescriptor s0) ≠ GetNFields (GetDescriptor si)
                  ∨ GetNColumns (GetDescriptor s0) ≠ GetNColumns (GetDescriptor si))
  then emit (EvWarning warnCounts);; modify_this (set_fUnsafe true);; mret true
  else
    compareFields i;;
    c ← get_this;
    if fUnsafe c then mret true
    else
      compareColumns i;;
      c ← get_this;
      mret (fUnsafe c).

Definition CompareFileMetaData : Exec unit :=
  c ← get_this;
  for_ (length (fSources c) - 1) 1 compareSource.

(** ** InitializeVariables (lines 106-135) *)

(** [table.at(i).at(j) = x] *)
Definition vec_set2 {A} (what : string) (table : list (list A)) (i j : nat) (x : A)
  : Exec (list (list A)) :=
  row ← vec_at what table i;
  row' ← vec_set what row j x;
  vec_set what table i row'.

(** Body of the loop of lines 113-116. *)
Definition fillCounts (i : nat) : Exec bool :=
  si ← source_at i;
  c ← get_this;
  e ← vec_at "fNEntryPerSource.at" (fNEntryPerSource c) i;
  vE ← vec_set "fNEntryPerSource.at" (fNEntryPerSource c) (i + 1) (add64 e (GetNEntries si));
  modify_this (set_fNEntryPerSource vE);;
  c ← get_this;
  k ← vec_at "fNClusterPerSource.at" (fNClusterPerSource c) i;
  vC ← vec_set "fNClusterPerSource.at" (fNClusterPerSource c) (i + 1)
         (add64 k (GetNClusters (GetDescriptor si)));
  modify_this (set_fNClusterPerSource vC);;
  mret false.

(** Body of the inner loop of lines 128-133. *)
Definition fillElement (i j : nat) : Exec bool :=
  si ← source_at i;
  let lastClusterId := sub64 (GetNClusters (GetDescriptor si)) 1 in
  cd ← GetClusterDescriptor (GetDescriptor si) lastClusterId;
  columnDescript ← GetColumnRange cd (N.of_nat j);
  c ← get_this;
  rowi ← vec_at "fNElementsPerColumnPerSource.at" (fNElementsPerColumnPerSource c) i;
  prev ← vec_at "fNElementsPerColumnPerSource.at" rowi j;
  tab ← vec_set2 "fNElementsPerColumnPerSource.at" (fNElementsPerColumnPerSource c) (i + 1) j
          (add64 (add64 (fFirstElementIndex columnDescript) (fNElements columnDescript)) prev);
  modify_this (set_fNElementsPerColumnPerSource tab);;
  mret false.

Definition fillElements (nColumns : nat) (i : nat) : Exec bool :=
  for_ nColumns 0 (fillElement i);; mret false.

(** Body of the loop of lines 124-126. *)
Definition zeroFirstRow (i : nat) : Exec bool :=
  c ← get_this;
  tab ← vec_set2 "fNElementsPerColumnPerSource.at" (fNElementsPerColumnPerSource c) 0 i 0%N;
  modify_this (set_fNElementsPerColumnPerSource tab);;
  mret false.

Definition InitializeVariables : Exec unit :=
  c ← get_this;
  let n := length (fSources c) in
  modify_this (λ c, set_fNEntryPerSource (resize (n + 1) 0%N (fNEntryPerSource c)) c);;
  modify_this (λ c, set_fNClusterPerSource (resize (n + 1) 0%N (fNClusterPerSource c)) c);;
  c ← get_this;
  vE ← vec_set "fNEntryPerSource.at" (fNEntryPerSource c) 0 0%N;
  modify_this (set_fNEntryPerSource vE);;
  c ← get_this;
  vC ← vec_set "fNClusterPerSource.at" (fNClusterPerSource c) 0 0%N;
  modify_this (set_fNClusterPerSource vC);;
  for_ n 0 fillCounts;;
  s0 ← source_at 0;
  let nColumns := GetNColumns (GetDescriptor s0) in
  modify_this (λ c, set_fNElementsPerColumnPerSource
                      (resize (n + 1) [] (fNElementsPerColumnPerSource c)) c);;
  modify_this (λ c, set_fNElementsPerColumnPerSource
                      (resize nColumns 0%N <$> fNElementsPerColumnPerSource c) c);;
  for_ nColumns 0 zeroFirstRow;;
  for_ n 0 (fillElements nColumns).

(** ** Constructors (lines 29-66) and Clone (lines 147-154) *)

(** The object as the member initialisers leave it.  Modelled from the
    spec: the degraded-mode flag is unset until the comparison sets it; the
    descriptor is the empty one until the chain is attached. *)
Definition initChain (ntupleName : string) (options : RNTupleReadOptions)
    (sources : list RPageSource) : RPageSourceChain :=
  {| fNTupleName := ntupleName; fOptions := options; fDescriptor := emptyDescriptor;
     fSources := sources; fUnsafe := false;
     fNEntryPerSource := []; fNClusterPerSource := [];
     fNElementsPerColumnPerSource := [];
     fPageMapper := ∅ |}.

(** A new object of a source's class at a fresh address. *)
Definition allocSource (origin : option nat) (s : RPageSource) : Exec RPageSource :=
  λ m,
    let s' := {| src_addr := next_addr m;
                 src_NTupleName := src_NTupleName s; src_Options := src_Options s;
                 GetNEntries := GetNEntries s; GetDescriptor := GetDescriptor s;
                 SourcePopulateByEntry := SourcePopulateByEntry s;
                 SourcePopulateByCluster := SourcePopulateByCluster s |} in
    ({| this := this m;
        log := match origin with
               | Some a => log m ++ [EvSourceClone a (next_addr m)]
               | None => log m
               end;
        next_addr := S (next_addr m) |}, Ok s').

(** Modelled from the spec: [clone() -> Source], an independent duplicate
    sharing the same backing storage. *)
Definition SourceClone (s : RPageSource) : Exec RPageSource :=
  allocSource (Some (src_addr s)) s.

(** Modelled from the spec: [attach()] loads the header and footer; the
    source's counts and descriptor are those of its storage. *)
Definition SourceAttach (s : RPageSource) : Exec unit :=
  emit (EvSourceAttach (src_addr s)).

Fixpoint for_each {A} (l : list A) (body : A → Exec unit) : Exec unit :=
  match l with
  | [] => mret tt
  | x :: l' => body x;; for_each l' body
  end.

(** [fSources.emplace_back(p); fSources.back()->Attach();] *)
Definition registerSource (s : RPageSource) : Exec unit :=
  modify_this (λ c, set_fSources (fSources c ++ [s]) c);;
  c ← get_this;
  back ← vec_at "fSources.back" (fSources c) (length (fSources c) - 1);
  SourceAttach back.

Section Collaborators.

(** [RPageSource::Create(ntupleName, location, options)], the factory of
    single-source implementations, and [RNTupleDescriptor::FindClusterId]
    are defined outside this translation unit. *)
Variable Create : string → string → RNTupleReadOptions → RPageSource.
Variable FindClusterId : RNTupleDescriptor → N → N → N.

(** Lines 29-43. *)
Definition RPageSourceChain_fromLocations (ntupleName : string) (locationVec : list string)
    (options : RNTupleReadOptions) : Exec unit :=
  modify_this (λ _, initChain ntupleName options []);;
  for_each locationVec (λ location,
    s ← allocSource None (Create ntupleName location options);
    registerSource s);;
  CompareFileMetaData;;
  InitializeVariables.

(** Lines 45-57: the sources are handed in by address and cloned. *)
Definition RPageSourceChain_fromSources (ntupleName : string) (sources : list RPageSource)
    (options : RNTupleReadOptions) : Exec unit :=
  modify_this (λ _, initChain ntupleName options []);;
  for_each sources (λ s,
    s' ← SourceClone s;
    registerSource s');;
  CompareFileMetaData;;
  InitializeVariables.

(** Lines 59-66: the chain takes the sources over. *)
Definition RPageSourceChain_fromOwned (ntupleName : string) (sources : list RPageSource)
    (options : RNTupleReadOptions) : Exec unit :=
  modify_this (λ _, initChain ntupleName options sources);;
  CompareFileMetaData;;
  InitializeVariables.

(** [std::make_unique<RPageSourceChain>(args)]: run a constructor on a new
    object and hand the object back; the caller's [this] is untouched. *)
Definition make_unique (ctor : Exec unit) : Exec RPageSourceChain :=
  λ m,
    let fresh := {| this := initChain "" {| fOptionsToken := 0 |} [];
                    log := log m; next_addr := next_addr m |} in
    let '(m', r) := ctor fresh in
    ({| this := this m; log := log m'; next_addr := next_addr m' |},
     match r with Ok _ => Ok (this m') | Err e => Err e end).

Definition Clone : Exec RPageSourceChain :=
  c ← get_this;
  let sourceVec := fSources c in
  make_unique (RPageSourceChain_fromSources (fNTupleName c) sourceVec (fOptions c)).

(** [RPageSource::Attach] stores the descriptor [DoAttach] returns; the
    merge itself is done by the descriptor builder, outside this file. *)
Definition installDescriptor (d : RNTupleDescriptor) : Exec unit :=
  modify_this (set_fDescriptor d).

(** ** PopulatePage (lines 156-201) and ReleasePage (lines 203-217) *)

(** The scans of lines 159-163 and 183-187: [n] iterations are left. *)
Fixpoint findSource (what : string) (table : list N) (x : N) (n : nat) (sourceIndex : nat)
  : Exec nat :=
  match n with
  | 0 => mret sourceIndex
  | S n' =>
      bound ← vec_at what table (sourceIndex + 1);
      if (x <? bound)%N then mret sourceIndex
      else findSource what table x n' (S sourceIndex)
  end.

(** [std::unordered_map::emplace]: an existing key keeps its value. *)
Definition emplace (k : N) (v : nat) (m : gmap N nat) : gmap N nat :=
  match m !! k with
  | Some _ => m
  | None => <[k := v]> m
  end.

(** Lines 169-174 and 195-199, shared by the two overloads. *)
Definition rewindow (page : RPage) (sourceIndex : nat) (columnHandle : ColumnHandle_t)
    (clusterId : N) : Exec RPage :=
  c ← get_this;
  cd ← GetClusterDescriptor (fDescriptor c) clusterId;
  range ← GetColumnRange cd (fId columnHandle);
  let selfOffset := fFirstElementIndex range in
  let clusterInfo := {| GetId := clusterId; GetSelfOffset := selfOffset |} in
  row ← vec_at "fNElementsPerColumnPerSource.at" (fNElementsPerColumnPerSource c) sourceIndex;
  elementBase ← vec_atN "fNElementsPerColumnPerSource.at" row (fId columnHandle);
  mret (SetWindow page (add64 (GetGlobalRangeFirst page) elementBase) clusterInfo).

Definition msgEntry : string := "globalIndex is bigger than total number of entries.".
Definition msgCluster : string := "clusterIndex is bigger than total number of entries.".
Definition msgRelease : string := "Page could not be assigned to source and released.".

Definition PopulatePage (columnHandle : ColumnHandle_t) (globalIndex : N) : Exec RPage :=
  c ← get_this;
  sourceIndex ← findSource "fNEntryPerSource.at" (fNEntryPerSource c) globalIndex
                   (length (fSources c)) 0;
  R__ASSERT (bool_decide (sourceIndex ≠ length (fSources c))) msgEntry;;
  src ← source_at sourceIndex;
  base ← vec_at "fNEntryPerSource.at" (fNEntryPerSource c) sourceIndex;
  let localIndex := sub64 globalIndex base in
  before ← get_log;
  emit (EvPopulateByEntry sourceIndex columnHandle localIndex);;
  page ← from_source (SourcePopulateByEntry src before columnHandle localIndex);
  modify_this (λ c, set_fPageMapper (emplace (GetBuffer page) sourceIndex (fPageMapper c)) c);;
  c ← get_this;
  let clusterId := FindClusterId (fDescriptor c) (fId columnHandle) globalIndex in
  rewindow page sourceIndex columnHandle clusterId.

Definition PopulatePageCluster (columnHandle : ColumnHandle_t) (clusterIndex : RClusterIndex)
  : Exec RPage :=
  let clusterId := GetClusterId clusterIndex in
  c ← get_this;
  sourceIndex ← findSource "fNClusterPerSource.at" (fNClusterPerSource c) clusterId
                   (length (fSources c)) 0;
  R__ASSERT (bool_decide (sourceIndex ≠ length (fSources c))) msgCluster;;
  base ← vec_at "fNClusterPerSource.at" (fNClusterPerSource c) sourceIndex;
  let newClusterIndex := {| GetClusterId := sub64 (GetClusterId clusterIndex) base;
                            GetIndex := GetIndex clusterIndex |} in
  src ← source_at sourceIndex;
  before ← get_log;
  emit (EvPopulateByCluster sourceIndex columnHandle newClusterIndex);;
  page ← from_source (SourcePopulateByCluster src before columnHandle newClusterIndex);
  modify_this (λ c, set_fPageMapper (emplace (GetBuffer page) sourceIndex (fPageMapper c)) c);;
  rewindow page sourceIndex columnHandle clusterId.

(** The two overloads as one entry point. *)
Inductive PageRequest : Type :=
| ByEntry (globalIndex : N)
| ByCluster (clusterIndex : RClusterIndex).

Definition Dispatch (columnHandle : ColumnHandle_t) (req : PageRequest) : Exec RPage :=
  match req with
  | ByEntry globalIndex => PopulatePage columnHandle globalIndex
  | ByCluster clusterIndex => PopulatePageCluster columnHandle clusterIndex
  end.

(** The loop of lines 207-215 visits the entries of the map until one has
    the page's buffer as key. *)
Definition ReleasePage (page : RPage) : Exec unit :=
  if IsNull page then mret tt
  else
    c ← get_this;
    match list_find (λ kv : N * nat, kv.1 = GetBuffer page) (map_to_list (fPageMapper c)) with
    | Some (_, (key, sourceIndex)) =>
        src ← source_at sourceIndex;
        emit (EvSourceReleasePage sourceIndex page);;
        modify_this (λ c, set_fPageMapper (delete key (fPageMapper c)) c)
    | None => R__ASSERT false msgRelease
    end.

End Collaborators.

(** ** DoAttach (lines 137-145) and GetHeaderAndFooter (lines 219-225) *)

Section Attaching.

(** [RNTupleDescriptorBuilder] is declared outside this translation unit:
    the chain creates one, hands it to [GetHeaderAndFooter] of its first
    source, to [AddClustersFromAdditionalFile] with the descriptor of each
    later source, and takes the result with [MoveDescriptor].  A builder is
    passed and handed back by value where the code updates it in place. *)
Variable RNTupleDescriptorBuilder : Type.
Variable newBuilder : RNTupleDescriptorBuilder.
Variable SourceGetHeaderAndFooter :
  RPageSource → RNTupleDescriptorBuilder → RNTupleDescriptorBuilder.
Variable AddClustersFromAdditionalFile :
  RNTupleDescriptor → RNTupleDescriptorBuilder → RNTupleDescriptorBuilder.
Variable MoveDescriptor : RNTupleDescriptorBuilder → RNTupleDescriptor.

(** The loop of lines 141-143 and 222-224: [n] iterations are left. *)
Fixpoint addClusters (n : nat) (i : nat) (descBuilder : RNTupleDescriptorBuilder)
  : Exec RNTupleDescriptorBuilder :=
  match n with
  | 0 => mret descBuilder
  | S n' =>
      s ← source_at i;
      addClusters n' (S i) (AddClustersFromAdditionalFile (GetDescriptor s) descBuilder)
  end.

Definition DoAttach : Exec RNTupleDescriptor :=
  let descBuilder := newBuilder in
  s0 ← source_at 0;
  let descBuilder := SourceGetHeaderAndFooter s0 descBuilder in
  c ← get_this;
  descBuilder ← addClusters (length (fSources c) - 1) 1 descBuilder;
  mret (MoveDescriptor descBuilder).

Definition GetHeaderAndFooter (descBuilder : RNTupleDescriptorBuilder)
  : Exec RNTupleDescriptorBuilder :=
  s0 ← source_at 0;
  let descBuilder := SourceGetHeaderAndFooter s0 descBuilder in
  c ← get_this;
  addClusters (length (fSources c) - 1) 1 descBuilder.

(** The builder after the clusters of [rest] were added, one source after
    the other. *)
Definition clusters_added (rest : list RPageSource) (descBuilder : RNTupleDescriptorBuilder)
  : RNTupleDescriptorBuilder :=
  foldl (λ b s, AddClustersFromAdditionalFile (GetDescriptor s) b) descBuilder rest.

(** The builder of a chain of [s0] followed by [rest]. *)
Definition merged (s0 : RPageSource) (rest : list RPageSource)
    (descBuilder : RNTupleDescriptorBuilder) : RNTupleDescriptorBuilder :=
  clusters_added rest (SourceGetHeaderAndFooter s0 descBuilder).

(** Modelled from the spec: [attach() -> mergedDescriptor];
    [RPageSource::Attach] of the base class stores the descriptor
    [DoAttach] returns. *)
Definition Attach : Exec unit :=
  d ← DoAttach;
  installDescriptor d.

End Attaching.

(** * What the properties are stated with *)

(** ** The translation tables *)

(** Sum of natural numbers, without bound. *)
Definition sumN (l : list N) : N := foldr N.add 0%N l.

(** Sum of the entry counts of the sources [0 .. i-1]. *)
Definition entryBase (srcs : list RPageSource) (i : nat) : N :=
  sumN (GetNEntries <$> take i srcs).

(** Sum of the cluster counts of the sources [0 .. i-1]. *)
Definition clusterBase (srcs : list RPageSource) (i : nat) : N :=
  sumN ((λ s, GetNClusters (GetDescriptor s)) <$> take i srcs).

(** Entry [j] of row [i] of the element table. *)
Definition cell_at (T : list (list N)) (i j : nat) : option N :=
  T !! i ≫= λ row, row !! j.

(** The range the code reads for column [j] of a source: the column range of
    the cluster descriptor with id [GetNClusters() - 1]. *)
Definition lastColumnRange (s : RPageSource) (j : nat) : option RColumnRange :=
  let d := GetDescriptor s in
  let lastClusterId := sub64 (GetNClusters d) 1 in
  if decide (lastClusterId < GetNClusters d)%N then
    fClusterDescriptors d !! N.to_nat lastClusterId ≫= λ cd, fColumnRanges cd !! j
  else None.

(** The value line 132 stores. *)
Definition element_of (r : RColumnRange) (prev : N) : N :=
  add64 (add64 (fFirstElementIndex r) (fNElements r)) prev.

(** Entry [j] of row [i+1] of the element table was computed from entry [j]
    of row [i] and the last range of column [j] in source [i]. *)
Definition cell_ok (srcs : list RPageSource) (T : list (list N)) (i j : nat) : Prop :=
  ∃ s r prev, srcs !! i = Some s ∧ lastColumnRange s j = Some r ∧
              cell_at T i j = Some prev ∧ cell_at T (S i) j = Some (element_of r prev).

(** What the chain's tables are once InitializeVariables has run: entry [k]
    of the entry and cluster tables is the sum over the sources before [k],
    as a 64-bit unsigned; the element table has a row of zeros followed by
    one row per source. *)
Definition tables_built (srcs : list RPageSource) (c : RPageSourceChain) : Prop :=
  let n := length srcs in
  let nC := from_option (λ s0, GetNColumns (GetDescriptor s0)) 0 (srcs !! 0) in
  length (fNEntryPerSource c) = n + 1 ∧
  length (fNClusterPerSource c) = n + 1 ∧
  (∀ k, k ≤ n →
     fNEntryPerSource c !! k = Some (entryBase srcs k mod two64)%N ∧
     fNClusterPerSource c !! k = Some (clusterBase srcs k mod two64)%N) ∧
  length (fNElementsPerColumnPerSource c) = n + 1 ∧
  Forall (λ r, length r = nC) (fNElementsPerColumnPerSource c) ∧
  (∀ j, j < nC → cell_at (fNElementsPerColumnPerSource c) 0 j = Some 0%N) ∧
  (∀ i j, i < n → j < nC → cell_ok srcs (fNElementsPerColumnPerSource c) i j).

(** ** Loop invariants of InitializeVariables *)

(** Everything of a machine but the three tables. *)
Definition outside_tables (m : Machine) :=
  (fNTupleName (this m), fOptions (this m), fDescriptor (this m), fSources (this m),
   fUnsafe (this m), fPageMapper (this m), log m, next_addr m).

(** Before iteration [i] of the loop of lines 113-116. *)
Definition counts_inv (m0 : Machine) (i : nat) (m : Machine) : Prop :=
  let srcs := fSources (this m0) in
  outside_tables m = outside_tables m0 ∧
  fNElementsPerColumnPerSource (this m) = fNElementsPerColumnPerSource (this m0) ∧
  length (fNEntryPerSource (this m)) = length srcs + 1 ∧
  length (fNClusterPerSource (this m)) = length srcs + 1 ∧
  ∀ k, k ≤ i →
    fNEntryPerSource (this m) !! k = Some (entryBase srcs k mod two64)%N ∧
    fNClusterPerSource (this m) !! k = Some (clusterBase srcs k mod two64)%N.

(** Before iteration [j] of the loop of lines 124-126. *)
Definition zero_inv (m0 : Machine) (nC : nat) (j : nat) (m : Machine) : Prop :=
  let T := fNElementsPerColumnPerSource (this m) in
  outside_tables m = outside_tables m0 ∧
  fNEntryPerSource (this m) = fNEntryPerSource (this m0) ∧
  fNClusterPerSource (this m) = fNClusterPerSource (this m0) ∧
  length T = length (fSources (this m0)) + 1 ∧
  Forall (λ r, length r = nC) T ∧
  ∀ j', j' < j → cell_at T 0 j' = Some 0%N.

(** Before iteration [(i, j)] of the loops of lines 127-134. *)
Definition elems_inv (m0 : Machine) (nC : nat) (i j : nat) (m : Machine) : Prop :=
  let srcs := fSources (this m0) in
  let T := fNElementsPerColumnPerSource (this m) in
  outside_tables m = outside_tables m0 ∧
  fNEntryPerSource (this m) = fNEntryPerSource (this m0) ∧
  fNClusterPerSource (this m) = fNClusterPerSource (this m0) ∧
  length T = length srcs + 1 ∧
  Forall (λ r, length r = nC) T ∧
  (∀ j', j' < nC → cell_at T 0 j' = Some 0%N) ∧
  ∀ i' j', (i' < i ∧ j' < nC) ∨ (i' = i ∧ j' < j) → cell_ok srcs T i' j'.

(** ** Kinds of failure *)

Definition is_out_of_range (e : Failure) : Prop := ∃ what, e = StdOutOfRange what.

(** Computations whose only failure is [std::out_of_range]. *)
Definition throws_only_out_of_range {A} (c : Exec A) : Prop :=
  ∀ m m' e, c m = (m', Err e) → is_out_of_range e.

(** ** The comparison as the specification words it *)

(** Where a source first disagrees with source 0. *)
Inductive Mismatch : Type :=
| MismatchCounts
| MismatchField (j : nat)
| MismatchColumn (j : nat).

(** First position at which two lists differ. *)
Fixpoint first_diff {A} `{EqDecision A} (l1 l2 : list A) : option nat :=
  match l1, l2 with
  | x :: l1', y :: l2' => if decide (x = y) then S <$> first_diff l1' l2' else Some 0
  | _, _ => None
  end.

(** Counts first, then field descriptors, then column descriptors. *)
Definition first_mismatch (d0 di : RNTupleDescriptor) : option Mismatch :=
  if decide (GetNFields d0 ≠ GetNFields di ∨ GetNColumns d0 ≠ GetNColumns di)
  then Some MismatchCounts
  else match first_diff (fFieldDescriptors d0) (fFieldDescriptors di) with
       | Some j => Some (MismatchField j)
       | None =>
           match first_diff (fColumnDescriptors d0) (fColumnDescriptors di) with
           | Some j => Some (MismatchColumn j)
           | None => None
           end
       end.

(** Two descriptors with the same field and column descriptors. *)
Definition same_schema (d0 d : RNTupleDescriptor) : Prop :=
  fFieldDescriptors d0 = fFieldDescriptors d ∧ fColumnDescriptors d0 = fColumnDescriptors d.

(** [l1] and [l2] agree before position [j] and differ at [j]. *)
Definition differ_first_at {A} (l1 l2 : list A) (j : nat) : Prop :=
  (∃ x y, l1 !! j = Some x ∧ l2 !! j = Some y ∧ x ≠ y) ∧ take j l1 = take j l2.

(** The first disagreement between a source and source 0, in the order
    counts, field descriptors, column descriptors. *)
Definition mismatch_at (d0 d : RNTupleDescriptor) (mm : Mismatch) : Prop :=
  match mm with
  | MismatchCounts =>
      GetNFields d0 ≠ GetNFields d ∨ GetNColumns d0 ≠ GetNColumns d
  | MismatchField j =>
      GetNFields d0 = GetNFields d ∧ GetNColumns d0 = GetNColumns d ∧
      differ_first_at (fFieldDescriptors d0) (fFieldDescriptors d) j
  | MismatchColumn j =>
      GetNFields d0 = GetNFields d ∧ GetNColumns d0 = GetNColumns d ∧
      fFieldDescriptors d0 = fFieldDescriptors d ∧
      differ_first_at (fColumnDescriptors d0) (fColumnDescriptors d) j
  end.

(** Comparisons of the fields, respectively columns, [from .. from+n-1] of
    source [i]. *)
Definition field_events (i : nat) (from n : nat) : list Event := EvCompareField i <$> seq from n.
Definition column_events (i : nat) (from n : nat) : list Event := EvCompareColumn i <$> seq from n.

(** The calls made for source [i] when it agrees with source 0. *)
Definition all_comparisons (d0 : RNTupleDescriptor) (i : nat) : list Event :=
  EvCompareCounts i :: field_events i 0 (GetNFields d0) ++ column_events i 0 (GetNColumns d0).

(** The calls made for source [i] when it first disagrees at [mm]. *)
Definition comparisons_until (d0 : RNTupleDescriptor) (i : nat) (mm : Mismatch) : list Event :=
  match mm with
  | MismatchCounts => [EvCompareCounts i; EvWarning warnCounts]
  | MismatchField j =>
      EvCompareCounts i :: field_events i 0 (S j) ++ [EvWarning warnFields]
  | MismatchColumn j =>
      EvCompareCounts i :: field_events i 0 (GetNFields d0) ++ column_events i 0 (S j)
        ++ [EvWarning warnColumns]
  end.

(** The calls made for sources that all agree with source 0, the first of
    them being source [i]. *)
Fixpoint agreeing_comparisons (d0 : RNTupleDescriptor) (i : nat) (pre : list RPageSource)
  : list Event :=
  match pre with
  | [] => []
  | _ :: pre' => all_comparisons d0 i ++ agreeing_comparisons d0 (S i) pre'
  end.

(** The whole check, following the specification: sources are compared
    with source 0 in order, and the first mismatch ends the check.  The
    result is whether the flag is set, and the calls made. *)
Fixpoint chain_comparisons (d0 : RNTupleDescriptor) (i : nat) (rest : list RPageSource)
  : bool * list Event :=
  match rest with
  | [] => (false, [])
  | s :: rest' =>
      match first_mismatch d0 (GetDescriptor s) with
      | Some mm => (true, comparisons_until d0 i mm)
      | None =>
          let '(u, evs) := chain_comparisons d0 (S i) rest' in
          (u, all_comparisons d0 i ++ evs)
      end
  end.

(** ** Machines after a step *)

(** The machine with more calls logged. *)
Definition log_more (evs : list Event) (m : Machine) : Machine :=
  {| this := this m; log := log m ++ evs; next_addr := next_addr m |}.

(** The machine with the degraded-mode flag set. *)
Definition flag_unsafe (m : Machine) : Machine :=
  {| this := set_fUnsafe true (this m); log := log m; next_addr := next_addr m |}.

(** The machine after lines 166-167 or 192-193: source [i] was called and
    the buffer of its page is tracked. *)
Definition after_populate (ev : Event) (page : RPage) (i : nat) (m : Machine) : Machine :=
  {| this := set_fPageMapper (emplace (GetBuffer page) i (fPageMapper (this m))) (this m);
     log := log m ++ [ev];
     next_addr := next_addr m |}.

(** The machine after lines 209-212: source [i] got the page back and the
    buffer is no longer tracked. *)
Definition after_release (i : nat) (page : RPage) (m : Machine) : Machine :=
  {| this := set_fPageMapper (delete (GetBuffer page) (fPageMapper (this m))) (this m);
     log := log m ++ [EvSourceReleasePage i page];
     next_addr := next_addr m |}.

(** The object and the machine once a constructor has failed on the empty
    list. *)
Definition after_empty_construction (ntupleName : string) (options : RNTupleReadOptions)
    (m : Machine) : Machine :=
  {| this := set_fNClusterPerSource [0%N]
               (set_fNEntryPerSource [0%N] (initChain ntupleName options []));
     log := log m;
     next_addr := next_addr m |}.

(** ** Dispatch and release *)

(** A request past the last entry, or past the last cluster, of the chain. *)
Definition beyond_total (srcs : list RPageSource) (req : PageRequest) : Prop :=
  match req with
  | ByEntry globalIndex => (entryBase srcs (length srcs) ≤ globalIndex)%N
  | ByCluster clusterIndex => (clusterBase srcs (length srcs) ≤ GetClusterId clusterIndex)%N
  end.

(** The message of the range check of the overload that serves [req]. *)
Definition range_message (req : PageRequest) : string :=
  match req with
  | ByEntry _ => msgEntry
  | ByCluster _ => msgCluster
  end.

(** The call [ev] on source [i] that serves [req], and the page the source
    answers with. *)
Definition delegated (req : PageRequest) (columnHandle : ColumnHandle_t) (i : nat)
    (s : RPageSource) (before : list Event) (ev : Event) (sourcePage : RPage) : Prop :=
  match req with
  | ByEntry _ =>
      ∃ localIndex, ev = EvPopulateByEntry i columnHandle localIndex ∧
                    SourcePopulateByEntry s before columnHandle localIndex = Ok sourcePage
  | ByCluster _ =>
      ∃ newClusterIndex, ev = EvPopulateByCluster i columnHandle newClusterIndex ∧
                         SourcePopulateByCluster s before columnHandle newClusterIndex
                           = Ok sourcePage
  end.

(** Every tracked page names a source of the chain. *)
Definition tracker_valid (m : Machine) : Prop :=
  map_Forall (λ _ i, i < length (fSources (this m))) (fPageMapper (this m)).

(** ** What dispatch and release leave as it is *)

(** What construction fixes of a machine: all but the tracker and the log. *)
Definition construction (m : Machine) :=
  (fNTupleName (this m), fOptions (this m), fDescriptor (this m), fSources (this m),
   fUnsafe (this m), fNEntryPerSource (this m), fNClusterPerSource (this m),
   fNElementsPerColumnPerSource (this m), next_addr m).

(** Computations that leave it as it is, whatever their outcome. *)
Definition keeps_construction {A} (c : Exec A) : Prop :=
  ∀ m m' r, c m = (m', r) → construction m' = construction m.

(** ** Clones *)

(** The object [allocSource] makes of [s] at address [a]. *)
Definition at_addr (a : nat) (s : RPageSource) : RPageSource :=
  {| src_addr := a;
     src_NTupleName := src_NTupleName s; src_Options := src_Options s;
     GetNEntries := GetNEntries s; GetDescriptor := GetDescriptor s;
     SourcePopulateByEntry := SourcePopulateByEntry s;
     SourcePopulateByCluster := SourcePopulateByCluster s |}.

(** The clones of [sources], made one after the other from address [a] on,
    and the calls that make and attach them. *)
Fixpoint clones_from (a : nat) (sources : list RPageSource) : list RPageSource :=
  match sources with
  | [] => []
  | s :: rest => at_addr a s :: clones_from (S a) rest
  end.

Fixpoint clone_events (a : nat) (sources : list RPageSource) : list Event :=
  match sources with
  | [] => []
  | s :: rest => EvSourceClone (src_addr s) a :: EvSourceAttach a :: clone_events (S a) rest
  end.

(** ** More of InitializeVariables *)

(** The three tables of a machine. *)
Definition tables_of (m : Machine) : list N * list N * list (list N) :=
  (fNEntryPerSource (this m), fNClusterPerSource (this m),
   fNElementsPerColumnPerSource (this m)).

(** Computations that, whatever their outcome, change nothing but the
    tables. *)
Definition touches_only_tables {A} (c : Exec A) : Prop :=
  ∀ m m' r, c m = (m', r) → outside_tables m' = outside_tables m.

(** Every source has, for every column of source 0, a range in its cluster
    of id [GetNClusters() - 1]. *)
Definition ranges_present (srcs : list RPageSource) : Prop :=
  ∃ s0, srcs !! 0 = Some s0 ∧
        ∀ s j, s ∈ srcs → j < GetNColumns (GetDescriptor s0) → is_Some (lastColumnRange s j).

(** ** More of CompareFileMetaData *)

(** The warnings among logged calls. *)
Definition is_warning (ev : Event) : bool :=
  match ev with
  | EvWarning _ => true
  | _ => false
  end.

Definition warnings (evs : list Event) : list Event := filter (λ ev, is_warning ev = true) evs.

(** ** More of the constructors *)

(** The calls that attach the objects at the addresses [a .. a+n-1]. *)
Fixpoint attach_events (a n : nat) : list Event :=
  match n with
  | 0 => []
  | S n' => EvSourceAttach a :: attach_events (S a) n'
  end.

(** Some source after the first has not the schema of the first. *)
Definition schemas_differ (srcs : list RPageSource) : Prop :=
  ∃ s0 rest s, srcs = s0 :: rest ∧ s ∈ rest ∧
               ¬ same_schema (GetDescriptor s0) (GetDescriptor s).

(** Everything of a machine but the tables, the flag and the log. *)
Definition before_checks (m : Machine) :=
  (fNTupleName (this m), fOptions (this m), fDescriptor (this m), fSources (this m),
   fPageMapper (this m), next_addr m).

(** The two calls every constructor ends with (lines 41-42, 55-56, 64-65). *)
Definition checks : Exec unit := CompareFileMetaData;; InitializeVariables.

(** ** More of dispatch and release *)

(** What a request is looked up by, and in which table. *)
Definition request_key (req : PageRequest) : N :=
  match req with
  | ByEntry globalIndex => globalIndex
  | ByCluster clusterIndex => GetClusterId clusterIndex
  end.

Definition request_table (req : PageRequest) (c : RPageSourceChain) : list N :=
  match req with
  | ByEntry _ => fNEntryPerSource c
  | ByCluster _ => fNClusterPerSource c
  end.

(** The entries, respectively clusters, before source [i], and those of a
    source. *)
Definition request_base (srcs : list RPageSource) (req : PageRequest) (i : nat) : N :=
  match req with
  | ByEntry _ => entryBase srcs i
  | ByCluster _ => clusterBase srcs i
  end.

Definition source_size (req : PageRequest) (s : RPageSource) : N :=
  match req with
  | ByEntry _ => GetNEntries s
  | ByCluster _ => GetNClusters (GetDescriptor s)
  end.

(** The call on source [i] with the local index [localIndex], and what
    the source answers with. *)
Definition call_on (req : PageRequest) (columnHandle : ColumnHandle_t) (i : nat)
    (s : RPageSource) (before : list Event) (localIndex : N) : Event * Result RPage :=
  match req with
  | ByEntry _ =>
      (EvPopulateByEntry i columnHandle localIndex,
       SourcePopulateByEntry s before columnHandle localIndex)
  | ByCluster clusterIndex =>
      let newClusterIndex := {| GetClusterId := localIndex; GetIndex := GetIndex clusterIndex |} in
      (EvPopulateByCluster i columnHandle newClusterIndex,
       SourcePopulateByCluster s before columnHandle newClusterIndex)
  end.

(** The machine after the call of [call_on]: the call is logged, and the
    buffer of the page is tracked when the source answered with a page. *)
Definition after_call (req : PageRequest) (columnHandle : ColumnHandle_t) (i : nat)
    (s : RPageSource) (localIndex : N) (m : Machine) : Machine :=
  match call_on req columnHandle i s (log m) localIndex with
  | (ev, Ok page) => after_populate ev page i m
  | (ev, Err _) => log_more [ev] m
  end.

(** The scan of lines 159-163, respectively 183-187. *)
Definition scan (req : PageRequest) (m : Machine) : Machine * Result nat :=
  findSource
    match req with ByEntry _ => "fNEntryPerSource.at" | ByCluster _ => "fNClusterPerSource.at" end
    (request_table req (this m)) (request_key req) (length (fSources (this m))) 0 m.

(** The totals of the chain fit 64 bits. *)
Definition totals_fit (srcs : list RPageSource) : Prop :=
  (entryBase srcs (length srcs) < two64)%N ∧ (clusterBase srcs (length srcs) < two64)%N.

(** The source a populate or release call was made on. *)
Definition event_source (ev : Event) : option nat :=
  match ev with
  | EvPopulateByEntry i _ _ | EvPopulateByCluster i _ _ | EvSourceReleasePage i _ => Some i
  | _ => None
  end.

(** What a client does with a chain: requests and releases of pages. *)
Inductive ClientCall : Type :=
| CallPopulatePage (columnHandle : ColumnHandle_t) (req : PageRequest)
| CallReleasePage (page : RPage).

(** The machine after a sequence of client calls, each of which may have
    failed. *)
Fixpoint after_calls (FindClusterId : RNTupleDescriptor → N → N → N)
    (calls : list ClientCall) (m : Machine) : Machine :=
  match calls with
  | [] => m
  | CallPopulatePage columnHandle req :: rest =>
      after_calls FindClusterId rest (Dispatch FindClusterId columnHandle req m).1
  | CallReleasePage page :: rest =>
      after_calls FindClusterId rest (ReleasePage page m).1
  end.

(** The cluster a returned page is attributed to: the one the chain's
    descriptor finds for the entry, respectively the one requested. *)
Definition request_cluster (FindClusterId : RNTupleDescriptor → N → N → N)
    (req : PageRequest) (columnHandle : ColumnHandle_t) (c : RPageSourceChain) : N :=
  match req with
  | ByEntry globalIndex => FindClusterId (fDescriptor c) (fId columnHandle) globalIndex
  | ByCluster clusterIndex => GetClusterId clusterIndex
  end.

(** The end of column [j] in a source, as line 132 reads it, and the sum of
    the ends over the sources [0 .. i-1]. *)
Definition columnEnd (j : nat) (s : RPageSource) : N :=
  from_option (λ r, (fFirstElementIndex r + fNElements r)%N) 0%N (lastColumnRange s j).

Definition elementBase (srcs : list RPageSource) (j i : nat) : N :=
  sumN (columnEnd j <$> take i srcs).

(** ** A chain of two sources

    Source A holds 100 entries in 2 clusters, source B 50 entries in 1
    cluster; both have one field and one column.  A's last cluster holds the
    elements 90..99 of the column. *)

Definition exField : RFieldDescriptor := {| fFieldName := "pt"; fTypeName := "float" |}.
Definition exColumn : RColumnDescriptor := {| fColumnType := 1%N; fFieldId := 0%N |}.

Definition exRange (first n : N) : RClusterDescriptor :=
  {| fColumnRanges := [ {| fFirstElementIndex := first; fNElements := n |} ] |}.

Definition exDescriptorA : RNTupleDescriptor :=
  {| fFieldDescriptors := [exField]; fColumnDescriptors := [exColumn];
     fClusterDescriptors := [exRange 0 90; exRange 90 10] |}.

Definition exDescriptorB : RNTupleDescriptor :=
  {| fFieldDescriptors := [exField]; fColumnDescriptors := [exColumn];
     fClusterDescriptors := [exRange 0 50] |}.

(** The descriptor of the chain once attached: B's cluster follows A's. *)
Definition exDescriptorMerged : RNTupleDescriptor :=
  {| fFieldDescriptors := [exField]; fColumnDescriptors := [exColumn];
     fClusterDescriptors := [exRange 0 90; exRange 90 10; exRange 100 50] |}.

Definition exOptions : RNTupleReadOptions := {| fOptionsToken := 7 |}.

(** Pages of 10 elements; the buffer is a new one at every call. *)
Definition exPage (buffer first : N) : RPage :=
  {| GetBuffer := buffer; GetNElements := 10; GetGlobalRangeFirst := first;
     GetClusterInfo := {| GetId := 0; GetSelfOffset := 0 |} |}.

Definition exSource (addr : nat) (heap : N) (nEntries : N) (d : RNTupleDescriptor)
  : RPageSource :=
  {| src_addr := addr; src_NTupleName := "ntuple"; src_Options := exOptions;
     GetNEntries := nEntries; GetDescriptor := d;
     SourcePopulateByEntry := λ before _ localIndex,
       Ok (exPage (heap + N.of_nat (length before)) (localIndex / 10 * 10));
     SourcePopulateByCluster := λ before _ clusterIndex,
       Ok (exPage (heap + N.of_nat (length before)) (GetIndex clusterIndex / 10 * 10)) |}.

Definition exSourceA : RPageSource := exSource 0 1000 100 exDescriptorA.
Definition exSourceB : RPageSource := exSource 1 2000 50 exDescriptorB.

(** A source whose second field has another type than A's. *)
Definition exSourceC : RPageSource :=
  exSource 2 3000 50
    {| fFieldDescriptors := [{| fFieldName := "pt"; fTypeName := "double" |}];
       fColumnDescriptors := [exColumn];
       fClusterDescriptors := [exRange 0 50] |}.

(** A source with the schema of A and no cluster, and the chain of A and
    this source as the member initialisers leave it. *)
Definition exSourceNoCluster : RPageSource :=
  exSource 1 2000 0
    {| fFieldDescriptors := [exField]; fColumnDescriptors := [exColumn];
       fClusterDescriptors := [] |}.

Definition exBroken : Machine :=
  {| this := initChain "ntuple" exOptions [exSourceA; exSourceNoCluster];
     log := []; next_addr := 2 |}.

(** A source without fields, columns and clusters. *)
Definition exSourceEmpty : RPageSource := exSource 0 1000 0 emptyDescriptor.

(** The cluster whose range of the column holds the index. *)
Fixpoint exFindFrom (cds : list RClusterDescriptor) (columnId index clusterId : N) : N :=
  match cds with
  | [] => kInvalidDescriptorId
  | cd :: rest =>
      match fColumnRanges cd !! N.to_nat columnId with
      | Some r =>
          if ((fFirstElementIndex r <=? index)
              && (index <? fFirstElementIndex r + fNElements r))%N
          then clusterId
          else exFindFrom rest columnId index (clusterId + 1)%N
      | None => exFindFrom rest columnId index (clusterId + 1)%N
      end
  end.

Definition exFindClusterId (d : RNTupleDescriptor) (columnId index : N) : N :=
  exFindFrom (fClusterDescriptors d) columnId index 0.

Definition exBlank : Machine :=
  {| this := initChain "" exOptions []; log := []; next_addr := 2 |}.

Definition exHandle : ColumnHandle_t := {| fId := 0; fColumn := 0 |}.

(** The chain of A and B, constructed and attached. *)
Definition exMachine : Machine :=
  (installDescriptor exDescriptorMerged
     (RPageSourceChain_fromOwned "ntuple" [exSourceA; exSourceB] exOptions exBlank).1).1.

(** The same chain after the page of global entry 120 was handed out. *)
Definition exMachineBusy : Machine :=
  (PopulatePage exFindClusterId exHandle 120 exMachine).1.

Definition exPageBusy : RPage :=
  SetWindow (exPage 2003 20) 120 {| GetId := 2; GetSelfOffset := 100 |}.

(** "Shared, not duplicated": the clone's sources are the objects of the
    original. *)
Definition shares_sources (c c' : RPageSourceChain) : Prop :=
  src_addr <$> fSources c' = src_addr <$> fSources c.

(** "A structured IndexOutOfRange error", one of the "distinct, structured
    error values" that "propagate to the caller": the call ends in an error
    of the out-of-range kind that is handed to the caller, not in the abort
    of a failed assertion. *)
Definition structured_index_error {A} (outcome : Machine * Result A) : Prop :=
  ∃ m' e, outcome = (m', Err e) ∧ is_out_of_range e.

(** "Rejected at construction time with an error of its own": a failure
    that is not the bounds failure of [.at()], raised before any table is
    touched. *)
Definition rejected_up_front (outcome : Machine * Result unit) : Prop :=
  ∃ m' e, outcome = (m', Err e) ∧ ¬ is_out_of_range e ∧ fNEntryPerSource (this m') = [].

(** The chain of A and B as the member initialisers leave it, and after
    InitializeVariables. *)
Definition exInit : Machine :=
  {| this := initChain "ntuple" exOptions [exSourceA; exSourceB]; log := []; next_addr := 2 |}.

Definition exBuilt : Machine := (InitializeVariables exInit).1.

(** A chain of A, B and C before the comparison. *)
Definition exMixed : Machine :=
  {| this := initChain "ntuple" exOptions [exSourceA; exSourceB; exSourceC];
     log := []; next_addr := 3 |}.

(** The chain of the empty source alone, constructed. *)
Definition exHollow : Machine :=
  (RPageSourceChain_fromOwned "ntuple" [exSourceEmpty] exOptions exBlank).1.

Definition exAfterClone : Machine := (Clone exMachine).1.

Definition exClone : RPageSourceChain :=
  match (Clone exMachine).2 with
  | Ok c => c
  | Err _ => this exBlank
  end.

(** ** More chains of A and B *)

(** A factory that knows two files. *)
Definition exCreate (ntupleName location : string) (options : RNTupleReadOptions)
  : RPageSource :=
  if String.eqb location "a.root" then exSourceA else exSourceB.

(** The chain of A and B out of each constructor, not attached. *)
Definition exOwned : Machine :=
  (RPageSourceChain_fromOwned "ntuple" [exSourceA; exSourceB] exOptions exBlank).1.

Definition exFromFiles : Machine :=
  (RPageSourceChain_fromLocations exCreate "ntuple" ["a.root"; "b.root"] exOptions exBlank).1.

Definition exFromSources : Machine :=
  (RPageSourceChain_fromSources "ntuple" [exSourceA; exSourceB] exOptions exBlank).1.

(** The chain of A, B and C after the comparison. *)
Definition exCompared : Machine := (CompareFileMetaData exMixed).1.




(** A column no source has, and the chain after a request for it. *)
Definition exHandleFar : ColumnHandle_t := {| fId := 5; fColumn := 0 |}.

Definition exMachineLeak : Machine :=
  (Dispatch exFindClusterId exHandleFar (ByEntry 120) exMachine).1.

(** The chain with buffer 2003 still tracked under source A, and after B
    has handed out a page in that buffer. *)
Definition exMachineStale : Machine :=
  {| this := set_fPageMapper {[ 2003%N := 0 ]} (this exMachine);
     log := log exMachine; next_addr := next_addr exMachine |}.

Definition exMachineStaleBusy : Machine :=
  (Dispatch exFindClusterId exHandle (ByEntry 120) exMachineStale).1.

(** A chain of one source whose first page has no buffer. *)
Definition exSourceNull : RPageSource := exSource 0 0 100 exDescriptorA.

Definition exMachineNull : Machine :=
  (installDescriptor exDescriptorA
     (RPageSourceChain_fromOwned "ntuple" [exSourceNull] exOptions exBlank).1).1.

Definition exMachineNullBusy : Machine :=
  (Dispatch exFindClusterId exHandle (ByEntry 5) exMachineNull).1.

Definition exPageNull : RPage :=
  SetWindow (exPage 0 0) 0 {| GetId := 0; GetSelfOffset := 0 |}.

(** A request, two releases of its page, and a request past the end. *)
Definition exCalls : list ClientCall :=
  [CallPopulatePage exHandle (ByEntry 120); CallReleasePage exPageBusy;
   CallReleasePage exPageBusy; CallPopulatePage exHandle (ByEntry 150)].

(** A builder that is the descriptor built so far, and appends the cluster
    descriptors as they are. *)
Definition exGetHeaderAndFooter (s : RPageSource) (descBuilder : RNTupleDescriptor)
  : RNTupleDescriptor := GetDescriptor s.

Definition exAddClusters (d descBuilder : RNTupleDescriptor) : RNTupleDescriptor :=
  {| fFieldDescriptors := fFieldDescriptors descBuilder;
     fColumnDescriptors := fColumnDescriptors descBuilder;
     fClusterDescriptors := fClusterDescriptors descBuilder ++ fClusterDescriptors d |}.

Definition exAttached : Machine :=
  (Attach RNTupleDescriptor emptyDescriptor exGetHeaderAndFooter exAddClusters id exOwned).1.

(** * Proofs *)

(** ** Running computations *)

Lemma bind_run {A B} (c : Exec A) (k : A → Exec B) (m : Machine) :
  (c ≫= k) m = match c m with
               | (m', Ok a) => k a m'
               | (m', Err e) => (m', Err e)
               end.
Proof. reflexivity. Qed.

Lemma bind_ok {A B} (c : Exec A) (k : A → Exec B) m m' a :
  c m = (m', Ok a) → (c ≫= k) m = k a m'.
Proof. intros H. rewrite bind_run, H. reflexivity. Qed.

Lemma bind_err {A B} (c : Exec A) (k : A → Exec B) m m' e :
  c m = (m', Err e) → (c ≫= k) m = (m', Err e).
Proof. intros H. rewrite bind_run, H. reflexivity. Qed.

Lemma bind_inv_ok {A B} (c : Exec A) (k : A → Exec B) m m2 b :
  (c ≫= k) m = (m2, Ok b) → ∃ m1 a, c m = (m1, Ok a) ∧ k a m1 = (m2, Ok b).
Proof.
  rewrite bind_run. destruct (c m) as [m1 [a|e]]; intros H; [eauto | discriminate].
Qed.

Lemma bind_inv_err {A B} (c : Exec A) (k : A → Exec B) m m2 e :
  (c ≫= k) m = (m2, Err e) →
  c m = (m2, Err e) ∨ ∃ m1 a, c m = (m1, Ok a) ∧ k a m1 = (m2, Err e).
Proof.
  rewrite bind_run. destruct (c m) as [m1 [a|e']]; intros H; [eauto | left; congruence].
Qed.

Lemma vec_at_ok {A} what (v : list A) i x m : v !! i = Some x → vec_at what v i m = (m, Ok x).
Proof. unfold vec_at. intros ->. reflexivity. Qed.

Lemma vec_at_err {A} what (v : list A) i m :
  v !! i = None → vec_at what v i m = (m, Err (StdOutOfRange what)).
Proof. unfold vec_at. intros ->. reflexivity. Qed.

Lemma vec_set_ok {A} what (v : list A) i x m :
  i < length v → vec_set what v i x m = (m, Ok (<[i := x]> v)).
Proof. unfold vec_set. intros H. rewrite decide_True by done. reflexivity. Qed.

Lemma vec_atN_run {A} what (v : list A) (i : N) m :
  vec_atN what v i m =
  match (if decide (i < N.of_nat (length v))%N then v !! N.to_nat i else None) with
  | Some x => (m, Ok x)
  | None => (m, Err (StdOutOfRange what))
  end.
Proof.
  unfold vec_atN. destruct (decide _) as [Hlt | Hge]; [| done].
  unfold vec_at. by destruct (v !! N.to_nat i).
Qed.

Lemma lookup_of_nat_guard {A} (v : list A) (j : nat) :
  (if decide (N.of_nat j < N.of_nat (length v))%N then v !! N.to_nat (N.of_nat j) else None)
  = v !! j.
Proof.
  rewrite Nat2N.id. destruct (decide _) as [Hlt | Hge]; [done |].
  symmetry. apply lookup_ge_None. lia.
Qed.

Lemma vec_set2_ok what (T : list (list N)) i j x row m :
  T !! i = Some row → j < length row →
  vec_set2 what T i j x m = (m, Ok (<[i := <[j := x]> row]> T)).
Proof.
  intros HT Hj. unfold vec_set2.
  erewrite bind_ok by (apply vec_at_ok; eassumption).
  erewrite bind_ok by (apply vec_set_ok; eassumption).
  apply vec_set_ok. by eapply lookup_lt_Some.
Qed.

Lemma source_at_ok i s m : fSources (this m) !! i = Some s → source_at i m = (m, Ok s).
Proof. intros H. unfold source_at. erewrite bind_ok by reflexivity. by apply vec_at_ok. Qed.

Lemma source_at_err i m :
  fSources (this m) !! i = None → source_at i m = (m, Err (StdOutOfRange "fSources.at")).
Proof. intros H. unfold source_at. erewrite bind_ok by reflexivity. by apply vec_at_err. Qed.

Ltac simpl_chain :=
  cbn [this log next_addr
       fNTupleName fOptions fDescriptor fSources fUnsafe fNEntryPerSource
       fNClusterPerSource fNElementsPerColumnPerSource fPageMapper
       set_fUnsafe set_fSources set_fNEntryPerSource set_fNClusterPerSource
       set_fNElementsPerColumnPerSource set_fPageMapper set_fDescriptor initChain] in *.

Ltac exec_head :=
  first [ reflexivity
        | apply source_at_ok; first [ eassumption | done ]
        | apply vec_at_ok; first [ eassumption | done ]
        | apply vec_set_ok;
          first [ eassumption | lia | done | rewrite ?length_insert, ?length_resize; lia ] ].

Ltac exec := repeat (erewrite bind_ok by exec_head; simpl_chain).

(** ** Loops *)

Lemma for_S n i body m :
  for_ (S n) i body m =
  match body i m with
  | (m', Ok true) => (m', Ok tt)
  | (m', Ok false) => for_ n (S i) body m'
  | (m', Err e) => (m', Err e)
  end.
Proof.
  cbn [for_]. rewrite bind_run. destruct (body i m) as [m' [[|]|e]]; reflexivity.
Qed.

Lemma for_total (I : nat → Machine → Prop) body n : ∀ i m,
  (∀ k mk, i ≤ k < i + n → I k mk → ∃ mk', body k mk = (mk', Ok false) ∧ I (S k) mk') →
  I i m → ∃ m', for_ n i body m = (m', Ok tt) ∧ I (i + n) m'.
Proof.
  induction n as [|n IH]; intros i m Hbody Hi.
  - exists m. rewrite Nat.add_0_r. done.
  - destruct (Hbody i m) as (m1 & Hrun & H1); [lia | done |].
    destruct (IH (S i) m1) as (m' & Hfor & H'); [| done |].
    + intros k mk Hk. apply Hbody. lia.
    + exists m'. rewrite for_S, Hrun, Hfor. split; [done |].
      by replace (i + S n) with (S i + n) by lia.
Qed.

Lemma for_ok_inv (I : nat → Machine → Prop) body n : ∀ i m m',
  (∀ k mk mk' b, i ≤ k < i + n → I k mk → body k mk = (mk', Ok b) → b = false ∧ I (S k) mk') →
  I i m → for_ n i body m = (m', Ok tt) → I (i + n) m'.
Proof.
  induction n as [|n IH]; intros i m m' Hbody Hi Hrun.
  - inversion Hrun; subst. by rewrite Nat.add_0_r.
  - rewrite for_S in Hrun. destruct (body i m) as [m1 [b|e]] eqn:Hb; [| discriminate].
    destruct (Hbody i m m1 b) as [-> H1]; [lia | done | done |].
    replace (i + S n) with (S i + n) by lia.
    apply (IH (S i) m1); [| done | done].
    intros k mk mk' b Hk. apply Hbody. lia.
Qed.

(** ** Computations that fail only with [std::out_of_range] *)

Create HintDb oor discriminated.

Lemma oor_bind {A B} (c : Exec A) (k : A → Exec B) :
  throws_only_out_of_range c → (∀ a, throws_only_out_of_range (k a)) →
  throws_only_out_of_range (c ≫= k).
Proof.
  intros Hc Hk m m' e [H | (m1 & a & _ & H)]%bind_inv_err; [by eapply Hc | by eapply Hk].
Qed.

Lemma oor_mret {A} (a : A) : throws_only_out_of_range (mret a).
Proof. intros m m' e H. discriminate. Qed.

Lemma oor_get_this : throws_only_out_of_range get_this.
Proof. intros m m' e H. discriminate. Qed.

Lemma oor_modify_this f : throws_only_out_of_range (modify_this f).
Proof. intros m m' e H. discriminate. Qed.

Lemma oor_emit ev : throws_only_out_of_range (emit ev).
Proof. intros m m' e H. discriminate. Qed.

Lemma oor_throw {A} what : throws_only_out_of_range (@throw A (StdOutOfRange what)).
Proof. intros m m' e H. inversion H; subst. by eexists. Qed.

Lemma oor_vec_at {A} what (v : list A) i : throws_only_out_of_range (vec_at what v i).
Proof. unfold vec_at. destruct (v !! i); [apply oor_mret | apply oor_throw]. Qed.

Lemma oor_vec_atN {A} what (v : list A) i : throws_only_out_of_range (vec_atN what v i).
Proof. unfold vec_atN. destruct (decide _); [apply oor_vec_at | apply oor_throw]. Qed.

Lemma oor_vec_set {A} what (v : list A) i x : throws_only_out_of_range (vec_set what v i x).
Proof. unfold vec_set. destruct (decide _); [apply oor_mret | apply oor_throw]. Qed.

Lemma oor_for body n : (∀ k, throws_only_out_of_range (body k)) →
  ∀ i, throws_only_out_of_range (for_ n i body).
Proof.
  intros Hbody. induction n as [|n IH]; intros i; cbn [for_].
  - apply oor_mret.
  - apply oor_bind; [done |]. intros [|]; [apply oor_mret | apply IH].
Qed.

#[local] Hint Resolve oor_mret oor_get_this oor_modify_this oor_emit oor_vec_at oor_vec_atN
  oor_vec_set oor_for : oor.
#[local] Hint Extern 1 (throws_only_out_of_range (_ ≫= _)) => apply oor_bind; [| intros ?] : oor.

Lemma oor_vec_set2 {A} what (T : list (list A)) i j x :
  throws_only_out_of_range (vec_set2 what T i j x).
Proof. unfold vec_set2. auto 10 with oor. Qed.
#[local] Hint Resolve oor_vec_set2 : oor.

Lemma oor_source_at i : throws_only_out_of_range (source_at i).
Proof. unfold source_at. auto with oor. Qed.
#[local] Hint Resolve oor_source_at : oor.

(** ** Sums and 64-bit arithmetic *)

Lemma sumN_app l1 l2 : sumN (l1 ++ l2) = (sumN l1 + sumN l2)%N.
Proof. unfold sumN. induction l1 as [|x l1 IH]; cbn; [done | lia]. Qed.

Lemma sumN_take_S {A} (f : A → N) (l : list A) i x :
  l !! i = Some x → sumN (f <$> take (S i) l) = (sumN (f <$> take i l) + f x)%N.
Proof.
  intros H. rewrite (take_S_r _ _ _ H), fmap_app, sumN_app. cbn. lia.
Qed.

Lemma sumN_take_mono (l : list N) i j : i ≤ j → (sumN (take i l) ≤ sumN (take j l))%N.
Proof.
  intros Hij. replace j with (i + (j - i)) by lia.
  rewrite take_add_app_drop_take || rewrite <- take_take_drop.
  rewrite sumN_app. lia.
Qed.

Lemma entryBase_mono srcs i j : i ≤ j → (entryBase srcs i ≤ entryBase srcs j)%N.
Proof. intros H. unfold entryBase. rewrite !fmap_take. by apply sumN_take_mono. Qed.

Lemma clusterBase_mono srcs i j : i ≤ j → (clusterBase srcs i ≤ clusterBase srcs j)%N.
Proof. intros H. unfold clusterBase. rewrite !fmap_take. by apply sumN_take_mono. Qed.

Lemma entryBase_S srcs i s :
  srcs !! i = Some s → entryBase srcs (S i) = (entryBase srcs i + GetNEntries s)%N.
Proof. intros H. unfold entryBase. by apply sumN_take_S. Qed.

Lemma clusterBase_S srcs i s :
  srcs !! i = Some s →
  clusterBase srcs (S i) = (clusterBase srcs i + GetNClusters (GetDescriptor s))%N.
Proof. intros H. unfold clusterBase. by rewrite (sumN_take_S _ _ _ _ H). Qed.

Lemma add64_mod_l a b : add64 (a mod two64) b = ((a + b) mod two64)%N.
Proof. unfold add64. rewrite N.Div0.add_mod_idemp_l. done. Qed.

Lemma sub64_exact a b : (b ≤ a)%N → (a < two64)%N → sub64 a (b mod two64) = (a - b)%N.
Proof.
  intros Hba Ha. unfold sub64.
  rewrite N.Div0.mod_mod. rewrite (N.mod_small b) by lia. rewrite (N.mod_small a) by lia.
  replace (a + (two64 - b))%N with ((a - b) + 1 * two64)%N by lia.
  rewrite N.Div0.mod_add. apply N.mod_small. lia.
Qed.

Lemma sub64_small a b : (b ≤ a)%N → (a < two64)%N → sub64 a b = (a - b)%N.
Proof.
  intros Hba Ha. rewrite <- (sub64_exact a b) by done.
  unfold sub64. by rewrite N.Div0.mod_mod.
Qed.

Lemma sub64_zero_one : sub64 0 1 = kInvalidDescriptorId.
Proof. reflexivity. Qed.

(** ** InitializeVariables *)

Lemma fillCounts_step m0 i m :
  i < length (fSources (this m0)) → counts_inv m0 i m →
  ∃ m', fillCounts i m = (m', Ok false) ∧ counts_inv m0 (S i) m'.
Proof.
  intros Hi (Hout & HT & HlE & HlC & Htab).
  assert (Hsrc : fSources (this m) = fSources (this m0)) by (unfold outside_tables in Hout; congruence).
  destruct (lookup_lt_is_Some_2 _ _ Hi) as [s Hs].
  destruct (Htab i (le_n _)) as [HE HC].
  unfold fillCounts, source_at. rewrite <- Hsrc in Hs.
  exec. eexists. split; [reflexivity |].
  unfold counts_inv, outside_tables in *. simpl_chain.
  rewrite !length_insert. split_and!; try done.
  intros k Hk. destruct (decide (k = S i)) as [-> | Hne].
  - replace (i + 1) with (S i) by lia.
    rewrite !list_lookup_insert_eq by lia.
    rewrite !add64_mod_l. unfold entryBase, clusterBase.
    rewrite Hsrc in Hs.
    rewrite (sumN_take_S GetNEntries _ _ _ Hs).
    rewrite (sumN_take_S (λ s, GetNClusters (GetDescriptor s)) _ _ _ Hs). done.
  - rewrite !list_lookup_insert_ne by lia. apply Htab. lia.
Qed.

Lemma cell_at_set2_eq (T : list (list N)) i j x row :
  T !! i = Some row → j < length row →
  cell_at (<[i := <[j := x]> row]> T) i j = Some x.
Proof.
  intros HT Hj. unfold cell_at.
  rewrite list_lookup_insert_eq by (by eapply lookup_lt_Some). cbn.
  by rewrite list_lookup_insert_eq.
Qed.

Lemma cell_at_set2_ne (T : list (list N)) i j x row a b :
  T !! i = Some row → (a, b) ≠ (i, j) →
  cell_at (<[i := <[j := x]> row]> T) a b = cell_at T a b.
Proof.
  intros HT Hne. unfold cell_at. destruct (decide (a = i)) as [-> | Ha].
  - rewrite list_lookup_insert_eq by (by eapply lookup_lt_Some). rewrite HT. cbn.
    rewrite list_lookup_insert_ne; [done | congruence].
  - by rewrite list_lookup_insert_ne.
Qed.

Lemma rows_length_set2 (T : list (list N)) i j x row nC :
  T !! i = Some row → Forall (λ r, length r = nC) T →
  Forall (λ r, length r = nC) (<[i := <[j := x]> row]> T).
Proof.
  intros HT Hall. apply Forall_insert; [done |].
  rewrite length_insert. by eapply (Forall_lookup_1 _ _ _ _ Hall).
Qed.

Lemma read_lastColumnRange {B} (s : RPageSource) (j : nat) (k : RColumnRange → Exec B) m :
  (GetClusterDescriptor (GetDescriptor s) (sub64 (GetNClusters (GetDescriptor s)) 1)
     ≫= λ cd, GetColumnRange cd (N.of_nat j) ≫= k) m =
  match lastColumnRange s j with
  | Some r => k r m
  | None => (m, Err (StdOutOfRange
               (if decide (sub64 (GetNClusters (GetDescriptor s)) 1 < GetNClusters (GetDescriptor s))%N
                then "GetColumnRange" else "GetClusterDescriptor")))
  end.
Proof.
  unfold lastColumnRange, GetClusterDescriptor, GetColumnRange, GetNClusters.
  rewrite bind_run, vec_atN_run.
  destruct (decide _) as [Hlt | Hge]; [| done].
  destruct (fClusterDescriptors (GetDescriptor s) !! _) as [cd|] eqn:Hcd; cbn.
  - rewrite bind_run, vec_atN_run, lookup_of_nat_guard.
    by destruct (fColumnRanges cd !! j).
  - apply lookup_ge_None in Hcd. lia.
Qed.

(** With a cluster count that fits [std::size_t], the id [GetNClusters() - 1]
    is the highest one. *)
Lemma lastColumnRange_last s j r :
  (GetNClusters (GetDescriptor s) < two64)%N →
  lastColumnRange s j = Some r →
  ∃ cd, last (fClusterDescriptors (GetDescriptor s)) = Some cd ∧ fColumnRanges cd !! j = Some r.
Proof.
  unfold lastColumnRange, GetNClusters. intros Hfit Hr.
  destruct (decide _) as [Hlt|]; [| discriminate].
  destruct (fClusterDescriptors (GetDescriptor s)) as [|cd0 cds] eqn:Hcds.
  { cbn in Hlt. lia. }
  rewrite sub64_small in Hr by (cbn [length] in *; lia).
  rewrite last_lookup.
  replace (N.to_nat (N.of_nat (length (cd0 :: cds)) - 1)) with (pred (length (cd0 :: cds))) in Hr
    by lia.
  destruct ((cd0 :: cds) !! pred (length (cd0 :: cds))) as [cd|]; [| discriminate].
  exists cd. done.
Qed.

Lemma lastColumnRange_no_cluster s j :
  GetNClusters (GetDescriptor s) = 0%N → lastColumnRange s j = None.
Proof.
  unfold lastColumnRange. intros ->. rewrite sub64_zero_one.
  destruct (decide _) as [Hlt|]; [| done]. vm_compute in Hlt. discriminate.
Qed.

Lemma fillElement_step m0 nC i j m s :
  elems_inv m0 nC i j m → fSources (this m0) !! i = Some s → j < nC →
  match lastColumnRange s j with
  | Some r => ∃ m', fillElement i j m = (m', Ok false) ∧ elems_inv m0 nC i (S j) m'
  | None => ∃ what, fillElement i j m = (m, Err (StdOutOfRange what))
  end.
Proof.
  intros (Hout & HE & HC & HlT & Hrows & Hzero & Hcells) Hs Hj.
  assert (Hsrc : fSources (this m) = fSources (this m0))
    by (unfold outside_tables in Hout; congruence).
  assert (Hi : i < length (fSources (this m0))) by (by eapply lookup_lt_Some).
  destruct (lookup_lt_is_Some_2 (fNElementsPerColumnPerSource (this m)) i) as [rowi Hrowi]; [lia |].
  destruct (lookup_lt_is_Some_2 (fNElementsPerColumnPerSource (this m)) (i + 1)) as [rowi1 Hrowi1];
    [lia |].
  pose proof (Forall_lookup_1 _ _ _ _ Hrows Hrowi) as Hli. cbn in Hli.
  pose proof (Forall_lookup_1 _ _ _ _ Hrows Hrowi1) as Hli1. cbn in Hli1.
  destruct (lookup_lt_is_Some_2 rowi j) as [prev Hprev]; [lia |].
  unfold fillElement, source_at. rewrite <- Hsrc in Hs. exec. cbv zeta.
  rewrite read_lastColumnRange.
  destruct (lastColumnRange s j) as [r|] eqn:Hr; [| eauto].
  exec.
  erewrite bind_ok by (eapply vec_set2_ok; [eassumption | lia]).
  exec. eexists. split; [reflexivity |].
  unfold elems_inv, outside_tables in *. simpl_chain.
  rewrite length_insert. split_and!; try done.
  - by apply rows_length_set2.
  - intros j' Hj'. rewrite (cell_at_set2_ne _ _ _ _ _ _ _ Hrowi1); [by apply Hzero |].
    intros [=]. lia.
  - intros i' j' Hij.
    destruct (decide (i' = i ∧ j' = j)) as [[-> ->] | Hne].
    + exists s, r, prev. rewrite <- Hsrc. split_and!; try done.
      * rewrite (cell_at_set2_ne _ _ _ _ _ _ _ Hrowi1) by (intros [=]; lia).
        unfold cell_at. by rewrite Hrowi.
      * replace (S i) with (i + 1) by lia.
        rewrite (cell_at_set2_eq _ _ _ _ _ Hrowi1) by lia. done.
    + destruct (Hcells i' j') as (s' & r' & prev' & H1 & H2 & H3 & H4); [lia |].
      exists s', r', prev'. split_and!; try done.
      * rewrite (cell_at_set2_ne _ _ _ _ _ _ _ Hrowi1); [done |]. intros [=]. lia.
      * rewrite (cell_at_set2_ne _ _ _ _ _ _ _ Hrowi1); [done |]. intros [=]. lia.
Qed.

Lemma elems_inv_next_row m0 nC i m : elems_inv m0 nC i nC m → elems_inv m0 nC (S i) 0 m.
Proof.
  intros (Hout & HE & HC & HlT & Hrows & Hzero & Hcells). unfold elems_inv.
  split_and!; try done. intros i' j' Hij. apply Hcells. lia.
Qed.

Lemma fillElements_total m0 nC i m s :
  elems_inv m0 nC i 0 m → fSources (this m0) !! i = Some s →
  (∀ j, j < nC → is_Some (lastColumnRange s j)) →
  ∃ m', fillElements nC i m = (m', Ok false) ∧ elems_inv m0 nC (S i) 0 m'.
Proof.
  intros Hinv Hs Hall. unfold fillElements.
  destruct (for_total (λ j mj, elems_inv m0 nC i j mj) (fillElement i) nC 0 m)
    as (m' & Hrun & Hinv'); [| done |].
  - intros j mj Hj Hmj. pose proof (fillElement_step _ _ _ _ _ _ Hmj Hs) as Hstep.
    destruct (Hall j) as [r Hr]; [lia |]. rewrite Hr in Hstep. apply Hstep. lia.
  - exists m'. erewrite bind_ok by eassumption. split; [done |].
    by apply elems_inv_next_row.
Qed.

Lemma fillElements_ok_inv m0 nC i m s m' b :
  elems_inv m0 nC i 0 m → fSources (this m0) !! i = Some s →
  fillElements nC i m = (m', Ok b) →
  b = false ∧ elems_inv m0 nC (S i) 0 m'.
Proof.
  intros Hinv Hs Hrun. unfold fillElements in Hrun.
  apply bind_inv_ok in Hrun as (m1 & [] & Hfor & Hret).
  inversion Hret; subst. split; [done |]. apply elems_inv_next_row.
  apply (for_ok_inv (λ j mj, elems_inv m0 nC i j mj) (fillElement i) nC 0 m m'); [| done | done].
  intros j mj mj' b Hj Hmj Hbody.
  pose proof (fillElement_step _ _ _ _ _ _ Hmj Hs) as Hstep.
  destruct (lastColumnRange s j) as [r|].
  - destruct Hstep as (m2 & Hrun2 & Hinv2); [lia |]. rewrite Hrun2 in Hbody.
    by inversion Hbody; subst.
  - destruct Hstep as (what & Hrun2); [lia |]. rewrite Hrun2 in Hbody. discriminate.
Qed.

Lemma zeroFirstRow_step m0 nC j m :
  zero_inv m0 nC j m → j < nC →
  ∃ m', zeroFirstRow j m = (m', Ok false) ∧ zero_inv m0 nC (S j) m'.
Proof.
  intros (Hout & HE & HC & HlT & Hrows & Hzero) Hj.
  destruct (lookup_lt_is_Some_2 (fNElementsPerColumnPerSource (this m)) 0) as [row0 Hrow0]; [lia |].
  pose proof (Forall_lookup_1 _ _ _ _ Hrows Hrow0) as Hl0. cbn in Hl0.
  unfold zeroFirstRow. exec.
  erewrite bind_ok by (eapply vec_set2_ok; [eassumption | lia]).
  exec. eexists. split; [reflexivity |].
  unfold zero_inv, outside_tables in *. simpl_chain.
  rewrite length_insert. split_and!; try done.
  - by apply rows_length_set2.
  - intros j' Hj'. destruct (decide (j' = j)) as [-> | Hne].
    + by rewrite (cell_at_set2_eq _ _ _ _ _ Hrow0) by lia.
    + rewrite (cell_at_set2_ne _ _ _ _ _ _ _ Hrow0) by congruence. apply Hzero. lia.
Qed.

Lemma oor_fillCounts i : throws_only_out_of_range (fillCounts i).
Proof. unfold fillCounts. auto 20 with oor. Qed.

Lemma oor_fillElement i j : throws_only_out_of_range (fillElement i j).
Proof. unfold fillElement, GetClusterDescriptor, GetColumnRange. cbv zeta. auto 20 with oor. Qed.

Lemma oor_fillElements nC i : throws_only_out_of_range (fillElements nC i).
Proof. unfold fillElements. pose proof (oor_fillElement i). auto 20 with oor. Qed.

Lemma oor_zeroFirstRow i : throws_only_out_of_range (zeroFirstRow i).
Proof. unfold zeroFirstRow. auto 20 with oor. Qed.

Lemma oor_InitializeVariables : throws_only_out_of_range InitializeVariables.
Proof.
  unfold InitializeVariables. cbv zeta.
  pose proof oor_fillCounts. pose proof oor_zeroFirstRow. pose proof oor_fillElements.
  auto 40 with oor.
Qed.

Lemma InitializeVariables_prefix m s0 rest :
  fSources (this m) = s0 :: rest →
  let n := length (fSources (this m)) in
  let nC := GetNColumns (GetDescriptor s0) in
  ∃ mB, InitializeVariables m = for_ n 0 (fillElements nC) mB ∧
        outside_tables mB = outside_tables m ∧
        elems_inv mB nC 0 0 mB ∧
        length (fNEntryPerSource (this mB)) = n + 1 ∧
        length (fNClusterPerSource (this mB)) = n + 1 ∧
        (∀ k, k ≤ n →
           fNEntryPerSource (this mB) !! k = Some (entryBase (fSources (this m)) k mod two64)%N ∧
           fNClusterPerSource (this mB) !! k = Some (clusterBase (fSources (this m)) k mod two64)%N).
Proof.
  intros Hsrcs n nC. unfold InitializeVariables. cbv zeta.
  exec. fold n.
  match goal with |- context [(_ ≫= _) ?mA0] => set (m1 := mA0) end.
  destruct (for_total (counts_inv m1) fillCounts n 0 m1) as (mA & HrunA & HinvA).
  { intros k mk Hk Hmk. apply fillCounts_step; [subst m1; simpl_chain; lia | done]. }
  { unfold counts_inv, outside_tables. subst m1. simpl_chain.
    rewrite !length_insert, !length_resize. split_and!; try done.
    intros k Hk. assert (k = 0) as -> by lia.
    rewrite !list_lookup_insert_eq by (rewrite length_resize; lia). done. }
  erewrite bind_ok by exact HrunA.
  destruct HinvA as (HoutA & HTA & HlEA & HlCA & HtabA).
  assert (HsrcA : fSources (this mA) = s0 :: rest).
  { unfold outside_tables in HoutA. subst m1. simpl_chain. congruence. }
  erewrite bind_ok by (apply source_at_ok; rewrite HsrcA; reflexivity).
  do 2 (erewrite bind_ok by exec_head; simpl_chain).
  fold nC.
  match goal with |- context [(_ ≫= _) ?mZ0] => set (m2 := mZ0) end.
  destruct (for_total (zero_inv m2 nC) zeroFirstRow nC 0 m2) as (mB & HrunB & HinvB).
  { intros k mk Hk Hmk. apply zeroFirstRow_step; [done | lia]. }
  { unfold zero_inv, outside_tables. subst m2. simpl_chain.
    rewrite length_fmap, length_resize. split_and!; try done.
    - subst m1. simpl_chain. fold n. unfold outside_tables in HoutA. simpl_chain.
      assert (fSources (this mA) = fSources (this m)) as -> by congruence. done.
    - apply Forall_fmap, Forall_forall. intros r _. cbn. by rewrite length_resize.
    - intros j' Hj'. lia. }
  erewrite bind_ok by exact HrunB.
  destruct HinvB as (HoutB & HEB & HCB & HlTB & HrowsB & HzeroB).
  exists mB. split; [reflexivity |].
  assert (Hout : outside_tables mB = outside_tables m).
  { rewrite HoutB. unfold outside_tables in *. subst m2 m1. simpl_chain. done. }
  assert (HsrcB : fSources (this mB) = fSources (this m))
    by (unfold outside_tables in Hout; congruence).
  split_and!.
  - done.
  - unfold elems_inv. split_and!; try done.
    + rewrite HlTB. subst m2. simpl_chain.
      assert (fSources (this mA) = fSources (this mB)) as -> by congruence. done.
    + intros i' j' Hij. lia.
  - rewrite HEB. subst m2. simpl_chain. rewrite HlEA. subst m1. simpl_chain. done.
  - rewrite HCB. subst m2. simpl_chain. rewrite HlCA. subst m1. simpl_chain. done.
  - intros k Hk. rewrite HEB, HCB. subst m2. simpl_chain.
    destruct (HtabA k) as [H1 H2]; [lia |]. subst m1. simpl_chain. done.
Qed.

Lemma InitializeVariables_empty m :
  fSources (this m) = [] →
  ∃ m', InitializeVariables m = (m', Err (StdOutOfRange "fSources.at")) ∧
        outside_tables m' = outside_tables m ∧
        fNEntryPerSource (this m') = [0%N] ∧ fNClusterPerSource (this m') = [0%N] ∧
        fNElementsPerColumnPerSource (this m') = fNElementsPerColumnPerSource (this m).
Proof.
  intros Hsrcs. unfold InitializeVariables. cbv zeta. exec. rewrite Hsrcs.
  cbn [length for_ Nat.add]. erewrite bind_ok by reflexivity.
  erewrite bind_err by (apply source_at_err; simpl_chain; by rewrite Hsrcs).
  eexists. split; [reflexivity |]. unfold outside_tables. simpl_chain.
  split_and!; try done.
  - destruct (fNEntryPerSource (this m)); cbn; rewrite ?resize_0; reflexivity.
  - destruct (fNClusterPerSource (this m)); cbn; rewrite ?resize_0; reflexivity.
Qed.

Lemma tables_built_of_inv m mB m' s0 rest :
  fSources (this m) = s0 :: rest →
  outside_tables mB = outside_tables m →
  elems_inv mB (GetNColumns (GetDescriptor s0)) (length (fSources (this m))) 0 m' →
  length (fNEntryPerSource (this mB)) = length (fSources (this m)) + 1 →
  length (fNClusterPerSource (this mB)) = length (fSources (this m)) + 1 →
  (∀ k, k ≤ length (fSources (this m)) →
     fNEntryPerSource (this mB) !! k = Some (entryBase (fSources (this m)) k mod two64)%N ∧
     fNClusterPerSource (this mB) !! k = Some (clusterBase (fSources (this m)) k mod two64)%N) →
  outside_tables m' = outside_tables m ∧ tables_built (fSources (this m)) (this m').
Proof.
  intros Hsrcs HoutB (Hout & HE & HC & HlT & Hrows & Hzero & Hcells) HlE HlC Htab.
  assert (HsrcB : fSources (this mB) = fSources (this m))
    by (unfold outside_tables in HoutB; congruence).
  split; [congruence |]. unfold tables_built. cbv zeta.
  assert (from_option (λ s1, GetNColumns (GetDescriptor s1)) 0 (fSources (this m) !! 0)
          = GetNColumns (GetDescriptor s0)) as -> by (by rewrite Hsrcs).
  rewrite HE, HC. rewrite HsrcB in *. split_and!; try done.
  intros i j Hi Hj. apply Hcells. lia.
Qed.

Lemma InitializeVariables_ok m m' :
  InitializeVariables m = (m', Ok tt) →
  fSources (this m) ≠ [] ∧
  outside_tables m' = outside_tables m ∧ tables_built (fSources (this m)) (this m').
Proof.
  intros Hrun. destruct (fSources (this m)) as [|s0 rest] eqn:Hsrcs.
  { destruct (InitializeVariables_empty m Hsrcs) as (m1 & Hrun1 & _). congruence. }
  split; [done |]. rewrite <- Hsrcs.
  destruct (InitializeVariables_prefix m s0 rest Hsrcs) as (mB & HrunB & HoutB & HinvB & HlE & HlC & Htab).
  cbv zeta in *. rewrite HrunB in Hrun.
  eapply tables_built_of_inv; try eassumption.
  assert (HsrcB : fSources (this mB) = fSources (this m))
    by (unfold outside_tables in HoutB; congruence).
  apply (for_ok_inv (λ i mi, elems_inv mB (GetNColumns (GetDescriptor s0)) i 0 mi)
           (fillElements (GetNColumns (GetDescriptor s0)))
           (length (fSources (this m))) 0 mB m'); [| done | done].
  intros i mi mi' b Hi Hmi Hbody.
  destruct (lookup_lt_is_Some_2 (fSources (this mB)) i) as [s Hs]; [rewrite HsrcB; lia |].
  eapply fillElements_ok_inv; eassumption.
Qed.

Lemma InitializeVariables_total m s0 rest :
  fSources (this m) = s0 :: rest →
  (∀ i s j, fSources (this m) !! i = Some s → j < GetNColumns (GetDescriptor s0) →
            is_Some (lastColumnRange s j)) →
  ∃ m', InitializeVariables m = (m', Ok tt).
Proof.
  intros Hsrcs Hall.
  destruct (InitializeVariables_prefix m s0 rest Hsrcs) as (mB & HrunB & HoutB & HinvB & _).
  cbv zeta in *. rewrite HrunB.
  assert (HsrcB : fSources (this mB) = fSources (this m))
    by (unfold outside_tables in HoutB; congruence).
  destruct (for_total (λ i mi, elems_inv mB (GetNColumns (GetDescriptor s0)) i 0 mi)
              (fillElements (GetNColumns (GetDescriptor s0)))
              (length (fSources (this m))) 0 mB) as (m' & Hrun & _); [| done | by eauto].
  intros i mi Hi Hmi.
  destruct (lookup_lt_is_Some_2 (fSources (this mB)) i) as [s Hs]; [rewrite HsrcB; lia |].
  eapply fillElements_total; [done | done |].
  intros j Hj. eapply Hall; [| done]. by rewrite <- HsrcB.
Qed.

(** C2.  When InitializeVariables returns, the three tables have
    [nSources + 1] rows and start with 0 (a row of zeros, one per column of
    source 0, for the element table); each next entry is the previous one
    plus source [i]'s entry count, respectively cluster count; and for every
    column [c] of source 0 the element table's next row holds the previous
    row's value plus first element index + element count of column [c]'s
    range in source [i]'s last cluster.  Sums are those of 64-bit unsigned
    arithmetic. *)
Theorem InitializeVariables_builds_prefix_sums (m m' : Machine) :
  let srcs := fSources (this m) in
  let n := length srcs in
  let nColumns := from_option (λ s0, GetNColumns (GetDescriptor s0)) 0 (srcs !! 0) in
  InitializeVariables m = (m', Ok tt) →
  Forall (λ s, (GetNClusters (GetDescriptor s) < two64)%N) srcs →
  let E := fNEntryPerSource (this m') in
  let C := fNClusterPerSource (this m') in
  let T := fNElementsPerColumnPerSource (this m') in
  fSources (this m') = srcs ∧
  length E = n + 1 ∧ length C = n + 1 ∧ length T = n + 1 ∧
  E !! 0 = Some 0%N ∧ C !! 0 = Some 0%N ∧ T !! 0 = Some (replicate nColumns 0%N) ∧
  (∀ i s, srcs !! i = Some s →
     ∃ e k, E !! i = Some e ∧ E !! (i + 1) = Some (add64 e (GetNEntries s)) ∧
            C !! i = Some k ∧ C !! (i + 1) = Some (add64 k (GetNClusters (GetDescriptor s)))) ∧
  (∀ i s c, srcs !! i = Some s → c < nColumns →
     ∃ lastCluster range prev,
       last (fClusterDescriptors (GetDescriptor s)) = Some lastCluster ∧
       fColumnRanges lastCluster !! c = Some range ∧
       cell_at T i c = Some prev ∧
       cell_at T (i + 1) c
         = Some ((prev + (fFirstElementIndex range + fNElements range)) mod two64)%N).
Proof.
  intros srcs n nColumns Hrun Hfit E C T.
  apply InitializeVariables_ok in Hrun as (Hne & Hout & HlE & HlC & Htab & HlT & Hrows & Hzero & Hcells).
  fold srcs n nColumns in HlE, HlC, Htab, HlT, Hrows, Hzero, Hcells.
  fold E in HlE, Htab. fold C in HlC, Htab. fold T in HlT, Hrows, Hzero, Hcells.
  split_and!; try done.
  - unfold srcs. unfold outside_tables in Hout. congruence.
  - destruct (Htab 0) as [H0 _]; [lia |]. rewrite H0. done.
  - destruct (Htab 0) as [_ H0]; [lia |]. rewrite H0. done.
  - destruct (lookup_lt_is_Some_2 T 0) as [row0 Hrow0]; [lia |].
    rewrite Hrow0. f_equal.
    pose proof (Forall_lookup_1 _ _ _ _ Hrows Hrow0) as Hl0. cbn in Hl0.
    apply list_eq. intros j. destruct (decide (j < nColumns)) as [Hj | Hj].
    + rewrite lookup_replicate_2 by done. specialize (Hzero j Hj).
      unfold cell_at in Hzero. rewrite Hrow0 in Hzero. done.
    + rewrite !lookup_ge_None_2; [done | rewrite length_replicate; lia | lia].
  - intros i s Hs. assert (Hi : i < n) by (by eapply lookup_lt_Some).
    destruct (Htab i) as [HEi HCi]; [lia |].
    destruct (Htab (S i)) as [HESi HCSi]; [lia |].
    replace (i + 1) with (S i) by lia.
    eexists _, _. split_and!; [exact HEi | | exact HCi |].
    + rewrite HESi, add64_mod_l, (entryBase_S _ _ _ Hs). done.
    + rewrite HCSi, add64_mod_l, (clusterBase_S _ _ _ Hs). done.
  - intros i s c Hs Hc. assert (Hi : i < n) by (by eapply lookup_lt_Some).
    destruct (Hcells i c Hi Hc) as (s' & r & prev & Hs' & Hr & Hprev & Hnext).
    assert (s' = s) as -> by congruence.
    destruct (lastColumnRange_last s c r) as (cd & Hlast & Hrange); [| done |].
    { rewrite Forall_forall in Hfit. apply Hfit. by eapply list_elem_of_lookup_2. }
    exists cd, r, prev. replace (i + 1) with (S i) by lia. split_and!; try done.
    rewrite Hnext. f_equal. unfold element_of, add64.
    rewrite N.Div0.add_mod_idemp_l. f_equal. lia.
Qed.

(** C10, as the code has it.  When the schema of source 0 has at least one
    column, InitializeVariables reads for every source and column the
    cluster descriptor with id [GetNClusters() - 1]; it returns only if
    every source has at least one cluster.  For a source without clusters
    the id wraps to [2^64 - 1], the access to the cluster descriptor is out
    of range and InitializeVariables fails with [std::out_of_range]. *)
Theorem InitializeVariables_needs_a_cluster_per_source (m : Machine) (s0 : RPageSource)
    (rest : list RPageSource) :
  fSources (this m) = s0 :: rest →
  0 < GetNColumns (GetDescriptor s0) →
  (∀ m', InitializeVariables m = (m', Ok tt) →
     ∀ s, s ∈ fSources (this m) →
       GetNClusters (GetDescriptor s) ≠ 0%N ∧
       ∀ j, j < GetNColumns (GetDescriptor s0) → is_Some (lastColumnRange s j)) ∧
  (∀ s, s ∈ fSources (this m) → GetNClusters (GetDescriptor s) = 0%N →
     sub64 (GetNClusters (GetDescriptor s)) 1 = kInvalidDescriptorId ∧
     (∀ m1, GetClusterDescriptor (GetDescriptor s) kInvalidDescriptorId m1
            = (m1, Err (StdOutOfRange "GetClusterDescriptor"))) ∧
     ∃ m' what, InitializeVariables m = (m', Err (StdOutOfRange what))).
Proof.
  intros Hsrcs HnC.
  assert (Hok : ∀ m', InitializeVariables m = (m', Ok tt) →
     ∀ s, s ∈ fSources (this m) →
       GetNClusters (GetDescriptor s) ≠ 0%N ∧
       ∀ j, j < GetNColumns (GetDescriptor s0) → is_Some (lastColumnRange s j)).
  { intros m' Hrun s Hin.
    apply InitializeVariables_ok in Hrun as (_ & _ & _ & _ & _ & _ & _ & _ & Hcells).
    assert (HnCeq : from_option (λ s1, GetNColumns (GetDescriptor s1)) 0 (fSources (this m) !! 0)
                    = GetNColumns (GetDescriptor s0)) by (by rewrite Hsrcs).
    cbv zeta in Hcells. rewrite HnCeq in Hcells.
    apply list_elem_of_lookup in Hin as [i Hi].
    assert (Hlt : i < length (fSources (this m))) by (by eapply lookup_lt_Some).
    assert (Hall : ∀ j, j < GetNColumns (GetDescriptor s0) → is_Some (lastColumnRange s j)).
    { intros j Hj. destruct (Hcells i j Hlt Hj) as (s' & r & prev & Hs' & Hr & _).
      assert (s' = s) as -> by congruence. eauto. }
    split; [| done]. intros Hzero.
    destruct (Hall 0 HnC) as [r Hr]. rewrite lastColumnRange_no_cluster in Hr by done.
    discriminate. }
  split; [exact Hok |].
  intros s Hin Hzero. split_and!.
  - rewrite Hzero. apply sub64_zero_one.
  - intros m1. unfold GetClusterDescriptor. rewrite vec_atN_run.
    unfold GetNClusters in Hzero. rewrite decide_False; [done |].
    unfold kInvalidDescriptorId. rewrite Hzero. vm_compute. discriminate.
  - destruct (InitializeVariables m) as [m' [[]|e]] eqn:Hrun.
    + destruct (Hok m' eq_refl s Hin) as [Hne _]. done.
    + destruct (oor_InitializeVariables _ _ _ Hrun) as [what ->]. eauto.
Qed.

(** ** CompareFileMetaData *)

Lemma log_more_nil m : log_more [] m = m.
Proof. destruct m. unfold log_more. cbn. by rewrite app_nil_r. Qed.

Lemma log_more_more e1 e2 m : log_more e2 (log_more e1 m) = log_more (e1 ++ e2) m.
Proof. unfold log_more. cbn. by rewrite app_assoc. Qed.

Lemma first_diff_drop {A} `{EqDecision A} (l1 l2 : list A) j x y :
  l1 !! j = Some x → l2 !! j = Some y →
  first_diff (drop j l1) (drop j l2) =
  if decide (x = y) then S <$> first_diff (drop (S j) l1) (drop (S j) l2) else Some 0.
Proof.
  intros H1 H2. rewrite (drop_S _ _ _ H1), (drop_S _ _ _ H2). reflexivity.
Qed.

Lemma first_diff_refl {A} `{EqDecision A} (l : list A) : first_diff l l = None.
Proof. induction l as [|x l IH]; [done |]. cbn. rewrite decide_True by done. by rewrite IH. Qed.

Lemma first_diff_Some {A} `{EqDecision A} (l1 l2 : list A) j :
  first_diff l1 l2 = Some j ↔
  (∃ x y, l1 !! j = Some x ∧ l2 !! j = Some y ∧ x ≠ y) ∧ take j l1 = take j l2.
Proof.
  revert l2 j. induction l1 as [|x l1 IH]; intros [|y l2] j.
  - split; [done | intros [(? & ? & ? & _) _]; done].
  - split; [done | intros [(? & ? & ? & _) _]; done].
  - split; [done | intros [(? & ? & _ & ? & _) _]; done].
  - cbn [first_diff]. destruct (decide (x = y)) as [-> | Hne].
    + destruct j as [|j].
      * split; [by destruct (first_diff l1 l2) | ].
        intros [(x' & y' & Hx & Hy & Hxy) _]. cbn in *. congruence.
      * specialize (IH l2 j). split.
        { destruct (first_diff l1 l2) as [k|]; [| done]. intros [= ->].
          destruct IH as [IH _]. destruct (IH eq_refl) as [Hd Ht].
          split; [exact Hd | cbn; by rewrite Ht]. }
        { intros [Hd Ht]. cbn in Ht. destruct IH as [_ IH].
          rewrite IH; [done |]. split; [exact Hd | congruence]. }
    + destruct j as [|j].
      * split; [intros _; split; [by exists x, y | done] | done].
      * split; [done |]. intros [_ Ht]. cbn in Ht. congruence.
Qed.

Lemma first_mismatch_same d0 d : same_schema d0 d → first_mismatch d0 d = None.
Proof.
  intros [Hf Hc]. unfold first_mismatch, GetNFields, GetNColumns. rewrite <- Hf, <- Hc.
  rewrite decide_False by (intros [?|?]; done). by rewrite !first_diff_refl.
Qed.

Lemma first_mismatch_at d0 d mm : mismatch_at d0 d mm → first_mismatch d0 d = Some mm.
Proof.
  unfold first_mismatch. destruct mm as [|j|j]; cbn.
  - intros H. by rewrite decide_True.
  - intros (HnF & HnC & Hd). rewrite decide_False by (intros [?|?]; done).
    apply first_diff_Some in Hd. by rewrite Hd.
  - intros (HnF & HnC & Hf & Hd). rewrite decide_False by (intros [?|?]; done).
    rewrite <- Hf, first_diff_refl. apply first_diff_Some in Hd. by rewrite Hd.
Qed.

Lemma compareFields_loop i s0 si n : ∀ j m,
  fSources (this m) !! 0 = Some s0 → fSources (this m) !! i = Some si →
  GetNFields (GetDescriptor s0) = GetNFields (GetDescriptor si) →
  j + n = GetNFields (GetDescriptor s0) →
  for_ n j (λ j,
    s0 ← source_at 0;
    si ← source_at i;
    f0 ← GetFieldDescriptor (GetDescriptor s0) j;
    fi ← GetFieldDescriptor (GetDescriptor si) j;
    emit (EvCompareField i j);;
    if bool_decide (f0 = fi) then mret false
    else emit (EvWarning warnFields);; modify_this (set_fUnsafe true);; mret true) m =
  match first_diff (drop j (fFieldDescriptors (GetDescriptor s0)))
                   (drop j (fFieldDescriptors (GetDescriptor si))) with
  | None => (log_more (field_events i j n) m, Ok tt)
  | Some d => (flag_unsafe (log_more (field_events i j (S d) ++ [EvWarning warnFields]) m), Ok tt)
  end.
Proof.
  induction n as [|n IH]; intros j m H0 Hi Hlen Hj.
  - rewrite !drop_ge by (unfold GetNFields in *; lia). cbn. by rewrite log_more_nil.
  - unfold GetNFields in *.
    destruct (lookup_lt_is_Some_2 (fFieldDescriptors (GetDescriptor s0)) j) as [f0 Hf0]; [lia |].
    destruct (lookup_lt_is_Some_2 (fFieldDescriptors (GetDescriptor si)) j) as [fi Hfi]; [lia |].
    rewrite (first_diff_drop _ _ _ _ _ Hf0 Hfi).
    rewrite for_S. unfold GetFieldDescriptor at 1 2. exec.
    destruct (decide (f0 = fi)) as [-> | Hne].
    + rewrite bool_decide_eq_true_2 by done. cbn [mret Exec_ret ret].
      rewrite IH; [| done | done | done | lia].
      destruct (first_diff _ _) as [d|]; cbn [fmap option_fmap option_map].
      * unfold flag_unsafe, log_more, field_events. simpl_chain. cbn [seq fmap list_fmap].
        rewrite <- !app_assoc. reflexivity.
      * unfold log_more, field_events. simpl_chain. cbn [seq fmap list_fmap].
        rewrite <- !app_assoc. reflexivity.
    + rewrite bool_decide_eq_false_2 by done. exec. cbn [mret Exec_ret ret].
      unfold flag_unsafe, log_more, field_events. simpl_chain. cbn [seq fmap list_fmap].
      rewrite <- !app_assoc. reflexivity.
Qed.

Lemma compareColumns_loop i s0 si n : ∀ j m,
  fSources (this m) !! 0 = Some s0 → fSources (this m) !! i = Some si →
  GetNColumns (GetDescriptor s0) = GetNColumns (GetDescriptor si) →
  j + n = GetNColumns (GetDescriptor s0) →
  for_ n j (λ j,
    s0 ← source_at 0;
    si ← source_at i;
    c0 ← GetColumnDescriptor (GetDescriptor s0) j;
    ci ← GetColumnDescriptor (GetDescriptor si) j;
    emit (EvCompareColumn i j);;
    if bool_decide (c0 = ci) then mret false
    else emit (EvWarning warnColumns);; modify_this (set_fUnsafe true);; mret true) m =
  match first_diff (drop j (fColumnDescriptors (GetDescriptor s0)))
                   (drop j (fColumnDescriptors (GetDescriptor si))) with
  | None => (log_more (column_events i j n) m, Ok tt)
  | Some d => (flag_unsafe (log_more (column_events i j (S d) ++ [EvWarning warnColumns]) m), Ok tt)
  end.
Proof.
  induction n as [|n IH]; intros j m H0 Hi Hlen Hj.
  - rewrite !drop_ge by (unfold GetNColumns in *; lia). cbn. by rewrite log_more_nil.
  - unfold GetNColumns in *.
    destruct (lookup_lt_is_Some_2 (fColumnDescriptors (GetDescriptor s0)) j) as [c0 Hc0]; [lia |].
    destruct (lookup_lt_is_Some_2 (fColumnDescriptors (GetDescriptor si)) j) as [ci Hci]; [lia |].
    rewrite (first_diff_drop _ _ _ _ _ Hc0 Hci).
    rewrite for_S. unfold GetColumnDescriptor at 1 2. exec.
    destruct (decide (c0 = ci)) as [-> | Hne].
    + rewrite bool_decide_eq_true_2 by done. cbn [mret Exec_ret ret].
      rewrite IH; [| done | done | done | lia].
      destruct (first_diff _ _) as [d|]; cbn [fmap option_fmap option_map].
      * unfold flag_unsafe, log_more, column_events. simpl_chain. cbn [seq fmap list_fmap].
        rewrite <- !app_assoc. reflexivity.
      * unfold log_more, column_events. simpl_chain. cbn [seq fmap list_fmap].
        rewrite <- !app_assoc. reflexivity.
    + rewrite bool_decide_eq_false_2 by done. exec. cbn [mret Exec_ret ret].
      unfold flag_unsafe, log_more, column_events. simpl_chain. cbn [seq fmap list_fmap].
      rewrite <- !app_assoc. reflexivity.
Qed.

Lemma compareFields_run i s0 si m :
  fSources (this m) !! 0 = Some s0 → fSources (this m) !! i = Some si →
  GetNFields (GetDescriptor s0) = GetNFields (GetDescriptor si) →
  compareFields i m =
  match first_diff (fFieldDescriptors (GetDescriptor s0)) (fFieldDescriptors (GetDescriptor si)) with
  | None => (log_more (field_events i 0 (GetNFields (GetDescriptor s0))) m, Ok tt)
  | Some d => (flag_unsafe (log_more (field_events i 0 (S d) ++ [EvWarning warnFields]) m), Ok tt)
  end.
Proof.
  intros H0 Hi Hlen. unfold compareFields. exec.
  rewrite (compareFields_loop i s0 si); [| done | done | done | lia].
  by rewrite !drop_0.
Qed.

Lemma compareColumns_run i s0 si m :
  fSources (this m) !! 0 = Some s0 → fSources (this m) !! i = Some si →
  GetNColumns (GetDescriptor s0) = GetNColumns (GetDescriptor si) →
  compareColumns i m =
  match first_diff (fColumnDescriptors (GetDescriptor s0)) (fColumnDescriptors (GetDescriptor si)) with
  | None => (log_more (column_events i 0 (GetNColumns (GetDescriptor s0))) m, Ok tt)
  | Some d => (flag_unsafe (log_more (column_events i 0 (S d) ++ [EvWarning warnColumns]) m), Ok tt)
  end.
Proof.
  intros H0 Hi Hlen. unfold compareColumns. exec.
  rewrite (compareColumns_loop i s0 si); [| done | done | done | lia].
  by rewrite !drop_0.
Qed.

Lemma compareSource_run i s0 si m :
  fSources (this m) !! 0 = Some s0 → fSources (this m) !! i = Some si →
  fUnsafe (this m) = false →
  compareSource i m =
  match first_mismatch (GetDescriptor s0) (GetDescriptor si) with
  | Some mm => (flag_unsafe (log_more (comparisons_until (GetDescriptor s0) i mm) m), Ok true)
  | None => (log_more (all_comparisons (GetDescriptor s0) i) m, Ok false)
  end.
Proof.
  intros H0 Hi Hu. unfold compareSource, first_mismatch. exec.
  destruct (decide _) as [Hdiff | Hsame].
  { rewrite bool_decide_eq_true_2 by done. exec. cbn [mret Exec_ret ret].
    unfold flag_unsafe, log_more, comparisons_until. simpl_chain.
    rewrite <- !app_assoc. reflexivity. }
  rewrite bool_decide_eq_false_2 by done.
  assert (HnF : GetNFields (GetDescriptor s0) = GetNFields (GetDescriptor si)).
  { destruct (decide (GetNFields (GetDescriptor s0) = GetNFields (GetDescriptor si))); tauto. }
  assert (HnC : GetNColumns (GetDescriptor s0) = GetNColumns (GetDescriptor si)).
  { destruct (decide (GetNColumns (GetDescriptor s0) = GetNColumns (GetDescriptor si))); tauto. }
  rewrite bind_run, (compareFields_run i s0 si) by (simpl_chain; done).
  destruct (first_diff (fFieldDescriptors _) _) as [d|].
  { exec. cbn [mret Exec_ret ret]. unfold flag_unsafe, log_more, comparisons_until. simpl_chain.
    rewrite <- !app_assoc. reflexivity. }
  erewrite bind_ok by reflexivity. cbn [log_more this]. rewrite Hu.
  rewrite bind_run, (compareColumns_run i s0 si) by (simpl_chain; done).
  destruct (first_diff (fColumnDescriptors _) _) as [d|].
  { exec. cbn [mret Exec_ret ret]. unfold flag_unsafe, log_more, comparisons_until. simpl_chain.
    rewrite <- !app_assoc. reflexivity. }
  erewrite bind_ok by reflexivity. cbn [log_more this]. rewrite Hu.
  cbn [mret Exec_ret ret]. unfold log_more, all_comparisons. simpl_chain.
  rewrite <- !app_assoc. reflexivity.
Qed.

Lemma compareSources_run s0 rest : ∀ i m,
  fSources (this m) !! 0 = Some s0 →
  (∀ k s, rest !! k = Some s → fSources (this m) !! (i + k) = Some s) →
  fUnsafe (this m) = false →
  for_ (length rest) i compareSource m =
  let '(u, evs) := chain_comparisons (GetDescriptor s0) i rest in
  ((if u then flag_unsafe (log_more evs m) else log_more evs m), Ok tt).
Proof.
  induction rest as [|s rest IH]; intros i m H0 Hrest Hu.
  - cbn. by rewrite log_more_nil.
  - cbn [length chain_comparisons]. rewrite for_S.
    rewrite (compareSource_run i s0 s); [| done | | done].
    2: { specialize (Hrest 0 s eq_refl). by rewrite Nat.add_0_r in Hrest. }
    destruct (first_mismatch _ _) as [mm|]; [done |].
    rewrite IH; [| done | | done].
    2: { intros k s' Hk. cbn [log_more this]. replace (S i + k) with (i + S k) by lia.
         by apply Hrest. }
    destruct (chain_comparisons _ _ _) as [[|] evs]; by rewrite log_more_more.
Qed.

Lemma CompareFileMetaData_run m :
  fUnsafe (this m) = false →
  CompareFileMetaData m =
  match fSources (this m) with
  | [] => (m, Ok tt)
  | s0 :: rest =>
      let '(u, evs) := chain_comparisons (GetDescriptor s0) 1 rest in
      ((if u then flag_unsafe (log_more evs m) else log_more evs m), Ok tt)
  end.
Proof.
  intros Hu. unfold CompareFileMetaData. exec.
  destruct (fSources (this m)) as [|s0 rest] eqn:Hsrcs; [done |].
  cbn [length]. rewrite Nat.sub_0_r || replace (S (length rest) - 1) with (length rest) by lia.
  apply compareSources_run; [by rewrite Hsrcs | | done].
  intros k s Hk. by rewrite Hsrcs.
Qed.

Lemma chain_comparisons_agree d0 rest : ∀ i,
  Forall (λ s, same_schema d0 (GetDescriptor s)) rest →
  chain_comparisons d0 i rest = (false, agreeing_comparisons d0 i rest).
Proof.
  induction rest as [|s rest IH]; intros i Hall; [done |].
  apply Forall_cons in Hall as [Hs Hall]. cbn.
  rewrite (first_mismatch_same _ _ Hs), (IH _ Hall). done.
Qed.

Lemma chain_comparisons_first d0 pre s post mm : ∀ i,
  Forall (λ p, same_schema d0 (GetDescriptor p)) pre →
  mismatch_at d0 (GetDescriptor s) mm →
  chain_comparisons d0 i (pre ++ s :: post)
  = (true, agreeing_comparisons d0 i pre ++ comparisons_until d0 (i + length pre) mm).
Proof.
  induction pre as [|p pre IH]; intros i Hall Hmm.
  - cbn. rewrite (first_mismatch_at _ _ _ Hmm). by rewrite Nat.add_0_r.
  - apply Forall_cons in Hall as [Hp Hall]. cbn.
    rewrite (first_mismatch_same _ _ Hp), (IH _ Hall Hmm).
    cbn [length]. replace (i + S (length pre)) with (S i + length pre) by lia.
    by rewrite app_assoc.
Qed.

(** What the comparison leaves untouched. *)
Lemma CompareFileMetaData_frame m :
  fUnsafe (this m) = false →
  ∃ m', CompareFileMetaData m = (m', Ok tt) ∧
        next_addr m' = next_addr m ∧
        (∃ evs, log m' = log m ++ evs) ∧
        ∃ u, this m' = set_fUnsafe u (this m).
Proof.
  intros Hu. rewrite (CompareFileMetaData_run m Hu).
  destruct (fSources (this m)) as [|s0 rest].
  - exists m. split_and!; [done | done | |].
    + exists []. by rewrite app_nil_r.
    + exists false. destruct m as [[] ? ?]. cbn in *. by subst.
  - destruct (chain_comparisons _ _ _) as [[|] evs]; eexists; split_and!; try reflexivity.
    + by exists evs.
    + by exists true.
    + by exists evs.
    + exists false. destruct m as [[] ? ?]. cbn in *. by subst.
Qed.

(** C8.  Starting with the flag unset, CompareFileMetaData compares the
    sources 1, 2, ... with source 0, each in the order counts, field
    descriptors, column descriptors.  When all have the schema of source 0
    the flag stays unset and every comparison is made.  Otherwise, at the
    first source that disagrees and at its first disagreement [mm], the flag
    is set, one warning is logged, and nothing is compared after it: the log
    holds all comparisons of the sources before, then those of the
    disagreeing source up to [mm], then the warning. *)
Theorem CompareFileMetaData_stops_at_first_mismatch (m : Machine) (s0 : RPageSource)
    (rest : list RPageSource) :
  fUnsafe (this m) = false →
  fSources (this m) = s0 :: rest →
  let d0 := GetDescriptor s0 in
  ∃ m',
    CompareFileMetaData m = (m', Ok tt) ∧
    next_addr m' = next_addr m ∧
    (Forall (λ s, same_schema d0 (GetDescriptor s)) rest →
     this m' = this m ∧
     log m' = log m ++ agreeing_comparisons d0 1 rest) ∧
    (∀ pre s post mm,
       rest = pre ++ s :: post →
       Forall (λ p, same_schema d0 (GetDescriptor p)) pre →
       mismatch_at d0 (GetDescriptor s) mm →
       this m' = set_fUnsafe true (this m) ∧
       log m' = log m ++ agreeing_comparisons d0 1 pre
                      ++ comparisons_until d0 (S (length pre)) mm).
Proof.
  intros Hu Hsrcs d0. rewrite (CompareFileMetaData_run m Hu), Hsrcs. fold d0.
  destruct (chain_comparisons d0 1 rest) as [u evs] eqn:Hcc.
  eexists. split; [reflexivity |]. split_and!.
  - by destruct u.
  - intros Hall. rewrite (chain_comparisons_agree _ _ _ Hall) in Hcc.
    inversion Hcc; subst. done.
  - intros pre s post mm -> Hall Hmm.
    rewrite (chain_comparisons_first _ _ _ _ _ _ Hall Hmm) in Hcc.
    inversion Hcc; subst. cbn. by rewrite app_assoc.
Qed.

(** ** Constructors and Clone *)

Lemma fromOwned_ok name sources options m m' :
  RPageSourceChain_fromOwned name sources options m = (m', Ok tt) →
  fNTupleName (this m') = name ∧ fOptions (this m') = options ∧
  fSources (this m') = sources ∧
  fPageMapper (this m') = ∅ ∧
  next_addr m' = next_addr m ∧
  tables_built (fSources (this m')) (this m').
Proof.
  unfold RPageSourceChain_fromOwned. intros Hrun.
  erewrite bind_ok in Hrun by reflexivity.
  apply bind_inv_ok in Hrun as (m1 & [] & Hcmp & Hinit).
  match type of Hcmp with CompareFileMetaData ?mc = _ => set (m0 := mc) in * end.
  destruct (CompareFileMetaData_frame m0 eq_refl) as (m1' & Hcmp' & Hnext & [evs Hlog] & u & Hthis).
  rewrite Hcmp' in Hcmp. inversion Hcmp; subst m1'. clear Hcmp.
  apply InitializeVariables_ok in Hinit as (_ & Hout & Hbuilt).
  unfold outside_tables in Hout.
  injection Hout as Hn Ho Hd Hs Hu Hm Hl Ha.
  rewrite <- Hs in Hbuilt. rewrite Hthis in *. subst m0. simpl_chain.
  split_and!; try done. lia.
Qed.

Lemma registerSource_run s m :
  registerSource s m =
  ({| this := set_fSources (fSources (this m) ++ [s]) (this m);
      log := log m ++ [EvSourceAttach (src_addr s)];
      next_addr := next_addr m |}, Ok tt).
Proof.
  unfold registerSource. exec.
  erewrite bind_ok.
  2: { apply vec_at_ok. rewrite length_app. cbn [length].
       replace (length (fSources (this m)) + 1 - 1) with (length (fSources (this m)) + 0) by lia.
       rewrite lookup_app_r by lia.
       replace (length (fSources (this m)) + 0 - length (fSources (this m))) with 0 by lia.
       reflexivity. }
  reflexivity.
Qed.

Lemma clone_all_run sources : ∀ m,
  for_each sources (λ s, s' ← SourceClone s; registerSource s') m =
  ({| this := set_fSources (fSources (this m) ++ clones_from (next_addr m) sources) (this m);
      log := log m ++ clone_events (next_addr m) sources;
      next_addr := next_addr m + length sources |}, Ok tt).
Proof.
  induction sources as [|s rest IH]; intros m.
  - cbn. destruct m as [c l a]. destruct c. cbn. rewrite !app_nil_r, Nat.add_0_r. reflexivity.
  - cbn [for_each]. rewrite bind_run.
    rewrite bind_run. unfold SourceClone at 1, allocSource at 1. cbn beta iota.
    rewrite registerSource_run. rewrite IH. simpl_chain.
    cbn [clones_from clone_events length src_addr].
    rewrite <- !app_assoc. cbn [app].
    replace (next_addr m + S (length rest)) with (S (next_addr m) + length rest) by lia.
    reflexivity.
Qed.

Lemma clones_from_lookup a sources i s :
  sources !! i = Some s → clones_from a sources !! i = Some (at_addr (a + i) s).
Proof.
  revert a i. induction sources as [|s0 rest IH]; intros a i H; [done |].
  destruct i as [|i]; cbn [clones_from].
  - rewrite Nat.add_0_r. cbn in *. congruence.
  - change ((at_addr a s0 :: clones_from (S a) rest) !! S i) with (clones_from (S a) rest !! i).
    rewrite (IH (S a) i H). do 2 f_equal. lia.
Qed.

Lemma clones_from_length a sources : length (clones_from a sources) = length sources.
Proof. revert a. induction sources as [|s rest IH]; intros a; cbn; [done | by rewrite IH]. Qed.

Lemma fromSources_ok name sources options m m' :
  RPageSourceChain_fromSources name sources options m = (m', Ok tt) →
  fNTupleName (this m') = name ∧ fOptions (this m') = options ∧
  fSources (this m') = clones_from (next_addr m) sources ∧
  fPageMapper (this m') = ∅ ∧
  next_addr m' = next_addr m + length sources ∧
  (∃ later, log m' = log m ++ clone_events (next_addr m) sources ++ later) ∧
  tables_built (fSources (this m')) (this m').
Proof.
  unfold RPageSourceChain_fromSources. intros Hrun.
  erewrite bind_ok in Hrun by reflexivity.
  erewrite bind_ok in Hrun by apply clone_all_run. simpl_chain.
  apply bind_inv_ok in Hrun as (m1 & [] & Hcmp & Hinit).
  match type of Hcmp with CompareFileMetaData ?mc = _ => set (m0 := mc) in * end.
  destruct (CompareFileMetaData_frame m0 eq_refl) as (m1' & Hcmp' & Hnext & [evs Hlog] & u & Hthis).
  rewrite Hcmp' in Hcmp. inversion Hcmp; subst m1'. clear Hcmp.
  apply InitializeVariables_ok in Hinit as (_ & Hout & Hbuilt).
  unfold outside_tables in Hout.
  injection Hout as Hn Ho Hd Hs Hu Hm Hl Ha.
  rewrite <- Hs in Hbuilt. rewrite Hthis in *. subst m0. simpl_chain.
  split_and!; try done; [lia |].
  exists evs. rewrite Hl, Hlog. by rewrite app_assoc.
Qed.

(** C5, as the code has it.  Clone leaves the chain it is called on as it
    was and returns a new chain with the same dataset name and read options,
    an empty tracker and tables built anew, whose source [i] is a new object
    (at the next free address) made by the Clone of source [i] of the
    original and attached: the log continues with one Clone and one Attach
    per source.  The sources are duplicated, none is shared. *)
Theorem Clone_duplicates_every_source (m m' : Machine) (c' : RPageSourceChain) :
  Clone m = (m', Ok c') →
  this m' = this m ∧
  fNTupleName c' = fNTupleName (this m) ∧
  fOptions c' = fOptions (this m) ∧
  fPageMapper c' = ∅ ∧
  tables_built (fSources c') c' ∧
  length (fSources c') = length (fSources (this m)) ∧
  (∀ i s, fSources (this m) !! i = Some s →
          fSources c' !! i = Some (at_addr (next_addr m + i) s)) ∧
  (∃ later, log m' = log m ++ clone_events (next_addr m) (fSources (this m)) ++ later) ∧
  (Forall (λ s, src_addr s < next_addr m) (fSources (this m)) →
   ∀ s s', s ∈ fSources (this m) → s' ∈ fSources c' → src_addr s' ≠ src_addr s).
Proof.
  unfold Clone. intros Hrun. erewrite bind_ok in Hrun by reflexivity.
  cbv zeta in Hrun. unfold make_unique in Hrun.
  destruct (RPageSourceChain_fromSources _ _ _ _) as [m1 [[]|e]] eqn:Hctor;
    inversion Hrun; subst; clear Hrun.
  apply fromSources_ok in Hctor as (Hn & Ho & Hs & Hm & Ha & Hlog & Hbuilt). simpl_chain.
  split_and!; try done.
  - by rewrite Hs, clones_from_length.
  - intros i s Hi. rewrite Hs. by apply clones_from_lookup.
  - intros Hfresh s s' Hin Hin'. rewrite Hs in Hin'.
    apply list_elem_of_lookup in Hin' as [i Hi].
    destruct (lookup_lt_is_Some_2 (fSources (this m)) i) as [s0 Hs0].
    { apply lookup_lt_Some in Hi. by rewrite clones_from_length in Hi. }
    rewrite (clones_from_lookup _ _ _ _ Hs0) in Hi. inversion Hi; subst. cbn.
    rewrite Forall_forall in Hfresh. specialize (Hfresh _ Hin). lia.
Qed.

Section EmptyChain.
Variable Create : string → string → RNTupleReadOptions → RPageSource.

(** C9, as the code has it.  No constructor checks for an empty list of
    sources.  On the empty list the comparison passes, and the construction
    fails inside InitializeVariables, after the entry and cluster tables
    were resized, with the [std::out_of_range] of [fSources.at(0)]. *)
Theorem constructors_leave_empty_list_to_InitializeVariables (ntupleName : string)
    (options : RNTupleReadOptions) (m : Machine) :
  let m0 := {| this := initChain ntupleName options []; log := log m; next_addr := next_addr m |} in
  let m' := after_empty_construction ntupleName options m in
  CompareFileMetaData m0 = (m0, Ok tt) ∧
  InitializeVariables m0 = (m', Err (StdOutOfRange "fSources.at")) ∧
  RPageSourceChain_fromOwned ntupleName [] options m = (m', Err (StdOutOfRange "fSources.at")) ∧
  RPageSourceChain_fromSources ntupleName [] options m = (m', Err (StdOutOfRange "fSources.at")) ∧
  RPageSourceChain_fromLocations Create ntupleName [] options m
    = (m', Err (StdOutOfRange "fSources.at")).
Proof. cbv zeta. split_and!; reflexivity. Qed.

End EmptyChain.

(** ** PopulatePage *)

(** The scan stops at the first boundary above [x]. *)
Lemma findSource_found what table x n : ∀ i0 i b m,
  i0 ≤ i < i0 + n →
  (∀ k, i0 ≤ k < i → ∃ bk, table !! (k + 1) = Some bk ∧ (bk ≤ x)%N) →
  table !! (i + 1) = Some b → (x < b)%N →
  findSource what table x n i0 m = (m, Ok i).
Proof.
  induction n as [|n IH]; intros i0 i b m Hi Hbelow Hb Hx; [lia |].
  cbn [findSource]. destruct (decide (i0 = i)) as [-> | Hne].
  - erewrite bind_ok by (apply vec_at_ok; eassumption).
    apply N.ltb_lt in Hx. by rewrite Hx.
  - destruct (Hbelow i0) as (bk & Hbk & Hle); [lia |].
    erewrite bind_ok by (apply vec_at_ok; eassumption).
    apply N.ltb_ge in Hle. rewrite Hle.
    apply (IH (S i0) i b); [lia | | done | done].
    intros k Hk. apply Hbelow. lia.
Qed.

Lemma findSource_beyond what table x n : ∀ i0 m,
  (∀ k, i0 ≤ k < i0 + n → ∃ bk, table !! (k + 1) = Some bk ∧ (bk ≤ x)%N) →
  findSource what table x n i0 m = (m, Ok (i0 + n)).
Proof.
  induction n as [|n IH]; intros i0 m Hbelow.
  - cbn. by rewrite Nat.add_0_r.
  - cbn [findSource]. destruct (Hbelow i0) as (bk & Hbk & Hle); [lia |].
    erewrite bind_ok by (apply vec_at_ok; eassumption).
    apply N.ltb_ge in Hle. rewrite Hle.
    replace (i0 + S n) with (S i0 + n) by lia. apply IH.
    intros k Hk. apply Hbelow. lia.
Qed.

(** A scan only looks, and what it returns is in [i0 .. i0 + n]. *)
Lemma findSource_pure what table x n : ∀ i0 m m' r,
  findSource what table x n i0 m = (m', r) →
  m' = m ∧ ∀ i, r = Ok i → i0 ≤ i ≤ i0 + n.
Proof.
  induction n as [|n IH]; intros i0 m m' r Hrun.
  - inversion Hrun; subst. split; [done |]. intros i [= <-]. lia.
  - cbn [findSource] in Hrun. rewrite bind_run in Hrun. unfold vec_at in Hrun.
    destruct (table !! (i0 + 1)) as [b|].
    + cbn in Hrun. destruct (x <? b)%N.
      * inversion Hrun; subst. split; [done |]. intros i [= <-]. lia.
      * apply IH in Hrun as [-> Hr]. split; [done |]. intros i Hi. apply Hr in Hi. lia.
    + inversion Hrun; subst. split; [done |]. intros i [=].
Qed.

Lemma rewindow_pure page i columnHandle clusterId m m' r :
  rewindow page i columnHandle clusterId m = (m', r) →
  m' = m ∧
  ∀ p, r = Ok p →
    ∃ cd range base,
      fClusterDescriptors (fDescriptor (this m)) !! N.to_nat clusterId = Some cd ∧
      fColumnRanges cd !! N.to_nat (fId columnHandle) = Some range ∧
      cell_at (fNElementsPerColumnPerSource (this m)) i (N.to_nat (fId columnHandle)) = Some base ∧
      p = SetWindow page (add64 (GetGlobalRangeFirst page) base)
            {| GetId := clusterId; GetSelfOffset := fFirstElementIndex range |}.
Proof.
  unfold rewindow, GetClusterDescriptor, GetColumnRange, cell_at. intros Hrun.
  erewrite bind_ok in Hrun by reflexivity.
  rewrite bind_run, vec_atN_run in Hrun.
  destruct (decide _) as [H1|]; [| inversion Hrun; subst; split; [done | intros ? [=]]].
  destruct (fClusterDescriptors _ !! _) as [cd|] eqn:Ecd;
    [| inversion Hrun; subst; split; [done | intros ? [=]]].
  rewrite bind_run, vec_atN_run in Hrun.
  destruct (decide _) as [H2|]; [| inversion Hrun; subst; split; [done | intros ? [=]]].
  destruct (fColumnRanges cd !! _) as [range|] eqn:Erange;
    [| inversion Hrun; subst; split; [done | intros ? [=]]].
  rewrite bind_run in Hrun. unfold vec_at in Hrun.
  destruct (fNElementsPerColumnPerSource (this m) !! i) as [row|] eqn:Erow;
    [| inversion Hrun; subst; split; [done | intros ? [=]]].
  cbn in Hrun. rewrite bind_run, vec_atN_run in Hrun.
  destruct (decide _) as [H3|]; [| inversion Hrun; subst; split; [done | intros ? [=]]].
  destruct (row !! _) as [base|] eqn:Ebase;
    [| inversion Hrun; subst; split; [done | intros ? [=]]].
  inversion Hrun; subst. split; [done |]. intros p [= <-].
  exists cd, range, base. cbn. done.
Qed.

Section Dispatching.
Variable FindClusterId : RNTupleDescriptor → N → N → N.

Lemma from_source_ok {A B} (answer : Result A) (a : A) (k : A → Exec B) m :
  answer = Ok a → (from_source answer ≫= k) m = k a m.
Proof. by intros ->. Qed.

Lemma from_source_err {A B} (answer : Result A) e (k : A → Exec B) m :
  answer = Err e → (from_source answer ≫= k) m = (m, Err (SourceFailure e)).
Proof. by intros ->. Qed.

(** Up to the call on the source. *)
Lemma PopulatePage_call columnHandle g m i s b :
  findSource "fNEntryPerSource.at" (fNEntryPerSource (this m)) g (length (fSources (this m))) 0 m
    = (m, Ok i) →
  fSources (this m) !! i = Some s → fNEntryPerSource (this m) !! i = Some b →
  PopulatePage FindClusterId columnHandle g m =
  let localIndex := sub64 g b in
  (page ← from_source (SourcePopulateByEntry s (log m) columnHandle localIndex);
   modify_this (λ c, set_fPageMapper (emplace (GetBuffer page) i (fPageMapper c)) c);;
   c ← get_this;
   rewindow page i columnHandle (FindClusterId (fDescriptor c) (fId columnHandle) g))
    (log_more [EvPopulateByEntry i columnHandle localIndex] m).
Proof.
  intros Hscan Hs Hb. unfold PopulatePage.
  erewrite bind_ok by reflexivity. erewrite bind_ok by exact Hscan.
  assert (Hi : i ≠ length (fSources (this m))).
  { apply lookup_lt_Some in Hs. lia. }
  rewrite bool_decide_eq_true_2 by done. cbn [R__ASSERT]. exec. cbv zeta. exec.
  reflexivity.
Qed.

Lemma PopulatePageCluster_call columnHandle clusterIndex m i s b :
  findSource "fNClusterPerSource.at" (fNClusterPerSource (this m)) (GetClusterId clusterIndex)
    (length (fSources (this m))) 0 m = (m, Ok i) →
  fSources (this m) !! i = Some s → fNClusterPerSource (this m) !! i = Some b →
  PopulatePageCluster columnHandle clusterIndex m =
  let newClusterIndex := {| GetClusterId := sub64 (GetClusterId clusterIndex) b;
                            GetIndex := GetIndex clusterIndex |} in
  (page ← from_source (SourcePopulateByCluster s (log m) columnHandle newClusterIndex);
   modify_this (λ c, set_fPageMapper (emplace (GetBuffer page) i (fPageMapper c)) c);;
   rewindow page i columnHandle (GetClusterId clusterIndex))
    (log_more [EvPopulateByCluster i columnHandle newClusterIndex] m).
Proof.
  intros Hscan Hs Hb. unfold PopulatePageCluster. cbv zeta.
  erewrite bind_ok by reflexivity. erewrite bind_ok by exact Hscan.
  assert (Hi : i ≠ length (fSources (this m))).
  { apply lookup_lt_Some in Hs. lia. }
  rewrite bool_decide_eq_true_2 by done. cbn [R__ASSERT]. exec.
  reflexivity.
Qed.

Lemma PopulatePage_at columnHandle g m i s b page :
  findSource "fNEntryPerSource.at" (fNEntryPerSource (this m)) g (length (fSources (this m))) 0 m
    = (m, Ok i) →
  fSources (this m) !! i = Some s → fNEntryPerSource (this m) !! i = Some b →
  SourcePopulateByEntry s (log m) columnHandle (sub64 g b) = Ok page →
  PopulatePage FindClusterId columnHandle g m =
  rewindow page i columnHandle (FindClusterId (fDescriptor (this m)) (fId columnHandle) g)
    (after_populate (EvPopulateByEntry i columnHandle (sub64 g b)) page i m).
Proof.
  intros Hscan Hs Hb Hpage. rewrite (PopulatePage_call _ _ _ _ _ _ Hscan Hs Hb). cbv zeta.
  rewrite (from_source_ok _ page) by exact Hpage. exec. reflexivity.
Qed.

Lemma PopulatePage_at_err columnHandle g m i s b e :
  findSource "fNEntryPerSource.at" (fNEntryPerSource (this m)) g (length (fSources (this m))) 0 m
    = (m, Ok i) →
  fSources (this m) !! i = Some s → fNEntryPerSource (this m) !! i = Some b →
  SourcePopulateByEntry s (log m) columnHandle (sub64 g b) = Err e →
  PopulatePage FindClusterId columnHandle g m =
  (log_more [EvPopulateByEntry i columnHandle (sub64 g b)] m, Err (SourceFailure e)).
Proof.
  intros Hscan Hs Hb Hfail. rewrite (PopulatePage_call _ _ _ _ _ _ Hscan Hs Hb). cbv zeta.
  by rewrite (from_source_err _ e) by exact Hfail.
Qed.

Lemma PopulatePageCluster_at columnHandle clusterIndex m i s b page :
  findSource "fNClusterPerSource.at" (fNClusterPerSource (this m)) (GetClusterId clusterIndex)
    (length (fSources (this m))) 0 m = (m, Ok i) →
  fSources (this m) !! i = Some s → fNClusterPerSource (this m) !! i = Some b →
  SourcePopulateByCluster s (log m) columnHandle
    {| GetClusterId := sub64 (GetClusterId clusterIndex) b; GetIndex := GetIndex clusterIndex |}
    = Ok page →
  PopulatePageCluster columnHandle clusterIndex m =
  rewindow page i columnHandle (GetClusterId clusterIndex)
    (after_populate
       (EvPopulateByCluster i columnHandle
          {| GetClusterId := sub64 (GetClusterId clusterIndex) b;
             GetIndex := GetIndex clusterIndex |}) page i m).
Proof.
  intros Hscan Hs Hb Hpage. rewrite (PopulatePageCluster_call _ _ _ _ _ _ Hscan Hs Hb). cbv zeta.
  rewrite (from_source_ok _ page) by exact Hpage. exec. reflexivity.
Qed.

Lemma PopulatePageCluster_at_err columnHandle clusterIndex m i s b e :
  findSource "fNClusterPerSource.at" (fNClusterPerSource (this m)) (GetClusterId clusterIndex)
    (length (fSources (this m))) 0 m = (m, Ok i) →
  fSources (this m) !! i = Some s → fNClusterPerSource (this m) !! i = Some b →
  SourcePopulateByCluster s (log m) columnHandle
    {| GetClusterId := sub64 (GetClusterId clusterIndex) b; GetIndex := GetIndex clusterIndex |}
    = Err e →
  PopulatePageCluster columnHandle clusterIndex m =
  (log_more
     [EvPopulateByCluster i columnHandle
        {| GetClusterId := sub64 (GetClusterId clusterIndex) b;
           GetIndex := GetIndex clusterIndex |}] m,
   Err (SourceFailure e)).
Proof.
  intros Hscan Hs Hb Hfail. rewrite (PopulatePageCluster_call _ _ _ _ _ _ Hscan Hs Hb). cbv zeta.
  by rewrite (from_source_err _ e) by exact Hfail.
Qed.

(** A dispatch that returns a page found a source and its base, and the
    source answered with a page. *)
Lemma PopulatePage_ok_inv columnHandle g m m' p :
  PopulatePage FindClusterId columnHandle g m = (m', Ok p) →
  ∃ i s b page,
    findSource "fNEntryPerSource.at" (fNEntryPerSource (this m)) g (length (fSources (this m))) 0 m
      = (m, Ok i) ∧
    fSources (this m) !! i = Some s ∧ fNEntryPerSource (this m) !! i = Some b ∧
    SourcePopulateByEntry s (log m) columnHandle (sub64 g b) = Ok page.
Proof.
  intros Hrun. pose proof Hrun as Hrun0. unfold PopulatePage in Hrun.
  erewrite bind_ok in Hrun by reflexivity.
  apply bind_inv_ok in Hrun as (m1 & i & Hscan & Hrun).
  destruct (findSource_pure _ _ _ _ _ _ _ _ Hscan) as [-> Hrange].
  apply bind_inv_ok in Hrun as (m2 & [] & Hassert & Hrun).
  unfold R__ASSERT in Hassert. case_bool_decide as Hi; [| discriminate].
  inversion Hassert; subst.
  apply bind_inv_ok in Hrun as (m3 & s & Hs & Hrun).
  unfold source_at in Hs. erewrite bind_ok in Hs by reflexivity. unfold vec_at in Hs.
  destruct (fSources (this m2) !! i) as [s'|] eqn:Hsi; [| discriminate].
  inversion Hs; subst.
  apply bind_inv_ok in Hrun as (m4 & b & Hb & Hrun).
  unfold vec_at in Hb. destruct (fNEntryPerSource (this m3) !! i) as [b'|] eqn:Hbi; [| discriminate].
  inversion Hb; subst. clear Hrun Hs Hb Hassert.
  match type of Hsi with
  | fSources (this ?mm) !! _ = Some ?ss =>
      destruct (SourcePopulateByEntry ss (log mm) columnHandle (sub64 g b)) as [page | e]
        eqn:Hanswer
  end.
  - eauto 10.
  - rewrite (PopulatePage_at_err _ _ _ _ _ _ _ Hscan Hsi Hbi Hanswer) in Hrun0.
    discriminate Hrun0.
Qed.

Lemma PopulatePageCluster_ok_inv columnHandle clusterIndex m m' p :
  PopulatePageCluster columnHandle clusterIndex m = (m', Ok p) →
  ∃ i s b page,
    findSource "fNClusterPerSource.at" (fNClusterPerSource (this m)) (GetClusterId clusterIndex)
      (length (fSources (this m))) 0 m = (m, Ok i) ∧
    fSources (this m) !! i = Some s ∧ fNClusterPerSource (this m) !! i = Some b ∧
    SourcePopulateByCluster s (log m) columnHandle
      {| GetClusterId := sub64 (GetClusterId clusterIndex) b; GetIndex := GetIndex clusterIndex |}
      = Ok page.
Proof.
  intros Hrun. pose proof Hrun as Hrun0. unfold PopulatePageCluster in Hrun. cbv zeta in Hrun.
  erewrite bind_ok in Hrun by reflexivity.
  apply bind_inv_ok in Hrun as (m1 & i & Hscan & Hrun).
  destruct (findSource_pure _ _ _ _ _ _ _ _ Hscan) as [-> Hrange].
  apply bind_inv_ok in Hrun as (m2 & [] & Hassert & Hrun).
  unfold R__ASSERT in Hassert. case_bool_decide as Hi; [| discriminate].
  inversion Hassert; subst.
  apply bind_inv_ok in Hrun as (m3 & b & Hb & Hrun).
  unfold vec_at in Hb. destruct (fNClusterPerSource (this m2) !! i) as [b'|] eqn:Hbi; [| discriminate].
  inversion Hb; subst.
  apply bind_inv_ok in Hrun as (m4 & s & Hs & Hrun).
  unfold source_at in Hs. erewrite bind_ok in Hs by reflexivity. unfold vec_at in Hs.
  destruct (fSources (this m3) !! i) as [s'|] eqn:Hsi; [| discriminate].
  inversion Hs; subst. clear Hrun Hs Hb Hassert.
  match type of Hsi with
  | fSources (this ?mm) !! _ = Some ?ss =>
      destruct (SourcePopulateByCluster ss (log mm) columnHandle
                  {| GetClusterId := sub64 (GetClusterId clusterIndex) b;
                     GetIndex := GetIndex clusterIndex |}) as [page | e] eqn:Hanswer
  end.
  - eauto 10.
  - rewrite (PopulatePageCluster_at_err _ _ _ _ _ _ _ Hscan Hsi Hbi Hanswer) in Hrun0.
    discriminate Hrun0.
Qed.

End Dispatching.

Section DispatchTheorems.
Variable FindClusterId : RNTupleDescriptor → N → N → N.

(** C1.  In a chain whose tables InitializeVariables built, take a global
    entry index [g] with [entryBase i <= g < entryBase (i+1)], where
    [entryBase i] is the sum of the entry counts of the sources [0 .. i-1]
    and the sum up to source [i] fits 64 bits.  Then PopulatePage makes
    exactly one call on a source: on source [i], with the local entry index
    [g - entryBase i].  When the source answers with a page, that page is
    the one tracked and, when the dispatch returns a page, the one returned;
    when the read fails in the source, that failure is the outcome and
    nothing is tracked. *)
Theorem PopulatePage_delegates_to_owner columnHandle (g : N) (m : Machine) (i : nat)
    (s : RPageSource) :
  let srcs := fSources (this m) in
  tables_built srcs (this m) →
  srcs !! i = Some s →
  (entryBase srcs i ≤ g)%N → (g < entryBase srcs (S i))%N →
  (entryBase srcs (S i) < two64)%N →
  let localIndex := (g - entryBase srcs i)%N in
  let answer := SourcePopulateByEntry s (log m) columnHandle localIndex in
  ∃ m' r,
    PopulatePage FindClusterId columnHandle g m = (m', r) ∧
    log m' = log m ++ [EvPopulateByEntry i columnHandle localIndex] ∧
    (∀ page, answer = Ok page →
       fPageMapper (this m') = emplace (GetBuffer page) i (fPageMapper (this m)) ∧
       ∀ p, r = Ok p → GetBuffer p = GetBuffer page ∧ GetNElements p = GetNElements page) ∧
    (∀ e, answer = Err e →
       r = Err (SourceFailure e) ∧ fPageMapper (this m') = fPageMapper (this m)).
Proof.
  intros srcs (HlE & HlC & Htab & _) Hs Hlo Hhi Hfit localIndex answer.
  assert (Hi : i < length srcs) by (by eapply lookup_lt_Some).
  destruct (Htab i) as [HEi _]; [lia |].
  destruct (Htab (S i)) as [HESi _]; [lia |].
  assert (Hscan : findSource "fNEntryPerSource.at" (fNEntryPerSource (this m)) g
                    (length (fSources (this m))) 0 m = (m, Ok i)).
  { apply (findSource_found _ _ _ _ 0 i (entryBase srcs (S i))); [fold srcs; lia | | | done].
    - intros k Hk. destruct (Htab (k + 1)) as [HEk _]; [lia |].
      eexists. split; [exact HEk |].
      pose proof (entryBase_mono srcs (k + 1) i ltac:(lia)).
      pose proof (N.Div0.mod_le (entryBase srcs (k + 1)) two64). lia.
    - replace (i + 1) with (S i) by lia. rewrite HESi. f_equal. by apply N.mod_small. }
  assert (Hlocal : sub64 g (entryBase srcs i mod two64) = localIndex)
    by (apply sub64_exact; lia).
  destruct answer as [page | e] eqn:Hanswer.
  - rewrite (PopulatePage_at FindClusterId _ _ _ _ _ _ page Hscan Hs HEi)
      by (rewrite Hlocal; exact Hanswer).
    rewrite Hlocal.
    destruct (rewindow page i columnHandle
                (FindClusterId (fDescriptor (this m)) (fId columnHandle) g)
                (after_populate (EvPopulateByEntry i columnHandle localIndex) page i m))
      as [m' r] eqn:Hrw.
    apply rewindow_pure in Hrw as [-> Hr]. eexists _, r. split; [reflexivity |].
    split_and!; [done | | intros e [=]].
    intros page' [= <-]. split; [done |].
    intros p Hp. destruct (Hr p Hp) as (cd & range & base & _ & _ & _ & ->). done.
  - rewrite (PopulatePage_at_err FindClusterId _ _ _ _ _ _ e Hscan Hs HEi)
      by (rewrite Hlocal; exact Hanswer).
    rewrite Hlocal. eexists _, _. split; [reflexivity |].
    split_and!; [done | intros page [=] |]. by intros e' [= <-].
Qed.


(** C7, as the code has it.  In a chain whose tables InitializeVariables
    built, a dispatch whose global entry index is at least the total number
    of entries, or whose global cluster id is at least the total number of
    clusters, ends in the fatal assertion of the range check, [R__ASSERT]
    with the message of the check: an abort through [::Fatal], as for the
    release of an untracked page, and no error value of a kind of its own.
    The machine is left as it was: no source is called, nothing is tracked,
    and no access of the scan is out of bounds. *)
Theorem Dispatch_beyond_total_fails columnHandle (req : PageRequest) (m : Machine) :
  tables_built (fSources (this m)) (this m) →
  beyond_total (fSources (this m)) req →
  Dispatch FindClusterId columnHandle req m = (m, Err (FatalAssert (range_message req))).
Proof.
  intros (HlE & HlC & Htab & _) Hbeyond.
  destruct req as [g | clusterIndex]; cbn [Dispatch beyond_total range_message] in *.
  - unfold PopulatePage. erewrite bind_ok by reflexivity.
    erewrite bind_ok.
    2: { apply findSource_beyond. intros k Hk. destruct (Htab (k + 1)) as [HEk _]; [lia |].
         eexists. split; [exact HEk |].
         pose proof (entryBase_mono (fSources (this m)) (k + 1) (length (fSources (this m)))
                       ltac:(lia)).
         pose proof (N.Div0.mod_le (entryBase (fSources (this m)) (k + 1)) two64). lia. }
    cbn [Nat.add]. rewrite bool_decide_eq_false_2 by (intros H; by apply H).
    reflexivity.
  - unfold PopulatePageCluster. cbv zeta. erewrite bind_ok by reflexivity.
    erewrite bind_ok.
    2: { apply findSource_beyond. intros k Hk. destruct (Htab (k + 1)) as [_ HCk]; [lia |].
         eexists. split; [exact HCk |].
         pose proof (clusterBase_mono (fSources (this m)) (k + 1) (length (fSources (this m)))
                       ltac:(lia)).
         pose proof (N.Div0.mod_le (clusterBase (fSources (this m)) (k + 1)) two64). lia. }
    cbn [Nat.add]. rewrite bool_decide_eq_false_2 by (intros H; by apply H).
    reflexivity.
Qed.

(** C3.  Whenever a dispatch, by global entry index or by cluster index,
    returns a page, it made one call on some source [i], and the first
    element of the returned page is the first element of the page source
    [i] answered with plus [fNElementsPerColumnPerSource[i][c]] for the
    requested column [c], in 64-bit unsigned arithmetic (the plain sum when
    it fits). *)
Theorem Dispatch_rewindows_by_element_base columnHandle (req : PageRequest)
    (m m' : Machine) (p : RPage) :
  Dispatch FindClusterId columnHandle req m = (m', Ok p) →
  ∃ i s ev sourcePage base,
    fSources (this m) !! i = Some s ∧
    log m' = log m ++ [ev] ∧
    delegated req columnHandle i s (log m) ev sourcePage ∧
    cell_at (fNElementsPerColumnPerSource (this m)) i (N.to_nat (fId columnHandle)) = Some base ∧
    GetGlobalRangeFirst p = add64 (GetGlobalRangeFirst sourcePage) base ∧
    ((GetGlobalRangeFirst sourcePage + base < two64)%N →
     GetGlobalRangeFirst p = (GetGlobalRangeFirst sourcePage + base)%N).
Proof.
  intros Hrun. destruct req as [g | clusterIndex]; cbn [Dispatch] in Hrun.
  - destruct (PopulatePage_ok_inv _ _ _ _ _ _ Hrun) as (i & s & b & page & Hscan & Hs & Hb & Hpage).
    rewrite (PopulatePage_at FindClusterId _ _ _ _ _ _ _ Hscan Hs Hb Hpage) in Hrun.
    apply rewindow_pure in Hrun as [-> Hr].
    destruct (Hr p eq_refl) as (cd & range & base & _ & _ & Hbase & ->).
    eexists i, s, _, page, base. split_and!; try done.
    + cbn. eauto.
    + intros Hfit. cbn. unfold add64. by apply N.mod_small.
  - destruct (PopulatePageCluster_ok_inv _ _ _ _ _ Hrun)
      as (i & s & b & page & Hscan & Hs & Hb & Hpage).
    rewrite (PopulatePageCluster_at _ _ _ _ _ _ _ Hscan Hs Hb Hpage) in Hrun.
    apply rewindow_pure in Hrun as [-> Hr].
    destruct (Hr p eq_refl) as (cd & range & base & _ & _ & Hbase & ->).
    eexists i, s, _, page, base. split_and!; try done.
    + cbn. eauto.
    + intros Hfit. cbn. unfold add64. by apply N.mod_small.
Qed.

End DispatchTheorems.

(** ** ReleasePage *)

Lemma find_in_mapper (mapper : gmap N nat) (buffer : N) :
  match list_find (λ kv : N * nat, kv.1 = buffer) (map_to_list mapper) with
  | Some (_, (key, sourceIndex)) => key = buffer ∧ mapper !! buffer = Some sourceIndex
  | None => mapper !! buffer = None
  end.
Proof.
  destruct (list_find _ _) as [[idx [key i]]|] eqn:Hfind.
  - apply list_find_Some in Hfind as (Hlk & Hkey & _). cbn in Hkey. subst key.
    split; [done |]. apply elem_of_map_to_list. by eapply list_elem_of_lookup_2.
  - apply list_find_None in Hfind. destruct (mapper !! buffer) as [i|] eqn:Hlk; [| done].
    apply elem_of_map_to_list in Hlk.
    rewrite Forall_forall in Hfind. specialize (Hfind _ Hlk). cbn in Hfind. done.
Qed.

Lemma ReleasePage_null page m : IsNull page = true → ReleasePage page m = (m, Ok tt).
Proof. intros H. unfold ReleasePage. by rewrite H. Qed.

Lemma ReleasePage_tracked page m i :
  IsNull page = false → fPageMapper (this m) !! GetBuffer page = Some i →
  i < length (fSources (this m)) →
  ReleasePage page m = (after_release i page m, Ok tt).
Proof.
  intros Hnull Htracked Hi. unfold ReleasePage. rewrite Hnull.
  erewrite bind_ok by reflexivity.
  pose proof (find_in_mapper (fPageMapper (this m)) (GetBuffer page)) as Hfind.
  destruct (list_find _ _) as [[idx [key j]]|]; [| congruence].
  destruct Hfind as [-> Hj]. assert (j = i) as -> by congruence.
  destruct (lookup_lt_is_Some_2 _ _ Hi) as [s Hs].
  exec. reflexivity.
Qed.

Lemma ReleasePage_untracked page m :
  IsNull page = false → fPageMapper (this m) !! GetBuffer page = None →
  ReleasePage page m = (m, Err (FatalAssert msgRelease)).
Proof.
  intros Hnull Hnone. unfold ReleasePage. rewrite Hnull.
  erewrite bind_ok by reflexivity.
  pose proof (find_in_mapper (fPageMapper (this m)) (GetBuffer page)) as Hfind.
  destruct (list_find _ _) as [[idx [key j]]|]; [| reflexivity].
  destruct Hfind as [_ Hj]. congruence.
Qed.

Lemma lookup_emplace_same (mapper : gmap N nat) k v : is_Some (emplace k v mapper !! k).
Proof.
  unfold emplace. destruct (mapper !! k) as [w|] eqn:Hk.
  - rewrite Hk. eauto.
  - rewrite lookup_insert_eq. eauto.
Qed.

Lemma lookup_emplace (mapper : gmap N nat) k v k' w :
  emplace k v mapper !! k' = Some w → mapper !! k' = Some w ∨ (k' = k ∧ w = v).
Proof.
  unfold emplace. destruct (mapper !! k) as [u|] eqn:Hk; [by left |].
  destruct (decide (k = k')) as [-> | Hne].
  - rewrite lookup_insert_eq. intros [= <-]. by right.
  - rewrite lookup_insert_ne by done. by left.
Qed.

(** Releasing keeps the tracker naming sources of the chain. *)
Lemma ReleasePage_keeps_tracker_valid page m m' r :
  ReleasePage page m = (m', r) → tracker_valid m → tracker_valid m'.
Proof.
  intros Hrun Hvalid. destruct (IsNull page) eqn:Hnull.
  { rewrite ReleasePage_null in Hrun by done. by inversion Hrun; subst. }
  destruct (fPageMapper (this m) !! GetBuffer page) as [i|] eqn:Hi.
  - rewrite (ReleasePage_tracked page m i) in Hrun; [| done | done | by eapply Hvalid].
    inversion Hrun; subst. unfold tracker_valid. cbn.
    by apply map_Forall_delete.
  - rewrite ReleasePage_untracked in Hrun by done. by inversion Hrun; subst.
Qed.

Section Releasing.
Variable FindClusterId : RNTupleDescriptor → N → N → N.

(** A successful dispatch leaves the returned page tracked, under an index
    of the chain. *)
Lemma Dispatch_tracks columnHandle req m0 m page :
  Dispatch FindClusterId columnHandle req m0 = (m, Ok page) →
  is_Some (fPageMapper (this m) !! GetBuffer page) ∧
  fSources (this m) = fSources (this m0) ∧
  (tracker_valid m0 → tracker_valid m).
Proof.
  intros Hrun. destruct req as [g | clusterIndex]; cbn [Dispatch] in Hrun.
  - destruct (PopulatePage_ok_inv _ _ _ _ _ _ Hrun)
      as (i & s & b & page0 & Hscan & Hs & Hb & Hpage).
    rewrite (PopulatePage_at FindClusterId _ _ _ _ _ _ _ Hscan Hs Hb Hpage) in Hrun.
    apply rewindow_pure in Hrun as [-> Hr].
    destruct (Hr page eq_refl) as (cd & range & base & _ & _ & _ & ->).
    cbn. split_and!; [apply lookup_emplace_same | done |].
    intros Hvalid buffer j [Hj | [_ ->]]%lookup_emplace; [by eapply Hvalid |].
    by eapply lookup_lt_Some.
  - destruct (PopulatePageCluster_ok_inv _ _ _ _ _ Hrun)
      as (i & s & b & page0 & Hscan & Hs & Hb & Hpage).
    rewrite (PopulatePageCluster_at _ _ _ _ _ _ _ Hscan Hs Hb Hpage) in Hrun.
    apply rewindow_pure in Hrun as [-> Hr].
    destruct (Hr page eq_refl) as (cd & range & base & _ & _ & _ & ->).
    cbn. split_and!; [apply lookup_emplace_same | done |].
    intros Hvalid buffer j [Hj | [_ ->]]%lookup_emplace; [by eapply Hvalid |].
    by eapply lookup_lt_Some.
Qed.

(** C6.  In a chain whose tracker names sources of the chain: releasing a
    null page does nothing; releasing a non-null page tracked under source
    [i] calls ReleasePage of source [i] and erases the entry, after which the
    buffer is not tracked and a second release of the page ends in the fatal
    assertion; releasing a non-null page that is not tracked ends in the
    fatal assertion; and the page a dispatch has just returned is tracked, so
    that populate followed by release leaves its buffer out of the tracker. *)
Theorem ReleasePage_routes_and_forgets (page : RPage) (m : Machine) :
  tracker_valid m →
  (IsNull page = true → ReleasePage page m = (m, Ok tt)) ∧
  (IsNull page = false →
   ∀ i, fPageMapper (this m) !! GetBuffer page = Some i →
        ReleasePage page m = (after_release i page m, Ok tt) ∧
        fPageMapper (this (after_release i page m)) !! GetBuffer page = None ∧
        ReleasePage page (after_release i page m)
          = (after_release i page m, Err (FatalAssert msgRelease))) ∧
  (IsNull page = false → fPageMapper (this m) !! GetBuffer page = None →
   ReleasePage page m = (m, Err (FatalAssert msgRelease))) ∧
  (IsNull page = false →
   ∀ columnHandle req m0,
     Dispatch FindClusterId columnHandle req m0 = (m, Ok page) →
     ∃ i, ReleasePage page m = (after_release i page m, Ok tt) ∧
          fPageMapper (this (after_release i page m)) !! GetBuffer page = None).
Proof.
  intros Hvalid. split_and!.
  - apply ReleasePage_null.
  - intros Hnull i Hi. split_and!.
    + apply ReleasePage_tracked; [done | done | by eapply Hvalid].
    + cbn. apply lookup_delete_eq.
    + apply ReleasePage_untracked; [done |]. cbn. apply lookup_delete_eq.
  - apply ReleasePage_untracked.
  - intros Hnull columnHandle req m0 Hrun.
    destruct (Dispatch_tracks _ _ _ _ _ Hrun) as ([i Hi] & _ & _).
    exists i. split.
    + apply ReleasePage_tracked; [done | done | by eapply Hvalid].
    + cbn. apply lookup_delete_eq.
Qed.

End Releasing.

(** ** What dispatch and release leave as it is *)

Create HintDb keeps discriminated.

Lemma keeps_bind {A B} (c : Exec A) (k : A → Exec B) :
  keeps_construction c → (∀ a, keeps_construction (k a)) → keeps_construction (c ≫= k).
Proof.
  intros Hc Hk m m' r Hrun. rewrite bind_run in Hrun.
  destruct (c m) as [m1 [a|e]] eqn:Hcm.
  - rewrite (Hk a _ _ _ Hrun). by eapply Hc.
  - inversion Hrun; subst. by eapply Hc.
Qed.

Lemma keeps_pure {A} (c : Exec A) : (∀ m, ∃ r, c m = (m, r)) → keeps_construction c.
Proof. intros H m m' r Hrun. destruct (H m) as [r' Hr]. congruence. Qed.

Lemma keeps_mret {A} (a : A) : keeps_construction (mret a).
Proof. apply keeps_pure. intros m. by eexists. Qed.

Lemma keeps_throw {A} e : keeps_construction (@throw A e).
Proof. apply keeps_pure. intros m. by eexists. Qed.

Lemma keeps_get_this : keeps_construction get_this.
Proof. apply keeps_pure. intros m. by eexists. Qed.

Lemma keeps_get_log : keeps_construction get_log.
Proof. apply keeps_pure. intros m. by eexists. Qed.

Lemma keeps_emit ev : keeps_construction (emit ev).
Proof. intros m m' r [= <- _]. reflexivity. Qed.

Lemma keeps_track f : keeps_construction (modify_this (λ c, set_fPageMapper (f c) c)).
Proof. intros m m' r [= <- _]. reflexivity. Qed.

Lemma keeps_vec_at {A} what (v : list A) i : keeps_construction (vec_at what v i).
Proof. unfold vec_at. destruct (v !! i); [apply keeps_mret | apply keeps_throw]. Qed.

Lemma keeps_vec_atN {A} what (v : list A) i : keeps_construction (vec_atN what v i).
Proof. unfold vec_atN. destruct (decide _); [apply keeps_vec_at | apply keeps_throw]. Qed.

Lemma keeps_R__ASSERT cond msg : keeps_construction (R__ASSERT cond msg).
Proof. unfold R__ASSERT. destruct cond; [apply keeps_mret | apply keeps_throw]. Qed.

Lemma keeps_from_source {A} (answer : Result A) : keeps_construction (from_source answer).
Proof. destruct answer; [apply keeps_mret | apply keeps_throw]. Qed.

Lemma keeps_findSource what table x n i0 : keeps_construction (findSource what table x n i0).
Proof. intros m m' r Hrun. by apply findSource_pure in Hrun as [-> _]. Qed.

#[local] Hint Resolve keeps_mret keeps_throw keeps_get_this keeps_get_log keeps_emit keeps_track
  keeps_vec_at keeps_vec_atN keeps_R__ASSERT keeps_from_source keeps_findSource : keeps.
#[local] Hint Extern 1 (keeps_construction (_ ≫= _)) => apply keeps_bind; [| intros ?] : keeps.

Lemma keeps_source_at i : keeps_construction (source_at i).
Proof. unfold source_at. auto with keeps. Qed.
#[local] Hint Resolve keeps_source_at : keeps.

Lemma keeps_rewindow page i columnHandle clusterId :
  keeps_construction (rewindow page i columnHandle clusterId).
Proof. intros m m' r Hrun. by apply rewindow_pure in Hrun as [-> _]. Qed.
#[local] Hint Resolve keeps_rewindow : keeps.

Lemma keeps_ReleasePage page : keeps_construction (ReleasePage page).
Proof.
  unfold ReleasePage. destruct (IsNull page); [apply keeps_mret |].
  apply keeps_bind; [apply keeps_get_this |]. intros c.
  destruct (list_find _ _) as [[idx [key i]]|]; auto 10 with keeps.
Qed.

Section KeepsDispatch.
Variable FindClusterId : RNTupleDescriptor → N → N → N.

Lemma keeps_Dispatch columnHandle req :
  keeps_construction (Dispatch FindClusterId columnHandle req).
Proof.
  destruct req; cbn [Dispatch]; unfold PopulatePage, PopulatePageCluster; cbv zeta;
    auto 20 with keeps.
Qed.

End KeepsDispatch.

(** The tables stay those InitializeVariables built. *)
Lemma tables_built_kept m m' :
  construction m' = construction m →
  tables_built (fSources (this m)) (this m) → tables_built (fSources (this m')) (this m').
Proof.
  unfold construction. intros [= _ _ _ Hs _ HE HC HT _].
  unfold tables_built. by rewrite Hs, HE, HC, HT.
Qed.

(** * Further properties *)

(** ** InitializeVariables: outcome, frame, and what the tables depend on *)

Create HintDb tables discriminated.

Lemma tot_bind {A B} (c : Exec A) (k : A → Exec B) :
  touches_only_tables c → (∀ a, touches_only_tables (k a)) → touches_only_tables (c ≫= k).
Proof.
  intros Hc Hk m m' r Hrun. rewrite bind_run in Hrun.
  destruct (c m) as [m1 [a|e]] eqn:Hcm.
  - rewrite (Hk a _ _ _ Hrun). by eapply Hc.
  - inversion Hrun; subst. by eapply Hc.
Qed.

Lemma tot_pure {A} (c : Exec A) : (∀ m, ∃ r, c m = (m, r)) → touches_only_tables c.
Proof. intros H m m' r Hrun. destruct (H m) as [r' Hr]. congruence. Qed.

Lemma tot_mret {A} (a : A) : touches_only_tables (mret a).
Proof. apply tot_pure. intros m. by eexists. Qed.

Lemma tot_throw {A} e : touches_only_tables (@throw A e).
Proof. apply tot_pure. intros m. by eexists. Qed.

Lemma tot_get_this : touches_only_tables get_this.
Proof. apply tot_pure. intros m. by eexists. Qed.

Lemma tot_vec_at {A} what (v : list A) i : touches_only_tables (vec_at what v i).
Proof. unfold vec_at. destruct (v !! i); [apply tot_mret | apply tot_throw]. Qed.

Lemma tot_vec_atN {A} what (v : list A) i : touches_only_tables (vec_atN what v i).
Proof. unfold vec_atN. destruct (decide _); [apply tot_vec_at | apply tot_throw]. Qed.

Lemma tot_vec_set {A} what (v : list A) i x : touches_only_tables (vec_set what v i x).
Proof. unfold vec_set. destruct (decide _); [apply tot_mret | apply tot_throw]. Qed.

Lemma tot_set_entries f :
  touches_only_tables (modify_this (λ c, set_fNEntryPerSource (f c) c)).
Proof. intros m m' r [= <- _]. reflexivity. Qed.

Lemma tot_set_clusters f :
  touches_only_tables (modify_this (λ c, set_fNClusterPerSource (f c) c)).
Proof. intros m m' r [= <- _]. reflexivity. Qed.

Lemma tot_set_elements f :
  touches_only_tables (modify_this (λ c, set_fNElementsPerColumnPerSource (f c) c)).
Proof. intros m m' r [= <- _]. reflexivity. Qed.

Lemma tot_set_entries' v : touches_only_tables (modify_this (set_fNEntryPerSource v)).
Proof. intros m m' r [= <- _]. reflexivity. Qed.

Lemma tot_set_clusters' v : touches_only_tables (modify_this (set_fNClusterPerSource v)).
Proof. intros m m' r [= <- _]. reflexivity. Qed.

Lemma tot_set_elements' v :
  touches_only_tables (modify_this (set_fNElementsPerColumnPerSource v)).
Proof. intros m m' r [= <- _]. reflexivity. Qed.

Lemma tot_for body n : (∀ k, touches_only_tables (body k)) →
  ∀ i, touches_only_tables (for_ n i body).
Proof.
  intros Hbody. induction n as [|n IH]; intros i; cbn [for_].
  - apply tot_mret.
  - apply tot_bind; [done |]. intros [|]; [apply tot_mret | apply IH].
Qed.

#[local] Hint Resolve tot_mret tot_throw tot_get_this tot_vec_at tot_vec_atN tot_vec_set
  tot_set_entries tot_set_clusters tot_set_elements tot_set_entries' tot_set_clusters'
  tot_set_elements' tot_for : tables.
#[local] Hint Extern 1 (touches_only_tables (_ ≫= _)) => apply tot_bind; [| intros ?] : tables.

Lemma tot_source_at i : touches_only_tables (source_at i).
Proof. unfold source_at. auto with tables. Qed.
#[local] Hint Resolve tot_source_at : tables.

Lemma tot_vec_set2 {A} what (T : list (list A)) i j x :
  touches_only_tables (vec_set2 what T i j x).
Proof. unfold vec_set2. auto 10 with tables. Qed.
#[local] Hint Resolve tot_vec_set2 : tables.

Lemma tot_fillCounts i : touches_only_tables (fillCounts i).
Proof. unfold fillCounts. auto 20 with tables. Qed.

Lemma tot_zeroFirstRow i : touches_only_tables (zeroFirstRow i).
Proof. unfold zeroFirstRow. auto 20 with tables. Qed.

Lemma tot_fillElement i j : touches_only_tables (fillElement i j).
Proof.
  unfold fillElement, GetClusterDescriptor, GetColumnRange. cbv zeta. auto 20 with tables.
Qed.

Lemma tot_fillElements nC i : touches_only_tables (fillElements nC i).
Proof. unfold fillElements. pose proof (tot_fillElement i). auto 20 with tables. Qed.

Lemma tot_InitializeVariables : touches_only_tables InitializeVariables.
Proof.
  unfold InitializeVariables. cbv zeta.
  pose proof tot_fillCounts. pose proof tot_zeroFirstRow. pose proof tot_fillElements.
  auto 40 with tables.
Qed.

Lemma ranges_present_of_built srcs c :
  srcs ≠ [] → tables_built srcs c → ranges_present srcs.
Proof.
  intros Hne (_ & _ & _ & _ & _ & _ & Hcells).
  destruct srcs as [|s0 rest] eqn:Hsrcs; [done |].
  exists s0. split; [done |]. intros s j Hin Hj.
  apply list_elem_of_lookup in Hin as [i Hi].
  destruct (Hcells i j) as (s' & r & prev & Hs' & Hr & _).
  { by eapply lookup_lt_Some. }
  { done. }
  assert (s' = s) as -> by congruence. eauto.
Qed.

Lemma InitializeVariables_of_ranges_present m :
  ranges_present (fSources (this m)) → ∃ m', InitializeVariables m = (m', Ok tt).
Proof.
  intros (s0 & Hs0 & Hall).
  destruct (fSources (this m)) as [|s0' rest] eqn:Hsrcs; [done |].
  injection Hs0 as ->.
  apply (InitializeVariables_total m s0 rest Hsrcs).
  intros i s j Hi Hj. apply Hall; [| done].
  rewrite Hsrcs in Hi. by eapply list_elem_of_lookup_2.
Qed.

(** X1.  Whatever its outcome, InitializeVariables writes the three tables
    only: the name, the options, the descriptor, the sources, the flag, the
    tracker, the log of calls and the allocator are as they were. *)
Theorem InitializeVariables_touches_only_tables (m m' : Machine) (r : Result unit) :
  InitializeVariables m = (m', r) →
  fNTupleName (this m') = fNTupleName (this m) ∧
  fOptions (this m') = fOptions (this m) ∧
  fDescriptor (this m') = fDescriptor (this m) ∧
  fSources (this m') = fSources (this m) ∧
  fUnsafe (this m') = fUnsafe (this m) ∧
  fPageMapper (this m') = fPageMapper (this m) ∧
  log m' = log m ∧
  next_addr m' = next_addr m.
Proof.
  intros Hrun.
  apply tot_InitializeVariables in Hrun. unfold outside_tables in Hrun.
  injection Hrun as -> -> -> -> -> -> -> ->. done.
Qed.

(** X2.  InitializeVariables returns exactly when the chain has a first
    source and every source has, in its cluster of id [GetNClusters() - 1],
    a range for each column of the first source.  Every failure is a
    [std::out_of_range]. *)
Theorem InitializeVariables_returns_iff_ranges_present (m : Machine) :
  ((∃ m', InitializeVariables m = (m', Ok tt)) ↔ ranges_present (fSources (this m))) ∧
  (∀ m' e, InitializeVariables m = (m', Err e) → ∃ what, e = StdOutOfRange what).
Proof.
  split; [split |].
  - intros [m' Hrun].
    apply InitializeVariables_ok in Hrun as (Hne & _ & Hbuilt).
    by eapply ranges_present_of_built.
  - apply InitializeVariables_of_ranges_present.
  - intros m' e Hrun. exact (oor_InitializeVariables _ _ _ Hrun).
Qed.

Lemma cell_at_unique srcs nC (T1 T2 : list (list N)) :
  (∀ j, j < nC → cell_at T1 0 j = Some 0%N) →
  (∀ j, j < nC → cell_at T2 0 j = Some 0%N) →
  (∀ i j, i < length srcs → j < nC → cell_ok srcs T1 i j) →
  (∀ i j, i < length srcs → j < nC → cell_ok srcs T2 i j) →
  ∀ i j, i ≤ length srcs → j < nC → cell_at T1 i j = cell_at T2 i j.
Proof.
  intros H01 H02 H1 H2 i. induction i as [|i IH]; intros j Hi Hj.
  - by rewrite H01, H02.
  - destruct (H1 i j) as (s1 & r1 & p1 & Hs1 & Hr1 & Hp1 & Hn1); [lia | done |].
    destruct (H2 i j) as (s2 & r2 & p2 & Hs2 & Hr2 & Hp2 & Hn2); [lia | done |].
    rewrite Hn1, Hn2. specialize (IH j ltac:(lia) Hj).
    congruence.
Qed.

Lemma rows_eq_of_cells nC (T1 T2 : list (list N)) :
  length T1 = length T2 →
  Forall (λ r, length r = nC) T1 → Forall (λ r, length r = nC) T2 →
  (∀ i j, i < length T1 → j < nC → cell_at T1 i j = cell_at T2 i j) →
  T1 = T2.
Proof.
  intros Hlen Hr1 Hr2 Hcells. apply list_eq. intros i.
  destruct (decide (i < length T1)) as [Hi | Hi].
  - destruct (lookup_lt_is_Some_2 T1 i Hi) as [r1 Hl1].
    destruct (lookup_lt_is_Some_2 T2 i ltac:(lia)) as [r2 Hl2].
    rewrite Hl1, Hl2. f_equal.
    pose proof (Forall_lookup_1 _ _ _ _ Hr1 Hl1) as Hn1.
    pose proof (Forall_lookup_1 _ _ _ _ Hr2 Hl2) as Hn2. cbn in Hn1, Hn2.
    apply list_eq. intros j. destruct (decide (j < nC)) as [Hj | Hj].
    + specialize (Hcells i j Hi Hj). unfold cell_at in Hcells.
      by rewrite Hl1, Hl2 in Hcells.
    + rewrite !lookup_ge_None_2; [done | lia | lia].
  - rewrite !lookup_ge_None_2; [done | lia | lia].
Qed.

Lemma list_eq_of_prefix (l1 l2 : list N) n (f : nat → N) :
  length l1 = n + 1 → length l2 = n + 1 →
  (∀ k, k ≤ n → l1 !! k = Some (f k)) → (∀ k, k ≤ n → l2 !! k = Some (f k)) → l1 = l2.
Proof.
  intros H1 H2 Hl1 Hl2. apply list_eq. intros k.
  destruct (decide (k ≤ n)) as [Hk | Hk].
  - by rewrite Hl1, Hl2.
  - rewrite !lookup_ge_None_2; [done | lia | lia].
Qed.

(** Tables built for the same sources are the same tables. *)
Lemma tables_built_unique srcs c1 c2 :
  tables_built srcs c1 → tables_built srcs c2 →
  fNEntryPerSource c1 = fNEntryPerSource c2 ∧
  fNClusterPerSource c1 = fNClusterPerSource c2 ∧
  fNElementsPerColumnPerSource c1 = fNElementsPerColumnPerSource c2.
Proof.
  intros (HlE1 & HlC1 & Htab1 & HlT1 & Hrows1 & Hz1 & Hc1)
         (HlE2 & HlC2 & Htab2 & HlT2 & Hrows2 & Hz2 & Hc2).
  split_and!.
  - eapply (list_eq_of_prefix _ _ _ (λ k, (entryBase srcs k mod two64)%N)); try done.
    + intros k Hk. by apply Htab1.
    + intros k Hk. by apply Htab2.
  - eapply (list_eq_of_prefix _ _ _ (λ k, (clusterBase srcs k mod two64)%N)); try done.
    + intros k Hk. by apply Htab1.
    + intros k Hk. by apply Htab2.
  - eapply rows_eq_of_cells; [lia | exact Hrows1 | exact Hrows2 |].
    intros i j Hi Hj. eapply (cell_at_unique srcs); try done. lia.
Qed.

Lemma machine_eq (m1 m2 : Machine) :
  outside_tables m1 = outside_tables m2 → tables_of m1 = tables_of m2 → m1 = m2.
Proof.
  destruct m1 as [[] ? ?], m2 as [[] ? ?]. unfold outside_tables, tables_of. cbn.
  intros [= -> -> -> -> -> -> -> ->] [= -> -> ->]. reflexivity.
Qed.

(** X3.  The tables InitializeVariables builds depend on the sources only:
    two runs on machines with the same sources leave the same three tables,
    whatever the tables held before, and a second run on the result of a
    run changes nothing. *)
Theorem InitializeVariables_tables_depend_on_sources_only (m1 m2 m1' m2' : Machine) :
  fSources (this m1) = fSources (this m2) →
  InitializeVariables m1 = (m1', Ok tt) →
  InitializeVariables m2 = (m2', Ok tt) →
  tables_of m1' = tables_of m2' ∧
  InitializeVariables m1' = (m1', Ok tt).
Proof.
  intros Hsrcs Hrun1 Hrun2.
  assert (Huniq : ∀ ma mb ma' mb', fSources (this ma) = fSources (this mb) →
            InitializeVariables ma = (ma', Ok tt) → InitializeVariables mb = (mb', Ok tt) →
            tables_of ma' = tables_of mb').
  { intros ma mb ma' mb' Hs Ha Hb.
    apply InitializeVariables_ok in Ha as (_ & _ & Hbuilt1).
    apply InitializeVariables_ok in Hb as (_ & _ & Hbuilt2).
    rewrite Hs in Hbuilt1.
    destruct (tables_built_unique _ _ _ Hbuilt1 Hbuilt2) as (HE & HC & HT).
    unfold tables_of. by rewrite HE, HC, HT. }
  split; [by eapply Huniq |].
  pose proof (InitializeVariables_ok _ _ Hrun1) as (Hne & Hout & Hbuilt).
  assert (Hs' : fSources (this m1') = fSources (this m1))
    by (unfold outside_tables in Hout; congruence).
  destruct (fSources (this m1)) as [|s0 rest] eqn:Hs1; [done |].
  destruct (InitializeVariables_total m1' s0 rest Hs') as [m'' Hrun''].
  { intros i s j Hi Hj. rewrite Hs' in Hi.
    destruct Hbuilt as (_ & _ & _ & _ & _ & _ & Hcells).
    destruct (Hcells i j) as (s' & r & prev & Hsi & Hr & _).
    { by eapply lookup_lt_Some. }
    { done. }
    assert (s' = s) as -> by congruence. eauto. }
  rewrite Hrun''. f_equal. apply machine_eq.
  - by apply InitializeVariables_ok in Hrun'' as (_ & Hout'' & _).
  - apply (Huniq m1' m1 m'' m1'); [| done | done]. by rewrite Hs', Hs1.
Qed.

Lemma mod_small_of_le (a b : N) : (a ≤ b)%N → (b < two64)%N → (a mod two64 = a)%N.
Proof. intros Hab Hb. apply N.mod_small. lia. Qed.

(** X4.  When the total entry count and the total cluster count fit 64
    bits, the entry table and the cluster table of a built chain are
    non-decreasing, and their last entries are these totals. *)
Theorem tables_non_decreasing_when_sums_fit (srcs : list RPageSource) (c : RPageSourceChain)
    (i j : nat) :
  tables_built srcs c →
  (entryBase srcs (length srcs) < two64)%N →
  (clusterBase srcs (length srcs) < two64)%N →
  i ≤ j → j ≤ length srcs →
  ∃ ei ej ci cj,
    fNEntryPerSource c !! i = Some ei ∧ fNEntryPerSource c !! j = Some ej ∧ (ei ≤ ej)%N ∧
    fNClusterPerSource c !! i = Some ci ∧ fNClusterPerSource c !! j = Some cj ∧ (ci ≤ cj)%N ∧
    fNEntryPerSource c !! length srcs = Some (entryBase srcs (length srcs)) ∧
    fNClusterPerSource c !! length srcs = Some (clusterBase srcs (length srcs)).
Proof.
  intros (_ & _ & Htab & _) HfitE HfitC Hij Hj.
  destruct (Htab i ltac:(lia)) as [HEi HCi].
  destruct (Htab j Hj) as [HEj HCj].
  destruct (Htab (length srcs) (le_n _)) as [HEn HCn].
  pose proof (entryBase_mono srcs i j Hij). pose proof (entryBase_mono srcs j _ Hj).
  pose proof (clusterBase_mono srcs i j Hij). pose proof (clusterBase_mono srcs j _ Hj).
  eexists _, _, _, _. split_and!; try eassumption.
  - rewrite !(mod_small_of_le _ (entryBase srcs (length srcs))); [done | lia | done | lia | done].
  - rewrite !(mod_small_of_le _ (clusterBase srcs (length srcs))); [done | lia | done | lia | done].
  - rewrite HEn. f_equal. by apply N.mod_small.
  - rewrite HCn. f_equal. by apply N.mod_small.
Qed.

(** ** CompareFileMetaData: totality, the flag, the warnings *)

Lemma first_diff_None {A} `{EqDecision A} (l1 l2 : list A) :
  length l1 = length l2 → first_diff l1 l2 = None → l1 = l2.
Proof.
  revert l2. induction l1 as [|x l1 IH]; intros [|y l2] Hlen Hd; try done.
  cbn in Hd. destruct (decide (x = y)) as [-> | Hne]; [| done].
  destruct (first_diff l1 l2) eqn:E; [done |].
  f_equal. apply IH; [cbn in Hlen; lia | done].
Qed.

Lemma first_mismatch_None d0 d : first_mismatch d0 d = None ↔ same_schema d0 d.
Proof.
  split; [| apply first_mismatch_same].
  unfold first_mismatch, same_schema, GetNFields, GetNColumns.
  destruct (decide _) as [Hdiff | Hsame]; [done |].
  destruct (first_diff (fFieldDescriptors d0) _) eqn:Hf; [done |].
  destruct (first_diff (fColumnDescriptors d0) _) eqn:Hc; [done |].
  intros _. split; apply first_diff_None; try done.
  - destruct (decide (length (fFieldDescriptors d0) = length (fFieldDescriptors d))); tauto.
  - destruct (decide (length (fColumnDescriptors d0) = length (fColumnDescriptors d))); tauto.
Qed.

(** A source compared while the flag is set ends the check, whatever the
    comparison gives. *)
Lemma compareSource_run_flagged i s0 si m :
  fSources (this m) !! 0 = Some s0 → fSources (this m) !! i = Some si →
  fUnsafe (this m) = true →
  ∃ evs, compareSource i m = (flag_unsafe (log_more evs m), Ok true).
Proof.
  intros H0 Hi Hu. unfold compareSource. exec.
  assert (Hflag : ∀ evs, flag_unsafe (log_more evs m) = log_more evs m).
  { intros evs. destruct m as [[] ? ?]. unfold flag_unsafe, log_more. cbn in *. by subst. }
  case_bool_decide as Hcounts.
  { exec. eexists [_; _]. cbn [mret Exec_ret ret].
    unfold flag_unsafe, log_more. simpl_chain. rewrite <- !app_assoc. reflexivity. }
  assert (HnF : GetNFields (GetDescriptor s0) = GetNFields (GetDescriptor si)).
  { destruct (decide (GetNFields (GetDescriptor s0) = GetNFields (GetDescriptor si))); tauto. }
  rewrite bind_run, (compareFields_run i s0 si) by (simpl_chain; done).
  destruct (first_diff (fFieldDescriptors _) _) as [d|].
  - exec. cbn [mret Exec_ret ret]. eexists (_ :: _).
    unfold flag_unsafe, log_more. simpl_chain. rewrite <- !app_assoc. reflexivity.
  - erewrite bind_ok by reflexivity. cbn [log_more this]. rewrite Hu.
    cbn [mret Exec_ret ret]. eexists (_ :: _). rewrite Hflag.
    unfold log_more. simpl_chain. rewrite <- !app_assoc. reflexivity.
Qed.

Lemma flag_unsafe_set_fUnsafe m : this (flag_unsafe m) = set_fUnsafe true (this m).
Proof. reflexivity. Qed.

Lemma set_fUnsafe_same c : set_fUnsafe (fUnsafe c) c = c.
Proof. by destruct c. Qed.

(** X5.  CompareFileMetaData never fails: from every state it returns,
    changes nothing of the object but the flag, never clears the flag, only
    extends the log, and allocates nothing. *)
Theorem CompareFileMetaData_never_fails (m : Machine) :
  ∃ m' evs,
    CompareFileMetaData m = (m', Ok tt) ∧
    this m' = set_fUnsafe (fUnsafe (this m')) (this m) ∧
    (fUnsafe (this m) = true → fUnsafe (this m') = true) ∧
    log m' = log m ++ evs ∧
    next_addr m' = next_addr m.
Proof.
  destruct (fUnsafe (this m)) eqn:Hu.
  - unfold CompareFileMetaData. erewrite bind_ok by reflexivity.
    destruct (fSources (this m)) as [|s0 [|s1 rest]] eqn:Hsrcs.
    + exists m, []. cbn. rewrite app_nil_r, <- Hu, set_fUnsafe_same. done.
    + exists m, []. cbn. rewrite app_nil_r, <- Hu, set_fUnsafe_same. done.
    + cbn [length Nat.sub]. rewrite for_S.
      destruct (compareSource_run_flagged 1 s0 s1 m) as [evs Hrun];
        [by rewrite Hsrcs | by rewrite Hsrcs | done |].
      rewrite Hrun. exists (flag_unsafe (log_more evs m)), evs. done.
  - rewrite (CompareFileMetaData_run m Hu).
    destruct (fSources (this m)) as [|s0 rest].
    + exists m, []. rewrite app_nil_r, Hu, <- Hu, set_fUnsafe_same. done.
    + destruct (chain_comparisons _ _ _) as [[|] evs].
      * exists (flag_unsafe (log_more evs m)), evs. done.
      * exists (log_more evs m), evs. cbn. rewrite Hu, <- Hu, set_fUnsafe_same. done.
Qed.

Lemma warnings_app evs1 evs2 : warnings (evs1 ++ evs2) = warnings evs1 ++ warnings evs2.
Proof. unfold warnings. apply filter_app. Qed.

Lemma warnings_field_events i from n : warnings (field_events i from n) = [].
Proof.
  unfold warnings, field_events. revert from.
  induction n as [|n IH]; intros from; [done |]. cbn. apply IH.
Qed.

Lemma warnings_column_events i from n : warnings (column_events i from n) = [].
Proof.
  unfold warnings, column_events. revert from.
  induction n as [|n IH]; intros from; [done |]. cbn. apply IH.
Qed.

Lemma warnings_all_comparisons d0 i : warnings (all_comparisons d0 i) = [].
Proof.
  unfold all_comparisons.
  change (EvCompareCounts i :: ?l) with ([EvCompareCounts i] ++ l).
  by rewrite !warnings_app, warnings_field_events, warnings_column_events.
Qed.

Lemma warnings_comparisons_until d0 i mm : length (warnings (comparisons_until d0 i mm)) = 1.
Proof.
  destruct mm as [|j|j]; unfold comparisons_until.
  - reflexivity.
  - change (EvCompareCounts i :: ?l) with ([EvCompareCounts i] ++ l).
    by rewrite !warnings_app, warnings_field_events.
  - change (EvCompareCounts i :: ?l) with ([EvCompareCounts i] ++ l).
    by rewrite !warnings_app, warnings_field_events, warnings_column_events.
Qed.

Lemma chain_comparisons_flag d0 rest : ∀ i,
  let '(u, evs) := chain_comparisons d0 i rest in
  (u = true ↔ ∃ s, s ∈ rest ∧ ¬ same_schema d0 (GetDescriptor s)) ∧
  length (warnings evs) = (if u then 1 else 0).
Proof.
  induction rest as [|s rest IH]; intros i.
  - cbn. split; [| done]. split; [done |]. intros (s & Hin & _). by apply elem_of_nil in Hin.
  - cbn [chain_comparisons].
    destruct (first_mismatch d0 (GetDescriptor s)) as [mm|] eqn:Hmm.
    + split; [| apply warnings_comparisons_until].
      split; [| done]. intros _. exists s. split; [apply list_elem_of_here |].
      intros Hsame%first_mismatch_None. congruence.
    + specialize (IH (S i)). destruct (chain_comparisons d0 (S i) rest) as [u evs].
      destruct IH as [IHu IHw]. split.
      * rewrite IHu. apply first_mismatch_None in Hmm. split.
        { intros (s' & Hin & Hne). exists s'. split; [by apply list_elem_of_further | done]. }
        { intros (s' & Hin & Hne). apply elem_of_cons in Hin as [-> | Hin]; [done |]. eauto. }
      * by rewrite warnings_app, warnings_all_comparisons.
Qed.

(** X6.  Started with the flag unset, CompareFileMetaData sets the flag
    exactly when some source after the first has not the field and column
    descriptors of the first; it logs one warning when it sets the flag and
    none when it does not. *)
Theorem CompareFileMetaData_flag_tells_schema_difference (m m' : Machine) (s0 : RPageSource)
    (rest : list RPageSource) :
  fUnsafe (this m) = false →
  fSources (this m) = s0 :: rest →
  CompareFileMetaData m = (m', Ok tt) →
  (fUnsafe (this m') = true ↔
   ∃ s, s ∈ rest ∧ ¬ same_schema (GetDescriptor s0) (GetDescriptor s)) ∧
  ∃ evs, log m' = log m ++ evs ∧
         length (warnings evs) = (if fUnsafe (this m') then 1 else 0).
Proof.
  intros Hu Hsrcs Hrun. rewrite (CompareFileMetaData_run m Hu), Hsrcs in Hrun.
  pose proof (chain_comparisons_flag (GetDescriptor s0) rest 1) as Hcc.
  destruct (chain_comparisons _ _ _) as [u evs]. destruct Hcc as [Hflag Hwarn].
  destruct u; inversion Hrun; subst; cbn.
  - split; [by rewrite <- Hflag | by exists evs].
  - rewrite Hu. split; [by rewrite <- Hflag | by exists evs].
Qed.

(** ** The constructors: when they return and what they leave *)

Lemma checks_run m0 m' r :
  fUnsafe (this m0) = false →
  checks m0 = (m', r) →
  before_checks m' = before_checks m0 ∧
  (∃ evs, log m' = log m0 ++ evs ∧
          length (warnings evs) = (if fUnsafe (this m') then 1 else 0)) ∧
  (fUnsafe (this m') = true ↔ schemas_differ (fSources (this m0))) ∧
  (r = Ok tt ↔ ranges_present (fSources (this m0))) ∧
  (r = Ok tt → tables_built (fSources (this m0)) (this m')) ∧
  (∀ e, r = Err e → is_out_of_range e).
Proof.
  intros Hu Hrun. unfold checks in Hrun.
  pose proof (CompareFileMetaData_run m0 Hu) as Hcmp.
  assert (∃ (u : bool) evs, CompareFileMetaData m0 =
            (log_more evs (if u then flag_unsafe m0 else m0), Ok tt) ∧
            (u = true ↔ schemas_differ (fSources (this m0))) ∧
            length (warnings evs) = (if u then 1 else 0)) as (u & evs & Hcmp' & Hflag & Hwarn).
  { destruct (fSources (this m0)) as [|s0 rest] eqn:Hsrcs.
    - exists false, []. rewrite log_more_nil. split_and!; [done | | done].
      split; [done |]. by intros (? & ? & ? & ? & _).
    - pose proof (chain_comparisons_flag (GetDescriptor s0) rest 1) as Hcc.
      destruct (chain_comparisons _ _ _) as [u evs]. destruct Hcc as [Hflag Hwarn].
      exists u, evs. split_and!; [by destruct u | | done].
      rewrite Hflag. split.
      + intros (s & Hin & Hne). by exists s0, rest, s.
      + intros (s0' & rest' & s & [= <- <-] & Hin & Hne). eauto. }
  clear Hcmp. erewrite bind_ok in Hrun by exact Hcmp'.
  remember (log_more evs (if u then flag_unsafe m0 else m0)) as m1 eqn:Hm1.
  assert (Hsrc1 : fSources (this m1) = fSources (this m0)) by (by subst m1; destruct u).
  assert (Hfl1 : fUnsafe (this m1) = u) by (by subst m1; destruct u).
  assert (Hbc1 : before_checks m1 = before_checks m0) by (by subst m1; destruct u).
  assert (Hlog1 : log m1 = log m0 ++ evs) by (by subst m1; destruct u).
  clear Hm1 Hcmp'.
  pose proof (tot_InitializeVariables _ _ _ Hrun) as Hout.
  unfold outside_tables in Hout. injection Hout as Hn Ho Hd Hs Hfl Hm Hl Ha.
  split_and!.
  - rewrite <- Hbc1. unfold before_checks. by rewrite Hn, Ho, Hd, Hs, Hm, Ha.
  - exists evs. by rewrite Hl, Hfl, Hfl1.
  - by rewrite Hfl, Hfl1.
  - rewrite <- Hsrc1. split.
    + intros ->. apply InitializeVariables_ok in Hrun as (Hne & _ & Hbuilt).
      by eapply ranges_present_of_built.
    + intros [m'' Hrun']%InitializeVariables_of_ranges_present. congruence.
  - intros ->. apply InitializeVariables_ok in Hrun as (_ & _ & Hbuilt). by rewrite <- Hsrc1.
  - intros e ->. exact (oor_InitializeVariables _ _ _ Hrun).
Qed.

Lemma attach_all_run (made : list RPageSource) : ∀ m,
  for_each made (λ s, s' ← allocSource None s; registerSource s') m =
  ({| this := set_fSources (fSources (this m) ++ clones_from (next_addr m) made) (this m);
      log := log m ++ attach_events (next_addr m) (length made);
      next_addr := next_addr m + length made |}, Ok tt).
Proof.
  induction made as [|s rest IH]; intros m.
  - cbn. destruct m as [c l a]. destruct c. cbn. rewrite !app_nil_r, Nat.add_0_r. reflexivity.
  - cbn [for_each]. rewrite bind_run.
    rewrite bind_run. unfold allocSource at 1. cbn beta iota.
    rewrite registerSource_run. rewrite IH. cbn.
    rewrite <- !app_assoc. cbn [app].
    replace (next_addr m + S (length rest)) with (S (next_addr m + length rest)) by lia.
    reflexivity.
Qed.

Lemma for_each_fmap {A B} (f : A → B) (l : list A) (body : B → Exec unit) :
  for_each l (λ x, body (f x)) = for_each (f <$> l) body.
Proof. induction l as [|x l IH]; [done |]. cbn. by rewrite IH. Qed.

Lemma lastColumnRange_at_addr a s j : lastColumnRange (at_addr a s) j = lastColumnRange s j.
Proof. reflexivity. Qed.

Lemma elem_of_clones_from s' srcs : ∀ a,
  s' ∈ clones_from a srcs → ∃ b s, s ∈ srcs ∧ s' = at_addr b s.
Proof.
  induction srcs as [|s rest IH]; intros a Hin; cbn in Hin.
  - by apply elem_of_nil in Hin.
  - apply elem_of_cons in Hin as [-> | Hin].
    + exists a, s. split; [apply list_elem_of_here | done].
    + destruct (IH _ Hin) as (b & s1 & Hin1 & ->). exists b, s1.
      split; [by apply list_elem_of_further | done].
Qed.

Lemma elem_of_clones_from_2 s srcs : ∀ a,
  s ∈ srcs → ∃ b, at_addr b s ∈ clones_from a srcs.
Proof.
  induction srcs as [|s1 rest IH]; intros a Hin.
  - by apply elem_of_nil in Hin.
  - apply elem_of_cons in Hin as [-> | Hin]; cbn.
    + exists a. apply list_elem_of_here.
    + destruct (IH (S a) Hin) as [b Hb]. exists b. by apply list_elem_of_further.
Qed.

Lemma ranges_present_clones a srcs :
  ranges_present (clones_from a srcs) ↔ ranges_present srcs.
Proof.
  destruct srcs as [|s0 rest].
  { split; intros (? & ? & _); done. }
  split.
  - intros (s0' & Hs0 & Hall). cbn in Hs0. injection Hs0 as <-.
    exists s0. split; [done |]. intros s j Hin Hj.
    destruct (elem_of_clones_from_2 s (s0 :: rest) a Hin) as [b Hb].
    rewrite <- (lastColumnRange_at_addr b). by apply Hall.
  - intros (s0' & Hs0 & Hall). cbn in Hs0. injection Hs0 as <-.
    exists (at_addr a s0). split; [done |]. intros s' j Hin Hj.
    apply elem_of_clones_from in Hin as (b & s & Hin & ->).
    rewrite lastColumnRange_at_addr. by apply Hall.
Qed.

Lemma same_schema_at_addr a b s0 s :
  same_schema (GetDescriptor (at_addr a s0)) (GetDescriptor (at_addr b s)) ↔
  same_schema (GetDescriptor s0) (GetDescriptor s).
Proof. reflexivity. Qed.

Lemma schemas_differ_clones a srcs :
  schemas_differ (clones_from a srcs) ↔ schemas_differ srcs.
Proof.
  destruct srcs as [|s0 rest].
  { split; intros (? & ? & ? & ? & _); done. }
  split.
  - intros (s0' & rest' & s' & Heq & Hin & Hne). cbn in Heq. injection Heq as <- <-.
    apply elem_of_clones_from in Hin as (b & s & Hin & ->).
    exists s0, rest, s. done.
  - intros (s0' & rest' & s & [= <- <-] & Hin & Hne).
    destruct (elem_of_clones_from_2 s rest (S a) Hin) as [b Hb].
    exists (at_addr a s0), (clones_from (S a) rest), (at_addr b s). done.
Qed.

Lemma take_clones_from i srcs : ∀ a, take i (clones_from a srcs) = clones_from a (take i srcs).
Proof.
  revert i. induction srcs as [|s rest IH]; intros [|i] a; cbn; try done. by rewrite IH.
Qed.

Lemma fmap_clones_from {B} (f : RPageSource → B) srcs :
  (∀ a s, f (at_addr a s) = f s) → ∀ a, f <$> clones_from a srcs = f <$> srcs.
Proof.
  intros Hf. induction srcs as [|s rest IH]; intros a; cbn; [done |]. by rewrite Hf, IH.
Qed.

Lemma entryBase_clones a srcs k : entryBase (clones_from a srcs) k = entryBase srcs k.
Proof. unfold entryBase. rewrite take_clones_from. by rewrite fmap_clones_from. Qed.

Lemma clusterBase_clones a srcs k : clusterBase (clones_from a srcs) k = clusterBase srcs k.
Proof. unfold clusterBase. rewrite take_clones_from. by rewrite fmap_clones_from. Qed.

Lemma tables_built_clones a srcs c :
  tables_built (clones_from a srcs) c ↔ tables_built srcs c.
Proof.
  unfold tables_built. rewrite clones_from_length.
  assert (HnC : from_option (λ s0, GetNColumns (GetDescriptor s0)) 0 (clones_from a srcs !! 0) =
                from_option (λ s0, GetNColumns (GetDescriptor s0)) 0 (srcs !! 0))
    by (by destruct srcs).
  cbv zeta. rewrite HnC.
  assert (Hcell : ∀ T i j, cell_ok (clones_from a srcs) T i j ↔ cell_ok srcs T i j).
  { intros T i j. unfold cell_ok. split.
    - intros (s' & r & prev & Hs' & Hr & Hc).
      destruct (srcs !! i) as [s|] eqn:Hs.
      + rewrite (clones_from_lookup _ _ _ _ Hs) in Hs'. injection Hs' as <-.
        exists s, r, prev. done.
      + apply lookup_lt_Some in Hs'. rewrite clones_from_length in Hs'.
        apply lookup_ge_None in Hs. lia.
    - intros (s & r & prev & Hs & Hr & Hc).
      exists (at_addr (a + i) s), r, prev. split; [by apply clones_from_lookup | done]. }
  split; intros (H1 & H2 & H3 & H4 & H5 & H6 & H7); split_and!; try done.
  - intros k Hk. destruct (H3 k Hk) as [HE HC].
    by rewrite entryBase_clones in HE; rewrite clusterBase_clones in HC.
  - intros i j Hi Hj. by apply Hcell, H7.
  - intros k Hk. rewrite entryBase_clones, clusterBase_clones. by apply H3.
  - intros i j Hi Hj. by apply Hcell, H7.
Qed.

Section ConstructorTheorems.
Variable Create : string → string → RNTupleReadOptions → RPageSource.

(** X7.  The constructor of lines 59-66.  Whatever its outcome, the chain
    holds the sources it was given, under the given name and options, with
    an empty tracker, and nothing was allocated.  It returns exactly when
    every source has the last column ranges InitializeVariables reads; its
    failures are [std::out_of_range].  A difference of schemas does not
    make it fail: it sets the flag, with one warning.  When it returns, the
    tables are built. *)
Theorem fromOwned_returns_iff_ranges_present (ntupleName : string)
    (sources : list RPageSource) (options : RNTupleReadOptions) (m m' : Machine)
    (r : Result unit) :
  RPageSourceChain_fromOwned ntupleName sources options m = (m', r) →
  (r = Ok tt ↔ ranges_present sources) ∧
  (∀ e, r = Err e → is_out_of_range e) ∧
  fSources (this m') = sources ∧
  fNTupleName (this m') = ntupleName ∧ fOptions (this m') = options ∧
  fPageMapper (this m') = ∅ ∧
  next_addr m' = next_addr m ∧
  (fUnsafe (this m') = true ↔ schemas_differ sources) ∧
  (∃ evs, log m' = log m ++ evs ∧
          length (warnings evs) = (if fUnsafe (this m') then 1 else 0)) ∧
  (r = Ok tt → tables_built sources (this m')).
Proof.
  unfold RPageSourceChain_fromOwned. intros Hrun.
  erewrite bind_ok in Hrun by reflexivity.
  apply checks_run in Hrun as (Hbc & Hlog & Hflag & Hok & Hbuilt & Herr); [| reflexivity].
  unfold before_checks in Hbc. cbn in Hbc, Hlog, Hflag, Hok, Hbuilt.
  injection Hbc as Hn Ho Hd Hs Hm Ha.
  split_and!; done.
Qed.

(** X8.  The constructor of lines 29-43.  Whatever its outcome, the chain
    holds one new object per location, made by
    [Create(ntupleName, location, options)], in the order of the locations,
    and each was attached once, in that order, before any comparison.  It
    returns exactly when the created sources have the last column ranges
    InitializeVariables reads; its failures are [std::out_of_range]; the
    flag is set exactly when the schemas of the created sources differ.
    When it returns, the tables are built. *)
Theorem fromLocations_creates_and_attaches_in_order (ntupleName : string)
    (locationVec : list string) (options : RNTupleReadOptions) (m m' : Machine)
    (r : Result unit) :
  let made := (λ location, Create ntupleName location options) <$> locationVec in
  RPageSourceChain_fromLocations Create ntupleName locationVec options m = (m', r) →
  fSources (this m') = clones_from (next_addr m) made ∧
  next_addr m' = next_addr m + length locationVec ∧
  (∃ evs, log m' = log m ++ attach_events (next_addr m) (length locationVec) ++ evs ∧
          length (warnings evs) = (if fUnsafe (this m') then 1 else 0)) ∧
  (fUnsafe (this m') = true ↔ schemas_differ made) ∧
  (r = Ok tt ↔ ranges_present made) ∧
  (∀ e, r = Err e → is_out_of_range e) ∧
  (r = Ok tt → tables_built (fSources (this m')) (this m')).
Proof.
  intros made. unfold RPageSourceChain_fromLocations. intros Hrun.
  erewrite bind_ok in Hrun by reflexivity.
  rewrite (for_each_fmap (λ location, Create ntupleName location options) locationVec
             (λ s0, s ← allocSource None s0; registerSource s)) in Hrun.
  fold made in Hrun.
  erewrite bind_ok in Hrun by apply attach_all_run.
  apply checks_run in Hrun as (Hbc & (evs & Hlog & Hwarn) & Hflag & Hok & Hbuilt & Herr); [| reflexivity].
  unfold before_checks in Hbc. cbn in Hbc, Hlog, Hflag, Hok, Hbuilt.
  injection Hbc as Hn Ho Hd Hs Hm Ha.
  assert (Hlen : length made = length locationVec) by apply length_fmap.
  rewrite Hlen in *.
  split_and!.
  - done.
  - done.
  - exists evs. by rewrite Hlog, <- app_assoc.
  - by rewrite Hflag, schemas_differ_clones.
  - by rewrite Hok, ranges_present_clones.
  - done.
  - rewrite Hs. done.
Qed.

(** X9.  The constructor of lines 45-57.  Whatever its outcome, the chain
    holds one clone per source handed in, in order, each cloned and then
    attached before the next.  It returns exactly when the sources handed
    in have the last column ranges InitializeVariables reads; its failures
    are [std::out_of_range]; the flag is set exactly when their schemas
    differ. *)
Theorem fromSources_returns_iff_ranges_present (ntupleName : string)
    (sources : list RPageSource) (options : RNTupleReadOptions) (m m' : Machine)
    (r : Result unit) :
  RPageSourceChain_fromSources ntupleName sources options m = (m', r) →
  fSources (this m') = clones_from (next_addr m) sources ∧
  next_addr m' = next_addr m + length sources ∧
  (∃ evs, log m' = log m ++ clone_events (next_addr m) sources ++ evs ∧
          length (warnings evs) = (if fUnsafe (this m') then 1 else 0)) ∧
  (fUnsafe (this m') = true ↔ schemas_differ sources) ∧
  (r = Ok tt ↔ ranges_present sources) ∧
  (∀ e, r = Err e → is_out_of_range e).
Proof.
  unfold RPageSourceChain_fromSources. intros Hrun.
  erewrite bind_ok in Hrun by reflexivity.
  erewrite bind_ok in Hrun by apply clone_all_run.
  apply checks_run in Hrun as (Hbc & (evs & Hlog & Hwarn) & Hflag & Hok & Hbuilt & Herr); [| reflexivity].
  unfold before_checks in Hbc. cbn in Hbc, Hlog, Hflag, Hok, Hbuilt.
  injection Hbc as Hn Ho Hd Hs Hm Ha.
  split_and!.
  - done.
  - done.
  - exists evs. by rewrite Hlog, <- app_assoc.
  - by rewrite Hflag, schemas_differ_clones.
  - by rewrite Hok, ranges_present_clones.
  - done.
Qed.

(** X10.  Clone of a chain with a source and built tables always returns.
    It leaves the chain as it is, and the three tables of the clone are
    those of the original.  The flag of the clone is not copied: it is set
    exactly when the schemas of the sources differ. *)
Theorem Clone_of_built_chain_has_same_tables (m : Machine) :
  fSources (this m) ≠ [] →
  tables_built (fSources (this m)) (this m) →
  ∃ m' c', Clone m = (m', Ok c') ∧
           this m' = this m ∧
           fNEntryPerSource c' = fNEntryPerSource (this m) ∧
           fNClusterPerSource c' = fNClusterPerSource (this m) ∧
           fNElementsPerColumnPerSource c' = fNElementsPerColumnPerSource (this m) ∧
           (fUnsafe c' = true ↔ schemas_differ (fSources (this m))).
Proof.
  intros Hne Hbuilt.
  pose proof (ranges_present_of_built _ _ Hne Hbuilt) as Hranges.
  unfold Clone. erewrite bind_ok by reflexivity.
  unfold make_unique.
  destruct (RPageSourceChain_fromSources _ _ _ _) as [mc r] eqn:Hctor.
  unfold RPageSourceChain_fromSources in Hctor.
  erewrite bind_ok in Hctor by reflexivity.
  erewrite bind_ok in Hctor by apply clone_all_run.
  apply checks_run in Hctor as (Hbc & _ & Hflag & Hok & Hbuilt' & _); [| reflexivity].
  cbn in Hflag, Hok, Hbuilt'.
  rewrite ranges_present_clones in Hok. apply Hok in Hranges. subst r.
  specialize (Hbuilt' eq_refl). rewrite tables_built_clones in Hbuilt'.
  destruct (tables_built_unique _ _ _ Hbuilt' Hbuilt) as (HE & HC & HT).
  eexists _, _. split; [reflexivity |]. cbn.
  split_and!; try done.
  by rewrite Hflag, schemas_differ_clones.
Qed.

End ConstructorTheorems.

(** ** Dispatch and release: every outcome *)

Lemma oor_findSource what table x n : ∀ i0,
  throws_only_out_of_range (findSource what table x n i0).
Proof.
  induction n as [|n IH]; intros i0; cbn [findSource]; [apply oor_mret |].
  apply oor_bind; [apply oor_vec_at |]. intros b.
  destruct (x <? b)%N; [apply oor_mret | apply IH].
Qed.

Lemma oor_rewindow page i columnHandle clusterId :
  throws_only_out_of_range (rewindow page i columnHandle clusterId).
Proof. unfold rewindow, GetClusterDescriptor, GetColumnRange. auto 20 with oor. Qed.

(** The least interval of a prefix-sum table that holds [x]. *)
Lemma first_interval (base : nat → N) (x : N) : ∀ n,
  base 0 = 0%N → (x < base n)%N →
  ∃ i, i < n ∧ (∀ k, k < i → (base (S k) ≤ x)%N) ∧ (x < base (S i))%N.
Proof.
  induction n as [|n IH]; intros H0 Hx; [lia |].
  destruct (decide (x < base n)%N) as [Hlt | Hge].
  - destruct (IH H0 Hlt) as (i & Hi & Hbelow & Habove). exists i. split_and!; [lia | done | done].
  - assert (Hall : ∀ k, k ≤ n → (∀ j, j < k → (base (S j) ≤ x)%N) ∨
                          ∃ i, i < k ∧ (∀ j, j < i → (base (S j) ≤ x)%N) ∧ (x < base (S i))%N).
    { induction k as [|k IHk]; intros Hk; [left; lia |].
      destruct IHk as [Hbelow | (i & Hi & Hb & Ha)]; [lia | |].
      - destruct (decide (x < base (S k))%N) as [Hlt | Hge'].
        + right. exists k. split_and!; [lia | done | done].
        + left. intros j Hj. destruct (decide (j = k)) as [-> | Hne]; [lia | apply Hbelow; lia].
      - right. exists i. split_and!; [lia | done | done]. }
    destruct (Hall n (le_n _)) as [Hbelow | (i & Hi & Hb & Ha)].
    + exists n. split_and!; [lia | done | done].
    + exists i. split_and!; [lia | done | done].
Qed.

Lemma request_base_0 srcs req : request_base srcs req 0 = 0%N.
Proof. by destruct req. Qed.

Lemma request_base_mono srcs req i j :
  i ≤ j → (request_base srcs req i ≤ request_base srcs req j)%N.
Proof. destruct req; [apply entryBase_mono | apply clusterBase_mono]. Qed.

Lemma request_base_S srcs req i s :
  srcs !! i = Some s →
  request_base srcs req (S i) = (request_base srcs req i + source_size req s)%N.
Proof. destruct req; [apply entryBase_S | apply clusterBase_S]. Qed.

Lemma request_table_built srcs c req k :
  tables_built srcs c → totals_fit srcs → k ≤ length srcs →
  request_table req c !! k = Some (request_base srcs req k).
Proof.
  intros (_ & _ & Htab & _) [HfitE HfitC] Hk. destruct (Htab k Hk) as [HE HC].
  destruct req; cbn.
  - rewrite HE. f_equal. apply N.mod_small.
    pose proof (entryBase_mono srcs k _ Hk). lia.
  - rewrite HC. f_equal. apply N.mod_small.
    pose proof (clusterBase_mono srcs k _ Hk). lia.
Qed.

Lemma request_table_below srcs c req k :
  tables_built srcs c → k ≤ length srcs →
  ∃ b, request_table req c !! k = Some b ∧ (b ≤ request_base srcs req k)%N.
Proof.
  intros (_ & _ & Htab & _) Hk. destruct (Htab k Hk) as [HE HC].
  destruct req; cbn; eexists; (split; [eassumption |]); apply N.Div0.mod_le.
Qed.

Section DispatchOutcomes.
Variable FindClusterId : RNTupleDescriptor → N → N → N.

Lemma Dispatch_at columnHandle req m i s b page :
  scan req m = (m, Ok i) →
  fSources (this m) !! i = Some s → request_table req (this m) !! i = Some b →
  (call_on req columnHandle i s (log m) (sub64 (request_key req) b)).2 = Ok page →
  Dispatch FindClusterId columnHandle req m =
  rewindow page i columnHandle (request_cluster FindClusterId req columnHandle (this m))
    (after_call req columnHandle i s (sub64 (request_key req) b) m).
Proof.
  intros Hscan Hs Hb Hpage. unfold after_call.
  destruct req as [g | clusterIndex]; cbn [Dispatch call_on request_key request_cluster] in *;
    cbn [snd] in Hpage; rewrite Hpage.
  - by rewrite (PopulatePage_at FindClusterId columnHandle g m i s b page Hscan Hs Hb Hpage).
  - by rewrite (PopulatePageCluster_at columnHandle clusterIndex m i s b page Hscan Hs Hb Hpage).
Qed.

Lemma Dispatch_at_err columnHandle req m i s b e :
  scan req m = (m, Ok i) →
  fSources (this m) !! i = Some s → request_table req (this m) !! i = Some b →
  (call_on req columnHandle i s (log m) (sub64 (request_key req) b)).2 = Err e →
  Dispatch FindClusterId columnHandle req m =
  (after_call req columnHandle i s (sub64 (request_key req) b) m, Err (SourceFailure e)).
Proof.
  intros Hscan Hs Hb Hfail. unfold after_call.
  destruct req as [g | clusterIndex]; cbn [Dispatch call_on request_key] in *;
    cbn [snd] in Hfail; rewrite Hfail.
  - by rewrite (PopulatePage_at_err FindClusterId columnHandle g m i s b e Hscan Hs Hb Hfail).
  - by rewrite (PopulatePageCluster_at_err columnHandle clusterIndex m i s b e Hscan Hs Hb Hfail).
Qed.

(** Either nothing happened and the dispatch failed, or one source was
    called: when it answered with a page, the page is tracked and only the
    re-windowing can still fail; when its read failed, that failure is the
    outcome. *)
Lemma Dispatch_cases columnHandle req m m' r :
  Dispatch FindClusterId columnHandle req m = (m', r) →
  (m' = m ∧ ∃ e, r = Err e ∧
     (is_out_of_range e ∨
      (e = FatalAssert (range_message req) ∧
       scan req m = (m, Ok (length (fSources (this m))))))) ∨
  (∃ i s b, scan req m = (m, Ok i) ∧
            fSources (this m) !! i = Some s ∧ request_table req (this m) !! i = Some b ∧
            m' = after_call req columnHandle i s (sub64 (request_key req) b) m ∧
            (∀ page,
               (call_on req columnHandle i s (log m) (sub64 (request_key req) b)).2 = Ok page →
               (∀ e, r = Err e → is_out_of_range e) ∧
               (∀ p, r = Ok p → GetBuffer p = GetBuffer page)) ∧
            (∀ e,
               (call_on req columnHandle i s (log m) (sub64 (request_key req) b)).2 = Err e →
               r = Err (SourceFailure e))).
Proof.
  intros Hrun.
  destruct (scan req m) as [m1 r1] eqn:Hscan.
  pose proof Hscan as Hscan'. unfold scan in Hscan'.
  apply findSource_pure in Hscan' as [-> Hrange].
  destruct r1 as [i | e].
  - specialize (Hrange i eq_refl).
    destruct (decide (i = length (fSources (this m)))) as [-> | Hne].
    + left. destruct req as [g | clusterIndex]; cbn [Dispatch] in Hrun;
        unfold PopulatePage, PopulatePageCluster in Hrun; cbv zeta in Hrun;
        erewrite bind_ok in Hrun by reflexivity;
        erewrite bind_ok in Hrun by exact Hscan;
        rewrite bool_decide_eq_false_2 in Hrun by (intros H; by apply H);
        inversion Hrun; subst; (split; [done |]); eexists; (split; [done |]); right; done.
    + assert (Hi : i < length (fSources (this m))) by lia.
      destruct (lookup_lt_is_Some_2 _ _ Hi) as [s Hs].
      destruct (request_table req (this m) !! i) as [b|] eqn:Hb.
      * right. exists i, s, b.
        destruct (call_on req columnHandle i s (log m) (sub64 (request_key req) b)).2
          as [page | e] eqn:Hanswer.
        -- rewrite (Dispatch_at columnHandle req m i s b page Hscan Hs Hb Hanswer) in Hrun.
           assert (Hoor : ∀ e, r = Err e → is_out_of_range e).
           { intros e ->. exact (oor_rewindow _ _ _ _ _ _ _ Hrun). }
           apply rewindow_pure in Hrun as [-> Hr].
           split_and!; [done | done | done | done | | intros e [=]].
           intros page' [= <-]. split; [done |].
           intros p Hp. destruct (Hr p Hp) as (cd & range & base & _ & _ & _ & ->). done.
        -- rewrite (Dispatch_at_err columnHandle req m i s b e Hscan Hs Hb Hanswer) in Hrun.
           inversion Hrun; subst.
           split_and!; [done | done | done | done | intros page [=] |].
           by intros e' [= <-].
      * left. destruct req as [g | clusterIndex]; cbn [Dispatch request_table] in *;
          unfold PopulatePage, PopulatePageCluster in Hrun; cbv zeta in Hrun;
          erewrite bind_ok in Hrun by reflexivity;
          erewrite bind_ok in Hrun by exact Hscan;
          rewrite bool_decide_eq_true_2 in Hrun by done; cbn [R__ASSERT] in Hrun;
          erewrite bind_ok in Hrun by reflexivity.
        -- erewrite bind_ok in Hrun by (by apply source_at_ok).
           erewrite bind_err in Hrun by (by apply vec_at_err).
           inversion Hrun; subst. split; [done |]. eexists. split; [done |]. left. by eexists.
        -- erewrite bind_err in Hrun by (by apply vec_at_err).
           inversion Hrun; subst. split; [done |]. eexists. split; [done |]. left. by eexists.
  - left. pose proof (oor_findSource _ _ _ _ _ _ _ _ Hscan) as Hoor.
    destruct req as [g | clusterIndex]; cbn [Dispatch] in Hrun;
      unfold PopulatePage, PopulatePageCluster in Hrun; cbv zeta in Hrun;
      erewrite bind_ok in Hrun by reflexivity;
      erewrite bind_err in Hrun by exact Hscan;
      inversion Hrun; subst; (split; [done |]); eexists; (split; [done |]); by left.
Qed.

End DispatchOutcomes.

Lemma ReleasePage_dangling page m i :
  IsNull page = false → fPageMapper (this m) !! GetBuffer page = Some i →
  length (fSources (this m)) ≤ i →
  ∃ what, ReleasePage page m = (m, Err (StdOutOfRange what)).
Proof.
  intros Hnull Htracked Hi. unfold ReleasePage. rewrite Hnull.
  erewrite bind_ok by reflexivity.
  pose proof (find_in_mapper (fPageMapper (this m)) (GetBuffer page)) as Hfind.
  destruct (list_find _ _) as [[idx [key j]]|]; [| congruence].
  destruct Hfind as [-> Hj]. assert (j = i) as -> by congruence.
  eexists. erewrite bind_err; [reflexivity |].
  apply source_at_err. by apply lookup_ge_None.
Qed.

Lemma ReleasePage_cases page m m' r :
  ReleasePage page m = (m', r) →
  (m' = m ∧ r = Ok tt ∧ IsNull page = true) ∨
  (m' = m ∧ ∃ e, r = Err e) ∨
  (∃ i, IsNull page = false ∧ fPageMapper (this m) !! GetBuffer page = Some i ∧
        i < length (fSources (this m)) ∧ m' = after_release i page m ∧ r = Ok tt).
Proof.
  intros Hrun. destruct (IsNull page) eqn:Hnull.
  { rewrite ReleasePage_null in Hrun by done. inversion Hrun; subst. by left. }
  destruct (fPageMapper (this m) !! GetBuffer page) as [i|] eqn:Hi.
  - destruct (decide (i < length (fSources (this m)))) as [Hlt | Hge].
    + rewrite (ReleasePage_tracked page m i) in Hrun by done.
      inversion Hrun; subst. right. right. by exists i.
    + destruct (ReleasePage_dangling page m i Hnull Hi ltac:(lia)) as [what Heq].
      rewrite Heq in Hrun. inversion Hrun; subst. right. left. eauto.
  - rewrite ReleasePage_untracked in Hrun by done. inversion Hrun; subst.
    right. left. eauto.
Qed.

Lemma after_call_facts req columnHandle i s localIndex m :
  let m' := after_call req columnHandle i s localIndex m in
  construction m' = construction m ∧
  log m' = log m ++ [(call_on req columnHandle i s (log m) localIndex).1] ∧
  event_source (call_on req columnHandle i s (log m) localIndex).1 = Some i ∧
  fPageMapper (this m') =
    match (call_on req columnHandle i s (log m) localIndex).2 with
    | Ok page => emplace (GetBuffer page) i (fPageMapper (this m))
    | Err _ => fPageMapper (this m)
    end.
Proof.
  unfold after_call. destruct req; cbn [call_on fst snd].
  - by destruct (SourcePopulateByEntry _ _ _ _).
  - by destruct (SourcePopulateByCluster _ _ _ _).
Qed.

Lemma tracker_valid_after_call req columnHandle i s localIndex m :
  fSources (this m) !! i = Some s →
  tracker_valid m → tracker_valid (after_call req columnHandle i s localIndex m).
Proof.
  intros Hs Hvalid.
  pose proof (after_call_facts req columnHandle i s localIndex m) as (Hc & _ & _ & Hmap).
  assert (Hsrc : fSources (this (after_call req columnHandle i s localIndex m))
                 = fSources (this m)) by (unfold construction in Hc; congruence).
  unfold tracker_valid. rewrite Hsrc, Hmap.
  destruct (call_on req columnHandle i s (log m) localIndex).2 as [page | e]; [| done].
  intros buffer j [Hj | [_ ->]]%lookup_emplace; [by eapply Hvalid |].
  by eapply lookup_lt_Some.
Qed.

Lemma beyond_total_dec srcs req : beyond_total srcs req ∨ ¬ beyond_total srcs req.
Proof. destruct req; cbn; lia. Qed.

Section DispatchExtras.
Variable FindClusterId : RNTupleDescriptor → N → N → N.


Lemma scan_beyond req m :
  tables_built (fSources (this m)) (this m) →
  beyond_total (fSources (this m)) req →
  scan req m = (m, Ok (length (fSources (this m)))).
Proof.
  intros Hbuilt Hbeyond. unfold scan.
  rewrite <- (Nat.add_0_l (length (fSources (this m)))) at 2.
  apply findSource_beyond. intros k Hk.
  destruct (request_table_below _ _ req (k + 1) Hbuilt ltac:(lia)) as (b & Hb & Hle).
  exists b. split; [done |].
  pose proof (request_base_mono (fSources (this m)) req (k + 1) (length (fSources (this m)))
                ltac:(lia)).
  destruct req; cbn in *; lia.
Qed.

Lemma scan_within req m :
  tables_built (fSources (this m)) (this m) →
  totals_fit (fSources (this m)) →
  ¬ beyond_total (fSources (this m)) req →
  ∃ i s, scan req m = (m, Ok i) ∧ fSources (this m) !! i = Some s ∧
         request_table req (this m) !! i = Some (request_base (fSources (this m)) req i) ∧
         (request_base (fSources (this m)) req i ≤ request_key req)%N ∧
         (request_key req - request_base (fSources (this m)) req i < source_size req s)%N ∧
         sub64 (request_key req) (request_base (fSources (this m)) req i) =
           (request_key req - request_base (fSources (this m)) req i)%N.
Proof.
  intros Hbuilt Hfit Hwithin.
  set (srcs := fSources (this m)) in *.
  assert (Hx : (request_key req < request_base srcs req (length srcs))%N).
  { destruct req; cbn in *; lia. }
  destruct (first_interval (request_base srcs req) (request_key req) (length srcs)
              (request_base_0 _ _) Hx) as (i & Hi & Hbelow & Habove).
  destruct (lookup_lt_is_Some_2 srcs i Hi) as [s Hs].
  assert (Hlo : (request_base srcs req i ≤ request_key req)%N).
  { destruct i as [|i]; [rewrite request_base_0; lia | apply Hbelow; lia]. }
  exists i, s. split_and!.
  - unfold scan. apply (findSource_found _ _ _ _ 0 i (request_base srcs req (S i))).
    + fold srcs. lia.
    + intros k Hk. exists (request_base srcs req (k + 1)). split.
      * apply request_table_built; [done | done | fold srcs; lia].
      * replace (k + 1) with (S k) by lia. apply Hbelow. lia.
    + replace (i + 1) with (S i) by lia. apply request_table_built; [done | done | fold srcs; lia].
    + done.
  - done.
  - apply request_table_built; [done | done | fold srcs; lia].
  - done.
  - rewrite (request_base_S _ _ _ _ Hs) in Habove. lia.
  - apply sub64_small; [done |].
    destruct Hfit as [HfE HfC]. fold srcs in HfE, HfC. destruct req; cbn in *; lia.
Qed.

(** X12.  In a built chain whose totals fit 64 bits, the range check of a
    dispatch fires exactly for the requests at or past the total.  Every
    other request is passed to the source [i] with
    [base i <= key < base (i+1)], with the local index [key - base i], which
    is below the entry count (the cluster count) of that source. *)
Theorem Dispatch_asserts_exactly_beyond_total columnHandle (req : PageRequest)
    (m m' : Machine) (r : Result RPage) :
  let srcs := fSources (this m) in
  tables_built srcs (this m) →
  totals_fit srcs →
  Dispatch FindClusterId columnHandle req m = (m', r) →
  (r = Err (FatalAssert (range_message req)) ↔ beyond_total srcs req) ∧
  (¬ beyond_total srcs req →
   ∃ i s, srcs !! i = Some s ∧
          (request_base srcs req i ≤ request_key req)%N ∧
          (request_key req - request_base srcs req i < source_size req s)%N ∧
          m' = after_call req columnHandle i s (request_key req - request_base srcs req i) m).
Proof.
  intros srcs Hbuilt Hfit Hrun.
  assert (Hwithin : ¬ beyond_total srcs req →
            r ≠ Err (FatalAssert (range_message req)) ∧
            ∃ i s, srcs !! i = Some s ∧
              (request_base srcs req i ≤ request_key req)%N ∧
              (request_key req - request_base srcs req i < source_size req s)%N ∧
              m' = after_call req columnHandle i s
                     (request_key req - request_base srcs req i) m).
  { intros Hw. destruct (scan_within req m Hbuilt Hfit Hw)
      as (i & s & Hscan & Hs & Hb & Hlo & Hhi & Hsub).
    destruct (call_on req columnHandle i s (log m)
                (sub64 (request_key req) (request_base srcs req i))).2
      as [page | e] eqn:Hanswer.
    - rewrite (Dispatch_at FindClusterId columnHandle req m i s _ page Hscan Hs Hb Hanswer)
        in Hrun.
      rewrite Hsub in Hrun. split.
      + intros ->. destruct (oor_rewindow _ _ _ _ _ _ _ Hrun) as [what [=]].
      + apply rewindow_pure in Hrun as [-> _]. by exists i, s.
    - rewrite (Dispatch_at_err FindClusterId columnHandle req m i s _ e Hscan Hs Hb Hanswer)
        in Hrun.
      rewrite Hsub in Hrun. inversion Hrun; subst m' r.
      split; [discriminate |]. by exists i, s. }
  split; [split |].
  - intros ->. destruct (beyond_total_dec srcs req) as [| Hw]; [done |].
    by destruct (Hwithin Hw) as [Hne _].
  - intros Hbeyond. pose proof (scan_beyond req m Hbuilt Hbeyond) as Hscan.
    destruct (Dispatch_cases FindClusterId _ _ _ _ _ Hrun)
      as [(-> & e & -> & He) | (i' & s' & b' & Hscan' & Hs' & _)].
    + destruct req as [g | clusterIndex]; cbn [Dispatch] in Hrun;
        unfold PopulatePage, PopulatePageCluster in Hrun; cbv zeta in Hrun;
        erewrite bind_ok in Hrun by reflexivity;
        erewrite bind_ok in Hrun by exact Hscan;
        rewrite bool_decide_eq_false_2 in Hrun by (intros H; by apply H);
        by inversion Hrun.
    + rewrite Hscan in Hscan'. injection Hscan' as <-.
      apply lookup_lt_Some in Hs'. lia.
  - intros Hw. by destruct (Hwithin Hw) as [_ ?].
Qed.

Lemma cell_at_in_row (T : list (list N)) nC i j x :
  Forall (λ r, length r = nC) T → cell_at T i j = Some x → j < nC.
Proof.
  intros Hrows Hcell. unfold cell_at in Hcell.
  destruct (T !! i) as [row|] eqn:Hrow; [| done]. cbn in Hcell.
  rewrite Forall_forall in Hrows.
  rewrite <- (Hrows row) by (by eapply list_elem_of_lookup_2).
  by eapply lookup_lt_Some.
Qed.

(** X13.  In a built chain whose totals fit 64 bits, a request within the
    total for a column id that is not below the column count of the first
    source never returns a page, and yet the source is called and the call
    logged.  When the read fails in the source, that failure is the outcome
    and nothing is tracked.  When the source answers with a page, the
    dispatch fails with [std::out_of_range], and it fails late: the buffer
    of the page is in the tracker when the failure leaves the function. *)
Theorem Dispatch_fails_after_the_call_on_unknown_column columnHandle (req : PageRequest)
    (m m' : Machine) (r : Result RPage) (s0 : RPageSource) :
  let srcs := fSources (this m) in
  tables_built srcs (this m) →
  totals_fit srcs →
  ¬ beyond_total srcs req →
  srcs !! 0 = Some s0 →
  (N.of_nat (GetNColumns (GetDescriptor s0)) ≤ fId columnHandle)%N →
  Dispatch FindClusterId columnHandle req m = (m', r) →
  ∃ i s,
    srcs !! i = Some s ∧
    log m' = log m ++ [(call_on req columnHandle i s (log m)
                          (request_key req - request_base srcs req i)).1] ∧
    (∃ e, r = Err e) ∧
    (∀ page,
       (call_on req columnHandle i s (log m) (request_key req - request_base srcs req i)).2
         = Ok page →
       (∃ e, r = Err e ∧ is_out_of_range e) ∧
       fPageMapper (this m') = emplace (GetBuffer page) i (fPageMapper (this m)) ∧
       is_Some (fPageMapper (this m') !! GetBuffer page)) ∧
    (∀ e,
       (call_on req columnHandle i s (log m) (request_key req - request_base srcs req i)).2
         = Err e →
       r = Err (SourceFailure e) ∧ fPageMapper (this m') = fPageMapper (this m)).
Proof.
  intros srcs Hbuilt Hfit Hw Hs0 Hcol Hrun.
  destruct (scan_within req m Hbuilt Hfit Hw) as (i & s & Hscan & Hs & Hb & Hlo & Hhi & Hsub).
  fold srcs in Hb, Hlo, Hhi, Hsub.
  pose proof (after_call_facts req columnHandle i s
                (request_key req - request_base srcs req i) m) as (Hc & Hlog & Hev & Hmap).
  exists i, s.
  destruct (call_on req columnHandle i s (log m)
              (request_key req - request_base srcs req i)).2 as [page | e] eqn:Hanswer.
  - assert (Hanswer' : (call_on req columnHandle i s (log m)
                          (sub64 (request_key req) (request_base srcs req i))).2 = Ok page)
      by (by rewrite Hsub).
    rewrite (Dispatch_at FindClusterId columnHandle req m i s _ page Hscan Hs Hb Hanswer')
      in Hrun.
    rewrite Hsub in Hrun.
    assert (Hfails : ∃ e, r = Err e ∧ is_out_of_range e).
    { destruct r as [p | e].
      - exfalso. apply rewindow_pure in Hrun as [_ Hr].
        destruct (Hr p eq_refl) as (cd & range & base & _ & _ & Hcell & _).
        unfold construction in Hc. injection Hc as _ _ _ _ _ _ _ HT _. rewrite HT in Hcell.
        destruct Hbuilt as (_ & _ & _ & _ & Hrows & _). fold srcs in Hrows.
        rewrite Hs0 in Hrows.
        apply (cell_at_in_row _ _ _ _ _ Hrows) in Hcell. cbn in Hcell. lia.
      - exists e. split; [done |]. exact (oor_rewindow _ _ _ _ _ _ _ Hrun). }
    apply rewindow_pure in Hrun as [-> _].
    split_and!; [done | done | | | intros e [=]].
    + destruct Hfails as (e & -> & _). eauto.
    + intros page' [= <-]. split_and!; [done | done |].
      rewrite Hmap. apply lookup_emplace_same.
  - assert (Hanswer' : (call_on req columnHandle i s (log m)
                          (sub64 (request_key req) (request_base srcs req i))).2 = Err e)
      by (by rewrite Hsub).
    rewrite (Dispatch_at_err FindClusterId columnHandle req m i s _ e Hscan Hs Hb Hanswer')
      in Hrun.
    rewrite Hsub in Hrun. inversion Hrun; subst m' r.
    split_and!; [done | done | eauto | intros page [=] |].
    by intros e' [= <-].
Qed.

(** X14.  [emplace] keeps the first owner.  When a dispatch returns a page
    whose buffer is already tracked under source [j], the tracker is left
    as it is; the release of the page is then forwarded to source [j],
    whichever source the page came from, and erases the entry. *)
Theorem Dispatch_keeps_the_earlier_owner_of_a_buffer columnHandle (req : PageRequest)
    (m m' : Machine) (p : RPage) (j : nat) :
  Dispatch FindClusterId columnHandle req m = (m', Ok p) →
  fPageMapper (this m) !! GetBuffer p = Some j →
  j < length (fSources (this m)) →
  fPageMapper (this m') = fPageMapper (this m) ∧
  ∃ i ev, log m' = log m ++ [ev] ∧ event_source ev = Some i ∧
          (IsNull p = false →
           ∃ m'', ReleasePage p m' = (m'', Ok tt) ∧
                  log m'' = log m ++ [ev; EvSourceReleasePage j p] ∧
                  fPageMapper (this m'') = delete (GetBuffer p) (fPageMapper (this m))).
Proof.
  intros Hrun Hj Hlt.
  destruct (Dispatch_cases FindClusterId _ _ _ _ _ Hrun)
    as [(_ & e & [=] & _) | (i & s & b & _ & Hs & _ & -> & Hok & Hfail)].
  pose proof (after_call_facts req columnHandle i s (sub64 (request_key req) b) m)
    as (Hc & Hlog & Hev & Hmap).
  destruct (call_on req columnHandle i s (log m) (sub64 (request_key req) b)).2
    as [page | e] eqn:Hanswer; [| by specialize (Hfail e eq_refl)].
  destruct (Hok page eq_refl) as [_ Hbuf]. specialize (Hbuf p eq_refl).
  assert (Hsame : fPageMapper (this (after_call req columnHandle i s
                     (sub64 (request_key req) b) m)) = fPageMapper (this m)).
  { rewrite Hmap. unfold emplace. by rewrite <- Hbuf, Hj. }
  split; [done |]. eexists i, _. split_and!; [done | done |].
  intros Hnull. eexists. split.
  - apply (ReleasePage_tracked p _ j); [done | by rewrite Hsame |].
    unfold construction in Hc. injection Hc as _ _ _ Hsrc _ _ _ _ _. by rewrite Hsrc.
  - cbn. rewrite Hsame, Hlog, <- app_assoc. done.
Qed.

(** X15.  Round trip.  A dispatch that returns a non-null page in a
    buffer that was not tracked, followed by the release of that page,
    leaves the object as it was before the dispatch; the log has gained the
    call on a source [i] and the ReleasePage on the same source [i]. *)
Theorem populate_then_release_restores_the_tracker columnHandle (req : PageRequest)
    (m m1 : Machine) (p : RPage) :
  Dispatch FindClusterId columnHandle req m = (m1, Ok p) →
  fPageMapper (this m) !! GetBuffer p = None →
  IsNull p = false →
  ∃ m2 i ev,
    ReleasePage p m1 = (m2, Ok tt) ∧
    this m2 = this m ∧ next_addr m2 = next_addr m ∧
    event_source ev = Some i ∧
    log m2 = log m ++ [ev; EvSourceReleasePage i p].
Proof.
  intros Hrun Hfresh Hnull.
  destruct (Dispatch_cases FindClusterId _ _ _ _ _ Hrun)
    as [(_ & e & [=] & _) | (i & s & b & _ & Hs & _ & -> & Hok & Hfail)].
  pose proof (after_call_facts req columnHandle i s (sub64 (request_key req) b) m)
    as (Hc & Hlog & Hev & Hmap).
  destruct (call_on req columnHandle i s (log m) (sub64 (request_key req) b)).2
    as [page | e] eqn:Hanswer; [| by specialize (Hfail e eq_refl)].
  destruct (Hok page eq_refl) as [_ Hbuf]. specialize (Hbuf p eq_refl).
  assert (Hi : i < length (fSources (this m))) by (by eapply lookup_lt_Some).
  assert (Hsrc : fSources (this (after_call req columnHandle i s
                    (sub64 (request_key req) b) m)) = fSources (this m))
    by (unfold construction in Hc; congruence).
  eexists _, i, _. split_and!.
  - apply (ReleasePage_tracked p _ i); [done | | by rewrite Hsrc].
    rewrite Hmap, <- Hbuf. unfold emplace. rewrite Hfresh. apply lookup_insert_eq.
  - cbn. rewrite Hmap, <- Hbuf. unfold emplace. rewrite Hfresh.
    rewrite delete_insert_id by done.
    unfold construction in Hc. injection Hc as Hn Ho Hd Hsr Hu HE HC HT _.
    destruct (this (after_call req columnHandle i s (sub64 (request_key req) b) m)).
    destruct m as [[] ? ?]. cbn in *. by subst.
  - cbn. unfold construction in Hc. by injection Hc.
  - exact Hev.
  - cbn. by rewrite Hlog, <- app_assoc.
Qed.

(** X16.  A null page that a dispatch returns was entered in the tracker
    like any other, and its release returns at once: the entry stays. *)
Theorem null_page_stays_tracked columnHandle (req : PageRequest) (m m' : Machine) (p : RPage) :
  Dispatch FindClusterId columnHandle req m = (m', Ok p) →
  IsNull p = true →
  is_Some (fPageMapper (this m') !! GetBuffer p) ∧
  ReleasePage p m' = (m', Ok tt).
Proof.
  intros Hrun Hnull. split; [| by apply ReleasePage_null].
  by destruct (Dispatch_tracks FindClusterId _ _ _ _ _ Hrun) as [? _].
Qed.

(** X17.  Whatever its outcome, ReleasePage leaves everything but the
    tracker and the log as it is, and the tracker entries of all other
    buffers.  A failed release changes nothing.  A release of a non-null
    page that returns has erased the buffer of the page and logged one
    ReleasePage on the source the buffer was tracked under. *)
Theorem ReleasePage_leaves_the_other_pages (page : RPage) (m m' : Machine) (r : Result unit) :
  ReleasePage page m = (m', r) →
  construction m' = construction m ∧
  (∀ buffer, buffer ≠ GetBuffer page →
     fPageMapper (this m') !! buffer = fPageMapper (this m) !! buffer) ∧
  (∀ e, r = Err e → m' = m) ∧
  (r = Ok tt → IsNull page = false →
   fPageMapper (this m') !! GetBuffer page = None ∧
   ∃ i, fPageMapper (this m) !! GetBuffer page = Some i ∧
        log m' = log m ++ [EvSourceReleasePage i page]).
Proof.
  intros Hrun.
  destruct (ReleasePage_cases _ _ _ _ Hrun)
    as [(-> & -> & Hnull) | [(-> & e & ->) | (i & Hnull & Hi & Hlt & -> & ->)]].
  - split_and!; [done | done | done |]. congruence.
  - split_and!; [done | done | done | done].
  - split_and!; [done | | done |].
    + intros buffer Hne. cbn. by apply lookup_delete_ne.
    + intros _ _. split; [cbn; apply lookup_delete_eq |]. by exists i.
Qed.

(** X18.  Invariant under client calls.  After any sequence of page
    requests and releases, failed ones included, a built chain whose tracker
    names sources of the chain is still built, with the same name, options,
    descriptor, sources, flag and tables, and its tracker still names
    sources of the chain; at most one call per client call was logged. *)
Theorem client_calls_keep_the_chain_built (calls : list ClientCall) (m : Machine) :
  tables_built (fSources (this m)) (this m) →
  tracker_valid m →
  let m' := after_calls FindClusterId calls m in
  construction m' = construction m ∧
  tables_built (fSources (this m')) (this m') ∧
  tracker_valid m' ∧
  ∃ evs, log m' = log m ++ evs ∧ length evs ≤ length calls.
Proof.
  revert m. induction calls as [|call calls IH]; intros m Hbuilt Hvalid; cbn zeta.
  - split_and!; [done | done | done |]. exists []. by rewrite app_nil_r.
  - assert (Hstep : ∃ m1, after_calls FindClusterId (call :: calls) m =
                            after_calls FindClusterId calls m1 ∧
                          construction m1 = construction m ∧ tracker_valid m1 ∧
                          ∃ evs, log m1 = log m ++ evs ∧ length evs ≤ 1).
    { destruct call as [columnHandle req | page]; cbn [after_calls].
      - destruct (Dispatch FindClusterId columnHandle req m) as [m1 r] eqn:Hrun.
        exists m1. split; [done |].
        destruct (Dispatch_cases FindClusterId _ _ _ _ _ Hrun)
          as [(-> & _) | (i & s & b & _ & Hs & _ & -> & _)].
        + split_and!; [done | done |]. exists []. rewrite app_nil_r. split; [done | cbn; lia].
        + pose proof (after_call_facts req columnHandle i s (sub64 (request_key req) b) m)
            as (Hc & Hlog & _ & _).
          split_and!; [done | by apply tracker_valid_after_call |].
          eexists [_]. split; [exact Hlog | cbn; lia].
      - destruct (ReleasePage page m) as [m1 r] eqn:Hrun. exists m1. split; [done |].
        split_and!.
        + exact (keeps_ReleasePage _ _ _ _ Hrun).
        + by eapply ReleasePage_keeps_tracker_valid.
        + destruct (ReleasePage_cases _ _ _ _ Hrun)
            as [(-> & _) | [(-> & _) | (i & _ & _ & _ & -> & _)]].
          * exists []. rewrite app_nil_r. split; [done | cbn; lia].
          * exists []. rewrite app_nil_r. split; [done | cbn; lia].
          * eexists [_]. split; [done | cbn; lia]. }
    destruct Hstep as (m1 & -> & Hc1 & Hvalid1 & evs1 & Hlog1 & Hlen1).
    destruct (IH m1) as (Hc & Hb & Hv & evs & Hlog & Hlen).
    { by apply (tables_built_kept m). }
    { done. }
    split_and!; [congruence | done | done |].
    exists (evs1 ++ evs). rewrite Hlog, Hlog1, <- app_assoc. split; [done |].
    rewrite length_app. cbn. lia.
Qed.

End DispatchExtras.

(** ** DoAttach and GetHeaderAndFooter *)

Section AttachingProofs.
Variable RNTupleDescriptorBuilder : Type.
Variable newBuilder : RNTupleDescriptorBuilder.
Variable SourceGetHeaderAndFooter :
  RPageSource → RNTupleDescriptorBuilder → RNTupleDescriptorBuilder.
Variable AddClustersFromAdditionalFile :
  RNTupleDescriptor → RNTupleDescriptorBuilder → RNTupleDescriptorBuilder.
Variable MoveDescriptor : RNTupleDescriptorBuilder → RNTupleDescriptor.

Lemma addClusters_run m : ∀ n i b,
  i + n = length (fSources (this m)) →
  addClusters _ AddClustersFromAdditionalFile n i b m =
  (m, Ok (clusters_added _ AddClustersFromAdditionalFile (drop i (fSources (this m))) b)).
Proof.
  induction n as [|n IH]; intros i b Hlen.
  - cbn. rewrite drop_ge by lia. reflexivity.
  - cbn [addClusters].
    destruct (lookup_lt_is_Some_2 (fSources (this m)) i ltac:(lia)) as [s Hs].
    erewrite bind_ok by (by apply source_at_ok).
    rewrite IH by lia. by rewrite (drop_S _ _ _ Hs).
Qed.

Lemma GetHeaderAndFooter_run b m :
  GetHeaderAndFooter _ SourceGetHeaderAndFooter AddClustersFromAdditionalFile b m =
  match fSources (this m) with
  | [] => (m, Err (StdOutOfRange "fSources.at"))
  | s0 :: rest =>
      (m, Ok (merged _ SourceGetHeaderAndFooter AddClustersFromAdditionalFile s0 rest b))
  end.
Proof.
  unfold GetHeaderAndFooter. destruct (fSources (this m)) as [|s0 rest] eqn:Hsrcs.
  - erewrite bind_err; [reflexivity |]. apply source_at_err. by rewrite Hsrcs.
  - erewrite bind_ok by (apply source_at_ok; by rewrite Hsrcs). cbv zeta.
    erewrite bind_ok by reflexivity. rewrite Hsrcs. cbn [length Nat.sub]. rewrite Nat.sub_0_r.
    rewrite addClusters_run by (rewrite Hsrcs; cbn; lia). by rewrite Hsrcs.
Qed.

Lemma DoAttach_run m :
  DoAttach _ newBuilder SourceGetHeaderAndFooter AddClustersFromAdditionalFile MoveDescriptor m =
  match fSources (this m) with
  | [] => (m, Err (StdOutOfRange "fSources.at"))
  | s0 :: rest =>
      (m, Ok (MoveDescriptor
                (merged _ SourceGetHeaderAndFooter AddClustersFromAdditionalFile s0 rest
                   newBuilder)))
  end.
Proof.
  unfold DoAttach. destruct (fSources (this m)) as [|s0 rest] eqn:Hsrcs.
  - erewrite bind_err; [reflexivity |]. apply source_at_err. by rewrite Hsrcs.
  - erewrite bind_ok by (apply source_at_ok; by rewrite Hsrcs). cbv zeta.
    erewrite bind_ok by reflexivity. rewrite Hsrcs. cbn [length Nat.sub]. rewrite Nat.sub_0_r.
    erewrite bind_ok by (apply addClusters_run; rewrite Hsrcs; cbn; lia).
    by rewrite Hsrcs.
Qed.

(** X19.  GetHeaderAndFooter leaves the chain as it is.  On a chain
    without sources it fails with [std::out_of_range]; otherwise it hands
    the builder to GetHeaderAndFooter of the first source and then adds the
    clusters of the descriptors of the sources 1, 2, ..., each once, in
    order. *)
Theorem GetHeaderAndFooter_merges_the_sources_in_order (descBuilder : RNTupleDescriptorBuilder)
    (m : Machine) :
  ∃ r, GetHeaderAndFooter _ SourceGetHeaderAndFooter AddClustersFromAdditionalFile descBuilder m
         = (m, r) ∧
       (fSources (this m) = [] → ∃ what, r = Err (StdOutOfRange what)) ∧
       (∀ s0 rest, fSources (this m) = s0 :: rest →
          r = Ok (foldl (λ b s, AddClustersFromAdditionalFile (GetDescriptor s) b)
                    (SourceGetHeaderAndFooter s0 descBuilder) rest)).
Proof.
  rewrite GetHeaderAndFooter_run. destruct (fSources (this m)) as [|s0 rest].
  - eexists. split; [reflexivity |]. split; [eauto | done].
  - eexists. split; [reflexivity |]. split; [done |]. by intros ? ? [= <- <-].
Qed.

(** X20.  DoAttach is GetHeaderAndFooter on a new builder followed by
    MoveDescriptor: the same final state, the same failure, and the
    descriptor returned is the one moved out of that builder. *)
Theorem DoAttach_is_GetHeaderAndFooter_on_a_new_builder (m : Machine) :
  DoAttach _ newBuilder SourceGetHeaderAndFooter AddClustersFromAdditionalFile MoveDescriptor m =
  (descBuilder ← GetHeaderAndFooter _ SourceGetHeaderAndFooter AddClustersFromAdditionalFile
                   newBuilder;
   mret (MoveDescriptor descBuilder)) m.
Proof.
  rewrite bind_run, DoAttach_run, GetHeaderAndFooter_run.
  by destruct (fSources (this m)).
Qed.

(** X21.  Attaching the chain returns exactly when the chain has a
    source.  A failure is [std::out_of_range] and changes nothing.  When it
    returns, only the descriptor was replaced, and the descriptor depends on
    the sources alone: DoAttach of the attached chain returns it again. *)
Theorem Attach_replaces_only_the_descriptor (m m' : Machine) (r : Result unit) :
  Attach _ newBuilder SourceGetHeaderAndFooter AddClustersFromAdditionalFile MoveDescriptor m
    = (m', r) →
  (r = Ok tt ↔ fSources (this m) ≠ []) ∧
  (∀ e, r = Err e → m' = m ∧ is_out_of_range e) ∧
  (r = Ok tt →
   ∃ d, this m' = set_fDescriptor d (this m) ∧ log m' = log m ∧ next_addr m' = next_addr m ∧
        DoAttach _ newBuilder SourceGetHeaderAndFooter AddClustersFromAdditionalFile
          MoveDescriptor m' = (m', Ok d)).
Proof.
  unfold Attach. intros Hrun. rewrite bind_run, DoAttach_run in Hrun.
  destruct (fSources (this m)) as [|s0 rest] eqn:Hsrcs.
  - inversion Hrun; subst. split_and!; [done | | done].
    intros e [= <-]. split; [done | by eexists].
  - inversion Hrun; subst. split_and!; [done | done |].
    intros _. eexists. split_and!; [reflexivity | done | done |].
    rewrite DoAttach_run. cbn. by rewrite Hsrcs.
Qed.

End AttachingProofs.

(** ** The element table in closed form, and the page a dispatch returns *)

Lemma elementBase_S srcs j i s :
  srcs !! i = Some s → elementBase srcs j (S i) = (elementBase srcs j i + columnEnd j s)%N.
Proof. intros Hs. unfold elementBase. by rewrite (sumN_take_S (columnEnd j) srcs i s Hs). Qed.

(** X22.  The element table in closed form.  In a built chain, entry [j]
    of row [i] of fNElementsPerColumnPerSource is the sum, as a 64-bit
    unsigned, over the sources [0 .. i-1] of the end of column [j] in the
    source's last cluster (first element index plus element count). *)
Theorem element_table_holds_prefix_sums (srcs : list RPageSource) (c : RPageSourceChain)
    (s0 : RPageSource) (i j : nat) :
  tables_built srcs c →
  srcs !! 0 = Some s0 →
  i ≤ length srcs → j < GetNColumns (GetDescriptor s0) →
  cell_at (fNElementsPerColumnPerSource c) i j = Some (elementBase srcs j i mod two64)%N.
Proof.
  intros (_ & _ & _ & _ & _ & Hzero & Hcells) Hs0 Hi Hj. rewrite Hs0 in Hzero, Hcells.
  cbn in Hzero, Hcells.
  induction i as [|i IH].
  - rewrite (Hzero j Hj). reflexivity.
  - destruct (Hcells i j ltac:(lia) Hj) as (s & r & prev & Hs & Hr & Hprev & Hnext).
    rewrite IH in Hprev by lia. injection Hprev as <-.
    rewrite Hnext. f_equal. rewrite (elementBase_S _ _ _ _ Hs).
    unfold columnEnd. rewrite Hr. cbn. unfold element_of, add64.
    rewrite N.Div0.add_mod_idemp_l, N.Div0.add_mod_idemp_r. f_equal. lia.
Qed.

Section ReturnedPage.
Variable FindClusterId : RNTupleDescriptor → N → N → N.

(** X23.  The page a dispatch returns is the page the source answered
    with, with only its window replaced: the first element is shifted by
    the element base of the source and the column; the cluster id is the
    one FindClusterId gives on the chain's descriptor for the global entry
    index (the requested one in the overload by cluster index); the self
    offset is the first element index of that cluster's range of the column
    in the chain's descriptor. *)
Theorem Dispatch_returns_the_source_page_rewindowed columnHandle (req : PageRequest)
    (m m' : Machine) (p : RPage) :
  Dispatch FindClusterId columnHandle req m = (m', Ok p) →
  ∃ i s b sourcePage cd range base,
    fSources (this m) !! i = Some s ∧
    request_table req (this m) !! i = Some b ∧
    (call_on req columnHandle i s (log m) (sub64 (request_key req) b)).2 = Ok sourcePage ∧
    fClusterDescriptors (fDescriptor (this m))
      !! N.to_nat (request_cluster FindClusterId req columnHandle (this m)) = Some cd ∧
    fColumnRanges cd !! N.to_nat (fId columnHandle) = Some range ∧
    cell_at (fNElementsPerColumnPerSource (this m)) i (N.to_nat (fId columnHandle)) = Some base ∧
    p = SetWindow sourcePage (add64 (GetGlobalRangeFirst sourcePage) base)
          {| GetId := request_cluster FindClusterId req columnHandle (this m);
             GetSelfOffset := fFirstElementIndex range |}.
Proof.
  intros Hrun. destruct req as [g | clusterIndex]; cbn [Dispatch] in Hrun.
  - destruct (PopulatePage_ok_inv _ _ _ _ _ _ Hrun)
      as (i & s & b & page & Hscan & Hs & Hb & Hpage).
    rewrite (PopulatePage_at FindClusterId _ _ _ _ _ _ _ Hscan Hs Hb Hpage) in Hrun.
    apply rewindow_pure in Hrun as [-> Hr].
    destruct (Hr p eq_refl) as (cd & range & base & Hcd & Hrange & Hbase & ->).
    exists i, s, b, page, cd, range, base. done.
  - destruct (PopulatePageCluster_ok_inv _ _ _ _ _ Hrun)
      as (i & s & b & page & Hscan & Hs & Hb & Hpage).
    rewrite (PopulatePageCluster_at _ _ _ _ _ _ _ Hscan Hs Hb Hpage) in Hrun.
    apply rewindow_pure in Hrun as [-> Hr].
    destruct (Hr p eq_refl) as (cd & range & base & Hcd & Hrange & Hbase & ->).
    exists i, s, b, page, cd, range, base. done.
Qed.

End ReturnedPage.

(** * The theorems at the chain of A and B *)

Lemma exMachine_tables_built : tables_built (fSources (this exMachine)) (this exMachine).
Proof.
  pose proof (fromOwned_ok "ntuple" [exSourceA; exSourceB] exOptions exBlank
                (RPageSourceChain_fromOwned "ntuple" [exSourceA; exSourceB] exOptions exBlank).1)
    as H.
  destruct H as (_ & _ & _ & _ & _ & H); [vm_compute; reflexivity |].
  exact H.
Qed.

Lemma PopulatePage_delegates_to_owner_witness :
  ∃ m' r,
    PopulatePage exFindClusterId exHandle 120 exMachine = (m', r) ∧
    log m' = log exMachine ++ [EvPopulateByEntry 1 exHandle 20] ∧
    fPageMapper (this m') = emplace 2003 1 (fPageMapper (this exMachine)) ∧
    ∀ p, r = Ok p → GetBuffer p = 2003%N ∧ GetNElements p = 10%N.
Proof.
  destruct (PopulatePage_delegates_to_owner exFindClusterId exHandle 120 exMachine 1 exSourceB)
    as (m' & r & Hrun & Hlog & Hpage & _).
  - exact exMachine_tables_built.
  - reflexivity.
  - vm_compute. discriminate.
  - vm_compute. reflexivity.
  - vm_compute. reflexivity.
  - destruct (Hpage (exPage 2003 20) eq_refl) as [Hmap Hp].
    exists m', r. split_and!; [exact Hrun | exact Hlog | exact Hmap | exact Hp].
Defined.

Lemma InitializeVariables_builds_prefix_sums_witness :
  InitializeVariables exInit = (exBuilt, Ok tt) ∧
  fNEntryPerSource (this exBuilt) !! 0 = Some 0%N ∧
  fNElementsPerColumnPerSource (this exBuilt) !! 0 = Some [0%N] ∧
  ∃ lastCluster range prev,
    last (fClusterDescriptors (GetDescriptor exSourceA)) = Some lastCluster ∧
    fColumnRanges lastCluster !! 0 = Some range ∧
    cell_at (fNElementsPerColumnPerSource (this exBuilt)) 0 0 = Some prev ∧
    cell_at (fNElementsPerColumnPerSource (this exBuilt)) 1 0
      = Some ((prev + (fFirstElementIndex range + fNElements range)) mod two64)%N.
Proof.
  assert (Hrun : InitializeVariables exInit = (exBuilt, Ok tt)) by (vm_compute; reflexivity).
  assert (Hfit : Forall (λ s, (GetNClusters (GetDescriptor s) < two64)%N) (fSources (this exInit))).
  { repeat constructor. }
  destruct (InitializeVariables_builds_prefix_sums exInit exBuilt Hrun Hfit)
    as (_ & _ & _ & _ & HE0 & _ & HT0 & _ & Hcol).
  split_and!; [exact Hrun | exact HE0 | exact HT0 |].
  apply (Hcol 0 exSourceA 0); [reflexivity | cbn; lia].
Defined.

Lemma Dispatch_rewindows_by_element_base_witness :
  ∃ i s ev sourcePage base,
    fSources (this exMachine) !! i = Some s ∧
    log exMachineBusy = log exMachine ++ [ev] ∧
    delegated (ByEntry 120) exHandle i s (log exMachine) ev sourcePage ∧
    cell_at (fNElementsPerColumnPerSource (this exMachine)) i (N.to_nat (fId exHandle))
      = Some base ∧
    GetGlobalRangeFirst exPageBusy = add64 (GetGlobalRangeFirst sourcePage) base ∧
    ((GetGlobalRangeFirst sourcePage + base < two64)%N →
     GetGlobalRangeFirst exPageBusy = (GetGlobalRangeFirst sourcePage + base)%N).
Proof.
  apply (Dispatch_rewindows_by_element_base exFindClusterId exHandle (ByEntry 120)
           exMachine exMachineBusy exPageBusy).
  vm_compute. reflexivity.
Defined.


Lemma Clone_duplicates_every_source_witness :
  Clone exMachine = (exAfterClone, Ok exClone) ∧
  this exAfterClone = this exMachine ∧
  fNTupleName exClone = "ntuple" ∧
  fPageMapper exClone = ∅ ∧
  fSources exClone !! 1 = Some (at_addr 3 exSourceB).
Proof.
  assert (Hrun : Clone exMachine = (exAfterClone, Ok exClone)) by (vm_compute; reflexivity).
  destruct (Clone_duplicates_every_source exMachine exAfterClone exClone Hrun)
    as (Hthis & Hname & _ & Hmapper & _ & _ & Hsrc & _ & _).
  split_and!; [exact Hrun | exact Hthis | exact Hname | exact Hmapper |].
  apply (Hsrc 1 exSourceB). reflexivity.
Defined.

Lemma exMachineBusy_tracker_valid : tracker_valid exMachineBusy.
Proof.
  intros buffer i Hi. vm_compute in Hi.
  change (i < 2). vm_compute in Hi.
  destruct (decide (buffer = 2003%N)) as [-> | Hne].
  - vm_compute in Hi. injection Hi as <-. lia.
  - exfalso. revert Hi.
    change (({[2003%N := 1]} : gmap N nat) !! buffer = Some i → False).
    rewrite lookup_singleton_ne by done. discriminate.
Qed.

Lemma ReleasePage_routes_and_forgets_witness :
  ReleasePage exPageBusy exMachineBusy = (after_release 1 exPageBusy exMachineBusy, Ok tt) ∧
  fPageMapper (this (after_release 1 exPageBusy exMachineBusy)) !! GetBuffer exPageBusy = None ∧
  ReleasePage exPageBusy (after_release 1 exPageBusy exMachineBusy)
    = (after_release 1 exPageBusy exMachineBusy, Err (FatalAssert msgRelease)).
Proof.
  destruct (ReleasePage_routes_and_forgets exFindClusterId exPageBusy exMachineBusy
              exMachineBusy_tracker_valid) as (_ & Htracked & _ & _).
  apply (Htracked eq_refl 1). vm_compute. reflexivity.
Defined.

Lemma Dispatch_beyond_total_fails_witness :
  Dispatch exFindClusterId exHandle (ByEntry 150) exMachine
  = (exMachine, Err (FatalAssert msgEntry)).
Proof.
  apply (Dispatch_beyond_total_fails exFindClusterId exHandle (ByEntry 150) exMachine).
  - exact exMachine_tables_built.
  - vm_compute. discriminate.
Defined.

Lemma CompareFileMetaData_stops_at_first_mismatch_witness :
  ∃ m',
    CompareFileMetaData exMixed = (m', Ok tt) ∧
    this m' = set_fUnsafe true (this exMixed) ∧
    log m' = [EvCompareCounts 1; EvCompareField 1 0; EvCompareColumn 1 0;
              EvCompareCounts 2; EvCompareField 2 0; EvWarning warnFields].
Proof.
  destruct (CompareFileMetaData_stops_at_first_mismatch exMixed exSourceA
              [exSourceB; exSourceC] eq_refl eq_refl) as (m' & Hrun & _ & _ & Hfirst).
  exists m'. split; [exact Hrun |].
  apply (Hfirst [exSourceB] exSourceC [] (MismatchField 0)).
  - reflexivity.
  - repeat constructor.
  - split_and!; [reflexivity | reflexivity |].
    split; [| reflexivity].
    eexists _, _. split_and!; [reflexivity | reflexivity | discriminate].
Defined.

Lemma InitializeVariables_needs_a_cluster_per_source_witness :
  sub64 (GetNClusters (GetDescriptor exSourceNoCluster)) 1 = kInvalidDescriptorId ∧
  ∃ m' what, InitializeVariables exBroken = (m', Err (StdOutOfRange what)).
Proof.
  destruct (InitializeVariables_needs_a_cluster_per_source exBroken exSourceA
              [exSourceNoCluster]) as [_ Hfail].
  - reflexivity.
  - cbn. lia.
  - destruct (Hfail exSourceNoCluster) as (Hwrap & _ & Hrun).
    + apply list_elem_of_further, list_elem_of_here.
    + reflexivity.
    + split; [exact Hwrap | exact Hrun].
Defined.

(** * The further theorems at the chain of A and B *)

Lemma exMachine_tracker_valid : tracker_valid exMachine.
Proof.
  unfold tracker_valid.
  replace (fPageMapper (this exMachine)) with (∅ : gmap N nat) by (vm_compute; reflexivity).
  apply map_Forall_empty.
Qed.

Lemma InitializeVariables_touches_only_tables_witness :
  fNTupleName (this exBuilt) = fNTupleName (this exInit) ∧
  fOptions (this exBuilt) = fOptions (this exInit) ∧
  fDescriptor (this exBuilt) = fDescriptor (this exInit) ∧
  fSources (this exBuilt) = fSources (this exInit) ∧
  fUnsafe (this exBuilt) = fUnsafe (this exInit) ∧
  fPageMapper (this exBuilt) = fPageMapper (this exInit) ∧
  log exBuilt = log exInit ∧
  next_addr exBuilt = next_addr exInit.
Proof.
  apply (InitializeVariables_touches_only_tables exInit exBuilt (Ok tt)).
  vm_compute. reflexivity.
Defined.

Lemma InitializeVariables_tables_depend_on_sources_only_witness :
  tables_of exBuilt = tables_of exBuilt ∧
  InitializeVariables exBuilt = (exBuilt, Ok tt).
Proof.
  apply (InitializeVariables_tables_depend_on_sources_only exInit exBuilt exBuilt exBuilt).
  - reflexivity.
  - vm_compute. reflexivity.
  - vm_compute. reflexivity.
Defined.

Lemma tables_non_decreasing_when_sums_fit_witness :
  ∃ ei ej ci cj,
    fNEntryPerSource (this exMachine) !! 1 = Some ei ∧
    fNEntryPerSource (this exMachine) !! 2 = Some ej ∧ (ei ≤ ej)%N ∧
    fNClusterPerSource (this exMachine) !! 1 = Some ci ∧
    fNClusterPerSource (this exMachine) !! 2 = Some cj ∧ (ci ≤ cj)%N ∧
    fNEntryPerSource (this exMachine) !! 2 = Some 150%N ∧
    fNClusterPerSource (this exMachine) !! 2 = Some 3%N.
Proof.
  apply (tables_non_decreasing_when_sums_fit (fSources (this exMachine)) (this exMachine) 1 2).
  - exact exMachine_tables_built.
  - vm_compute. reflexivity.
  - vm_compute. reflexivity.
  - vm_compute. lia.
  - vm_compute. lia.
Defined.

Lemma CompareFileMetaData_flag_tells_schema_difference_witness :
  (fUnsafe (this exCompared) = true ↔
   ∃ s, s ∈ [exSourceB; exSourceC] ∧
        ¬ same_schema (GetDescriptor exSourceA) (GetDescriptor s)) ∧
  ∃ evs, log exCompared = log exMixed ++ evs ∧ length (warnings evs) = 1.
Proof.
  apply (CompareFileMetaData_flag_tells_schema_difference exMixed exCompared exSourceA
           [exSourceB; exSourceC]).
  - reflexivity.
  - reflexivity.
  - vm_compute. reflexivity.
Defined.

Lemma fromOwned_returns_iff_ranges_present_witness :
  RPageSourceChain_fromOwned "ntuple" [exSourceA; exSourceB] exOptions exBlank
    = (exOwned, Ok tt) ∧
  ranges_present [exSourceA; exSourceB] ∧
  fSources (this exOwned) = [exSourceA; exSourceB] ∧
  tables_built [exSourceA; exSourceB] (this exOwned).
Proof.
  assert (Hrun : RPageSourceChain_fromOwned "ntuple" [exSourceA; exSourceB] exOptions exBlank
                 = (exOwned, Ok tt)) by (vm_compute; reflexivity).
  destruct (fromOwned_returns_iff_ranges_present "ntuple" [exSourceA; exSourceB] exOptions
              exBlank exOwned (Ok tt) Hrun)
    as (Hok & _ & Hsrcs & _ & _ & _ & _ & _ & _ & Hbuilt).
  split_and!; [exact Hrun | | exact Hsrcs | exact (Hbuilt eq_refl)].
  apply Hok. reflexivity.
Defined.

Lemma fromLocations_creates_and_attaches_in_order_witness :
  RPageSourceChain_fromLocations exCreate "ntuple" ["a.root"; "b.root"] exOptions exBlank
    = (exFromFiles, Ok tt) ∧
  fSources (this exFromFiles) = [at_addr 2 exSourceA; at_addr 3 exSourceB] ∧
  next_addr exFromFiles = 4 ∧
  ∃ evs, log exFromFiles = [EvSourceAttach 2; EvSourceAttach 3] ++ evs ∧
         length (warnings evs) = 0.
Proof.
  assert (Hrun : RPageSourceChain_fromLocations exCreate "ntuple" ["a.root"; "b.root"]
                   exOptions exBlank = (exFromFiles, Ok tt)) by (vm_compute; reflexivity).
  destruct (fromLocations_creates_and_attaches_in_order exCreate "ntuple" ["a.root"; "b.root"]
              exOptions exBlank exFromFiles (Ok tt) Hrun)
    as (Hsrcs & Hnext & Hlog & _).
  split_and!; [exact Hrun | exact Hsrcs | exact Hnext | exact Hlog].
Defined.

Lemma fromSources_returns_iff_ranges_present_witness :
  RPageSourceChain_fromSources "ntuple" [exSourceA; exSourceB] exOptions exBlank
    = (exFromSources, Ok tt) ∧
  fSources (this exFromSources) = [at_addr 2 exSourceA; at_addr 3 exSourceB] ∧
  ranges_present [exSourceA; exSourceB].
Proof.
  assert (Hrun : RPageSourceChain_fromSources "ntuple" [exSourceA; exSourceB] exOptions exBlank
                 = (exFromSources, Ok tt)) by (vm_compute; reflexivity).
  destruct (fromSources_returns_iff_ranges_present "ntuple" [exSourceA; exSourceB] exOptions
              exBlank exFromSources (Ok tt) Hrun)
    as (Hsrcs & _ & _ & _ & Hok & _).
  split_and!; [exact Hrun | exact Hsrcs |].
  apply Hok. reflexivity.
Defined.

Lemma Clone_of_built_chain_has_same_tables_witness :
  ∃ m' c', Clone exMachine = (m', Ok c') ∧
           this m' = this exMachine ∧
           fNEntryPerSource c' = fNEntryPerSource (this exMachine) ∧
           fNClusterPerSource c' = fNClusterPerSource (this exMachine) ∧
           fNElementsPerColumnPerSource c' = fNElementsPerColumnPerSource (this exMachine) ∧
           (fUnsafe c' = true ↔ schemas_differ (fSources (this exMachine))).
Proof.
  apply (Clone_of_built_chain_has_same_tables exMachine).
  - vm_compute. discriminate.
  - exact exMachine_tables_built.
Defined.


Lemma Dispatch_asserts_exactly_beyond_total_witness :
  (Ok exPageBusy = Err (FatalAssert msgEntry) ↔
   beyond_total (fSources (this exMachine)) (ByEntry 120)) ∧
  (¬ beyond_total (fSources (this exMachine)) (ByEntry 120) →
   ∃ i s, fSources (this exMachine) !! i = Some s ∧
          (entryBase (fSources (this exMachine)) i ≤ 120)%N ∧
          (120 - entryBase (fSources (this exMachine)) i < GetNEntries s)%N ∧
          exMachineBusy = after_call (ByEntry 120) exHandle i s
                            (120 - entryBase (fSources (this exMachine)) i) exMachine).
Proof.
  apply (Dispatch_asserts_exactly_beyond_total exFindClusterId exHandle (ByEntry 120)
           exMachine exMachineBusy (Ok exPageBusy)).
  - exact exMachine_tables_built.
  - split; vm_compute; reflexivity.
  - vm_compute. reflexivity.
Defined.

Lemma Dispatch_fails_after_the_call_on_unknown_column_witness :
  ∃ i s,
    fSources (this exMachine) !! i = Some s ∧
    log exMachineLeak
      = log exMachine ++ [(call_on (ByEntry 120) exHandleFar i s (log exMachine)
                             (120 - entryBase (fSources (this exMachine)) i)).1] ∧
    (∃ e, (Dispatch exFindClusterId exHandleFar (ByEntry 120) exMachine).2 = Err e) ∧
    (∀ page,
       (call_on (ByEntry 120) exHandleFar i s (log exMachine)
          (120 - entryBase (fSources (this exMachine)) i)).2 = Ok page →
       (∃ e, (Dispatch exFindClusterId exHandleFar (ByEntry 120) exMachine).2 = Err e ∧
             is_out_of_range e) ∧
       fPageMapper (this exMachineLeak)
         = emplace (GetBuffer page) i (fPageMapper (this exMachine)) ∧
       is_Some (fPageMapper (this exMachineLeak) !! GetBuffer page)) ∧
    (∀ e,
       (call_on (ByEntry 120) exHandleFar i s (log exMachine)
          (120 - entryBase (fSources (this exMachine)) i)).2 = Err e →
       (Dispatch exFindClusterId exHandleFar (ByEntry 120) exMachine).2
         = Err (SourceFailure e) ∧
       fPageMapper (this exMachineLeak) = fPageMapper (this exMachine)).
Proof.
  apply (Dispatch_fails_after_the_call_on_unknown_column exFindClusterId exHandleFar
           (ByEntry 120) exMachine exMachineLeak _ exSourceA).
  - exact exMachine_tables_built.
  - split; vm_compute; reflexivity.
  - vm_compute. intros H. apply H. reflexivity.
  - reflexivity.
  - vm_compute. discriminate.
  - apply surjective_pairing.
Defined.

Lemma Dispatch_keeps_the_earlier_owner_of_a_buffer_witness :
  fPageMapper (this exMachineStaleBusy) = fPageMapper (this exMachineStale) ∧
  ∃ i ev, log exMachineStaleBusy = log exMachineStale ++ [ev] ∧ event_source ev = Some i ∧
          (IsNull exPageBusy = false →
           ∃ m'', ReleasePage exPageBusy exMachineStaleBusy = (m'', Ok tt) ∧
                  log m'' = log exMachineStale ++ [ev; EvSourceReleasePage 0 exPageBusy] ∧
                  fPageMapper (this m'') =
                    delete (GetBuffer exPageBusy) (fPageMapper (this exMachineStale))).
Proof.
  apply (Dispatch_keeps_the_earlier_owner_of_a_buffer exFindClusterId exHandle (ByEntry 120)
           exMachineStale exMachineStaleBusy exPageBusy 0).
  - vm_compute. reflexivity.
  - vm_compute. reflexivity.
  - vm_compute. lia.
Defined.

Lemma populate_then_release_restores_the_tracker_witness :
  ∃ m2 i ev,
    ReleasePage exPageBusy exMachineBusy = (m2, Ok tt) ∧
    this m2 = this exMachine ∧ next_addr m2 = next_addr exMachine ∧
    event_source ev = Some i ∧
    log m2 = log exMachine ++ [ev; EvSourceReleasePage i exPageBusy].
Proof.
  apply (populate_then_release_restores_the_tracker exFindClusterId exHandle (ByEntry 120)
           exMachine exMachineBusy exPageBusy).
  - vm_compute. reflexivity.
  - vm_compute. reflexivity.
  - vm_compute. reflexivity.
Defined.

Lemma null_page_stays_tracked_witness :
  is_Some (fPageMapper (this exMachineNullBusy) !! GetBuffer exPageNull) ∧
  ReleasePage exPageNull exMachineNullBusy = (exMachineNullBusy, Ok tt).
Proof.
  apply (null_page_stays_tracked exFindClusterId exHandle (ByEntry 5) exMachineNull
           exMachineNullBusy exPageNull).
  - vm_compute. reflexivity.
  - vm_compute. reflexivity.
Defined.

Lemma ReleasePage_leaves_the_other_pages_witness :
  construction (after_release 1 exPageBusy exMachineBusy) = construction exMachineBusy ∧
  (∀ buffer, buffer ≠ GetBuffer exPageBusy →
     fPageMapper (this (after_release 1 exPageBusy exMachineBusy)) !! buffer
       = fPageMapper (this exMachineBusy) !! buffer) ∧
  (∀ e, Ok tt = Err e → after_release 1 exPageBusy exMachineBusy = exMachineBusy) ∧
  (Ok tt = Ok tt → IsNull exPageBusy = false →
   fPageMapper (this (after_release 1 exPageBusy exMachineBusy)) !! GetBuffer exPageBusy = None ∧
   ∃ i, fPageMapper (this exMachineBusy) !! GetBuffer exPageBusy = Some i ∧
        log (after_release 1 exPageBusy exMachineBusy)
          = log exMachineBusy ++ [EvSourceReleasePage i exPageBusy]).
Proof.
  apply (ReleasePage_leaves_the_other_pages exPageBusy exMachineBusy
           (after_release 1 exPageBusy exMachineBusy) (Ok tt)).
  vm_compute. reflexivity.
Defined.

Lemma client_calls_keep_the_chain_built_witness :
  construction (after_calls exFindClusterId exCalls exMachine) = construction exMachine ∧
  tables_built (fSources (this (after_calls exFindClusterId exCalls exMachine)))
    (this (after_calls exFindClusterId exCalls exMachine)) ∧
  tracker_valid (after_calls exFindClusterId exCalls exMachine) ∧
  ∃ evs, log (after_calls exFindClusterId exCalls exMachine) = log exMachine ++ evs ∧
         length evs ≤ length exCalls.
Proof.
  apply (client_calls_keep_the_chain_built exFindClusterId exCalls exMachine).
  - exact exMachine_tables_built.
  - exact exMachine_tracker_valid.
Defined.

Lemma Attach_replaces_only_the_descriptor_witness :
  (Ok tt = Ok tt ↔ fSources (this exOwned) ≠ []) ∧
  (∀ e, Ok tt = Err e → exAttached = exOwned ∧ is_out_of_range e) ∧
  (Ok tt = Ok tt →
   ∃ d, this exAttached = set_fDescriptor d (this exOwned) ∧ log exAttached = log exOwned ∧
        next_addr exAttached = next_addr exOwned ∧
        DoAttach RNTupleDescriptor emptyDescriptor exGetHeaderAndFooter exAddClusters id exAttached
          = (exAttached, Ok d)).
Proof.
  apply (Attach_replaces_only_the_descriptor RNTupleDescriptor emptyDescriptor
           exGetHeaderAndFooter exAddClusters id exOwned exAttached (Ok tt)).
  vm_compute. reflexivity.
Defined.

Lemma element_table_holds_prefix_sums_witness :
  cell_at (fNElementsPerColumnPerSource (this exMachine)) 2 0 = Some 150%N.
Proof.
  apply (element_table_holds_prefix_sums (fSources (this exMachine)) (this exMachine)
           exSourceA 2 0).
  - exact exMachine_tables_built.
  - reflexivity.
  - vm_compute. lia.
  - vm_compute. lia.
Defined.

Lemma Dispatch_returns_the_source_page_rewindowed_witness :
  ∃ i s b sourcePage cd range base,
    fSources (this exMachine) !! i = Some s ∧
    request_table (ByEntry 120) (this exMachine) !! i = Some b ∧
    (call_on (ByEntry 120) exHandle i s (log exMachine) (sub64 120 b)).2 = Ok sourcePage ∧
    fClusterDescriptors (fDescriptor (this exMachine))
      !! N.to_nat (request_cluster exFindClusterId (ByEntry 120) exHandle (this exMachine))
      = Some cd ∧
    fColumnRanges cd !! N.to_nat (fId exHandle) = Some range ∧
    cell_at (fNElementsPerColumnPerSource (this exMachine)) i (N.to_nat (fId exHandle))
      = Some base ∧
    exPageBusy =
      SetWindow sourcePage (add64 (GetGlobalRangeFirst sourcePage) base)
        {| GetId := request_cluster exFindClusterId (ByEntry 120) exHandle (this exMachine);
           GetSelfOffset := fFirstElementIndex range |}.
Proof.
  apply (Dispatch_returns_the_source_page_rewindowed exFindClusterId exHandle (ByEntry 120)
           exMachine exMachineBusy exPageBusy).
  vm_compute. reflexivity.
Defined.

(** * Where the code departs from the specification *)

(** C5: the sources of the clone of the chain of A and B are two new
    objects, not the objects of the original. *)
Lemma Clone_shares_sources_counterexample :
  Clone exMachine = (exAfterClone, Ok exClone) ∧
  src_addr <$> fSources (this exMachine) = [0; 1] ∧
  src_addr <$> fSources exClone = [2; 3] ∧
  ¬ shares_sources (this exMachine) exClone.
Proof.
  split_and!; [vm_compute; reflexivity | reflexivity | vm_compute; reflexivity |].
  intros Hshare. vm_compute in Hshare. discriminate Hshare.
Qed.

(** C7: the request past the last entry of the chain of A and B is not
    answered with an error of the out-of-range kind; it ends in the fatal
    assertion, the kind of failure the release of an untracked page ends
    in. *)
Lemma structured_index_error_counterexample :
  Dispatch exFindClusterId exHandle (ByEntry 150) exMachine
    = (exMachine, Err (FatalAssert msgEntry)) ∧
  ¬ structured_index_error (Dispatch exFindClusterId exHandle (ByEntry 150) exMachine) ∧
  ReleasePage exPageBusy exMachine = (exMachine, Err (FatalAssert msgRelease)).
Proof.
  split_and!; [vm_compute; reflexivity | | vm_compute; reflexivity].
  intros (m' & e & Hrun & what & ->).
  vm_compute in Hrun. discriminate Hrun.
Qed.

(** C9: the empty list is not turned away by a check of its own; the
    failure is the bounds failure of [fSources.at(0)]. *)
Lemma empty_list_rejected_up_front_counterexample :
  RPageSourceChain_fromOwned "ntuple" [] exOptions exBlank
  = (after_empty_construction "ntuple" exOptions exBlank, Err (StdOutOfRange "fSources.at")) ∧
  ¬ rejected_up_front (RPageSourceChain_fromOwned "ntuple" [] exOptions exBlank).
Proof.
  split; [reflexivity |].
  intros (m' & e & Hrun & Hkind & Huntouched).
  vm_compute in Hrun. injection Hrun as <- <-.
  apply Hkind. by eexists.
Qed.

(** C10: a chain whose schema has no column is constructed from a source
    that has no cluster. *)
Lemma InitializeVariables_zero_clusters_counterexample :
  RPageSourceChain_fromOwned "ntuple" [exSourceEmpty] exOptions exBlank = (exHollow, Ok tt) ∧
  fSources (this exHollow) = [exSourceEmpty] ∧
  GetNClusters (GetDescriptor exSourceEmpty) = 0%N ∧
  fNElementsPerColumnPerSource (this exHollow) = [[]; []].
Proof. split_and!; vm_compute; reflexivity. Qed.
